(** * UPAY dashboard: session manager, utilities, upload validation, the
      views and their handlers, and the attendance schema

    A shallow embedding of the JavaScript sources of the dashboard
    ([lib/auth.js], [lib/utils.js], [lib/constants.js],
    [components/UploadPage.jsx], [components/ReviewPage.jsx],
    [components/LoginPage.jsx], [components/BulkReviewList.jsx],
    [components/ProfilePage.jsx], [components/AdminUsers.jsx]), of the
    session manager and the login view of the earlier tree, and of the
    Django schema ([api/models.py]), then concrete scenarios to run them
    on, then the properties proved about them. Calls to [console] have
    no effect the program can observe and are left out. The layer that
    persists the schema is not among the sources: it is modelled from
    the specification, and marked so. *)

From Stdlib Require Import NArith ZArith List String Ascii Bool Lia.
From Stdlib Require Import DecimalString DecimalN.
From stdpp Require Import base option list gmap strings.

Set Warnings "-register-all".

(* ===================================================================== *)
(** ** JavaScript values *)
(* ===================================================================== *)

Module Js.

(** A JavaScript string is a sequence of UTF-16 code units. *)
Abbreviation jsstr := (list N).

(** The code units of a literal of the source text. *)
Definition js (s : string) : jsstr :=
  List.map N_of_ascii (list_ascii_of_string s).

Arguments js : simpl never.

(** [a === b] on two strings. *)
Definition str_eqb (a b : jsstr) : bool := bool_decide (a = b).

(** [!!s] on a string: only the empty string is falsy. *)
Definition str_truthy (s : jsstr) : bool :=
  match s with [] => false | _ :: _ => true end.

(** [Array.prototype.includes] on an array of strings. *)
Definition includes (l : list jsstr) (x : jsstr) : bool :=
  existsb (str_eqb x) l.

(** [Array.prototype.join]. *)
Fixpoint join (sep : jsstr) (l : list jsstr) : jsstr :=
  match l with
  | [] => []
  | [x] => x
  | x :: rest => x ++ sep ++ join sep rest
  end.

(** [String.prototype.split] with a separator of one code unit: the
    segments between the occurrences of [sep], never an empty array. *)
Fixpoint split (sep : N) (s : jsstr) : list jsstr :=
  match s with
  | [] => [[]]
  | c :: s' =>
      if N.eqb c sep then [] :: split sep s'
      else match split sep s' with
           | seg :: segs => (c :: seg) :: segs
           | [] => [[c]]
           end
  end.

(** [Array.prototype.pop] as used on a temporary: the last element, or
    [undefined] ([None]) on an empty array. *)
Definition pop (l : list jsstr) : option jsstr := last l.

(** [String.prototype.toLowerCase]. The capitals of ASCII and of Latin-1
    are mapped; the rest of the Unicode case table is not reproduced and
    the other code units are left as they are. No capital outside ASCII
    lower-cases to an ASCII letter other than [k] and [i], so membership
    of a lower-cased name in a list of ASCII words without [k] and [i] is
    the same under the full table. *)
Definition lower_unit (c : N) : N :=
  (if (65 <=? c) && (c <=? 90) then c + 32
   else if (192 <=? c) && (c <=? 222) && negb (c =? 215) then c + 32
   else c)%N.

Definition toLowerCase (s : jsstr) : jsstr := List.map lower_unit s.

(** The code units [String.prototype.trim] strips: WhiteSpace and
    LineTerminator of ECMA-262. *)
Definition is_white (c : N) : bool :=
  ((c =? 9) || (c =? 10) || (c =? 11) || (c =? 12) || (c =? 13) || (c =? 32)
   || (c =? 160) || (c =? 5760) || ((8192 <=? c) && (c <=? 8202))
   || (c =? 8232) || (c =? 8233) || (c =? 8239) || (c =? 8287)
   || (c =? 12288) || (c =? 65279))%N.

Fixpoint trimStart (s : jsstr) : jsstr :=
  match s with
  | c :: s' => if is_white c then trimStart s' else s
  | [] => []
  end.

Definition trim (s : jsstr) : jsstr := rev (trimStart (rev (trimStart s))).

(** Decimal rendering of a non-negative integer, as [String(n)] gives
    for the integers below 10^21. *)
Definition decimal (n : N) : jsstr :=
  js (NilEmpty.string_of_uint (N.to_uint n)).

(** A JavaScript number, by the two observations the program makes of
    one: whether it is falsy (zero; a JSON number is never NaN) and its
    rendering by [String]. *)
Record jsnum := { num_zero : bool; num_text : jsstr }.

Definition num_of_N (n : N) : jsnum :=
  {| num_zero := (n =? 0)%N; num_text := decimal n |}.

(** The values [JSON.parse] and [Response.json] produce. An object is
    the finite map of its own properties. *)
Inductive json :=
| JNull
| JBool (b : bool)
| JNum (n : jsnum)
| JStr (s : jsstr)
| JArr (l : list json)
| JObj (m : gmap (list N) json).

(** A JavaScript value as the program handles it: [None] is [undefined]. *)
Abbreviation jsval := (option json).
Abbreviation undefined := (@None json).

(** [ToBoolean]. *)
Definition truthy (v : json) : bool :=
  match v with
  | JNull => false
  | JBool b => b
  | JNum n => negb (num_zero n)
  | JStr s => str_truthy s
  | JArr _ | JObj _ => true
  end.

Definition val_truthy (v : jsval) : bool :=
  match v with Some j => truthy j | None => false end.

(** [a || b]. *)
Definition or_else (a b : jsval) : jsval := if val_truthy a then a else b.

(** [ToString]: an array is the join of its elements by commas, with
    [null] elements rendered empty. *)
Fixpoint ToString (v : json) : jsstr :=
  match v with
  | JNull => js "null"
  | JBool true => js "true"
  | JBool false => js "false"
  | JNum n => num_text n
  | JStr s => s
  | JArr l =>
      join (js ",")
        (List.map (fun x => match x with JNull => [] | _ => ToString x end) l)
  | JObj _ => js "[object Object]"
  end.

Definition val_ToString (v : jsval) : jsstr :=
  match v with Some j => ToString j | None => js "undefined" end.

(** [v === s] for a string literal [s], and [v === true]. *)
Definition val_is_str (v : jsval) (s : jsstr) : bool :=
  match v with Some (JStr t) => str_eqb t s | _ => false end.

Definition val_is_true (v : jsval) : bool :=
  match v with Some (JBool true) => true | _ => false end.

(** Exceptions: the constructor name and the message. *)
Record exn := Exn { exn_name : string; exn_message : jsstr }.

Definition Error (message : jsstr) : exn := Exn "Error" message.
Definition TypeError (message : jsstr) : exn := Exn "TypeError" message.
Definition SyntaxError (message : jsstr) : exn := Exn "SyntaxError" message.

(** The outcome of evaluating an expression or running a statement. *)
Inductive completion (A : Type) :=
| Normal (a : A)
| Throw (e : exn).
Arguments Normal {A} a.
Arguments Throw {A} e.

(** The own property [k] of a non-null value. Arrays and strings own
    [length] (their indices are not read by the program); the other
    primitives own nothing. *)
Definition own_prop (v : json) (k : string) : jsval :=
  match v with
  | JObj m => m !! js k
  | JArr l =>
      if String.eqb k "length" then Some (JNum (num_of_N (N.of_nat (length l))))
      else None
  | JStr s =>
      if String.eqb k "length" then Some (JNum (num_of_N (N.of_nat (length s))))
      else None
  | _ => None
  end.

(** [v.k]: reading a property of [null] throws (the wording is V8's). *)
Definition get_prop (v : json) (k : string) : completion jsval :=
  match v with
  | JNull =>
      Throw (TypeError (js "Cannot read properties of null (reading '"
                          ++ js k ++ js "')"))
  | _ => Normal (own_prop v k)
  end.

(** [v?.k]. *)
Definition opt_prop (v : json) (k : string) : jsval :=
  match v with
  | JNull => None
  | _ => own_prop v k
  end.

(** *** [JSON.parse]

    The grammar of ECMA-404, read one code unit at a time: a lexer that
    turns the text into tokens, then a parser that folds the tokens into
    a value over a stack of the containers still open. *)

Inductive token :=
| TLBrace | TRBrace | TLBracket | TRBracket | TColon | TComma
| TString (s : jsstr)
| TNumber (lit : jsstr)
| TTrue | TFalse | TNull.

(** Where the lexer stands inside a number literal. *)
Inductive num_phase :=
| NMinus | NZero | NInt | NDot | NFrac | NE | NESign | NExp.

(** The literal may end in these phases. *)
Definition num_complete (ph : num_phase) : bool :=
  match ph with
  | NZero | NInt | NFrac | NExp => true
  | NMinus | NDot | NE | NESign => false
  end.

Inductive lex_state :=
| LStart
| LString (acc : jsstr)
| LEscape (acc : jsstr)
| LUnicode (acc : jsstr) (hex : list N)
| LNumber (ph : num_phase) (lit : jsstr)
| LWord (rest : jsstr) (t : token).

Definition is_digit (c : N) : bool := ((48 <=? c) && (c <=? 57))%N.

Definition hex_value (c : N) : option N :=
  (if (48 <=? c) && (c <=? 57) then Some (c - 48)
   else if (65 <=? c) && (c <=? 70) then Some (c - 55)
   else if (97 <=? c) && (c <=? 102) then Some (c - 87)
   else None)%N.

(** JSON white space: tab, line feed, carriage return, space. *)
Definition is_json_space (c : N) : bool :=
  ((c =? 9) || (c =? 10) || (c =? 13) || (c =? 32))%N.

(** A code unit met between two tokens. *)
Definition lex_start (c : N) : option (lex_state * list token) :=
  (if is_json_space c then Some (LStart, [])
   else if c =? 123 then Some (LStart, [TLBrace])
   else if c =? 125 then Some (LStart, [TRBrace])
   else if c =? 91 then Some (LStart, [TLBracket])
   else if c =? 93 then Some (LStart, [TRBracket])
   else if c =? 58 then Some (LStart, [TColon])
   else if c =? 44 then Some (LStart, [TComma])
   else if c =? 34 then Some (LString [], [])
   else if c =? 45 then Some (LNumber NMinus [c], [])
   else if c =? 48 then Some (LNumber NZero [c], [])
   else if is_digit c then Some (LNumber NInt [c], [])
   else if c =? 116 then Some (LWord (js "rue") TTrue, [])
   else if c =? 102 then Some (LWord (js "alse") TFalse, [])
   else if c =? 110 then Some (LWord (js "ull") TNull, [])
   else None)%N.

(** A code unit met inside a number: it extends the literal, or ends it
    and is read again as the start of the next token. The literal and
    the string under construction are kept reversed. *)
Definition lex_number (ph : num_phase) (lit : jsstr) (c : N)
  : option (lex_state * list token) :=
  let more ph' := Some (LNumber ph' (c :: lit), []) in
  let finish :=
    match lex_start c with
    | Some (st, toks) => Some (st, TNumber (rev lit) :: toks)
    | None => None
    end in
  let is_e := ((c =? 101) || (c =? 69))%N in
  let is_dot := (c =? 46)%N in
  let is_sign := ((c =? 43) || (c =? 45))%N in
  match ph with
  | NMinus =>
      if (c =? 48)%N then more NZero
      else if is_digit c then more NInt else None
  | NZero =>
      if is_dot then more NDot else if is_e then more NE else finish
  | NInt =>
      if is_digit c then more NInt
      else if is_dot then more NDot else if is_e then more NE else finish
  | NDot => if is_digit c then more NFrac else None
  | NFrac =>
      if is_digit c then more NFrac else if is_e then more NE else finish
  | NE =>
      if is_sign then more NESign
      else if is_digit c then more NExp else None
  | NESign => if is_digit c then more NExp else None
  | NExp => if is_digit c then more NExp else finish
  end.

Definition lex_step (st : lex_state) (c : N) : option (lex_state * list token) :=
  match st with
  | LStart => lex_start c
  | LString acc =>
      (if c =? 34 then Some (LStart, [TString (rev acc)])
       else if c =? 92 then Some (LEscape acc, [])
       else if c <? 32 then None
       else Some (LString (c :: acc), []))%N
  | LEscape acc =>
      (if (c =? 34) || (c =? 92) || (c =? 47) then Some (LString (c :: acc), [])
       else if c =? 98 then Some (LString (8 :: acc), [])
       else if c =? 102 then Some (LString (12 :: acc), [])
       else if c =? 110 then Some (LString (10 :: acc), [])
       else if c =? 114 then Some (LString (13 :: acc), [])
       else if c =? 116 then Some (LString (9 :: acc), [])
       else if c =? 117 then Some (LUnicode acc [], [])
       else None)%N
  | LUnicode acc hex =>
      match hex_value c with
      | Some d =>
          match hex with
          | [a; b; e] =>
              Some (LString ((((a * 16 + b) * 16 + e) * 16 + d)%N :: acc), [])
          | _ => Some (LUnicode acc (hex ++ [d]), [])
          end
      | None => None
      end
  | LNumber ph lit => lex_number ph lit c
  | LWord rest t =>
      match rest with
      | x :: rest' =>
          if (c =? x)%N then
            match rest' with
            | [] => Some (LStart, [t])
            | _ => Some (LWord rest' t, [])
            end
          else None
      | [] => None
      end
  end.

(** The tokens of a text, or [None] where the text is not made of JSON
    tokens. *)
Fixpoint lex (st : lex_state) (s : jsstr) : option (list token) :=
  match s with
  | c :: s' =>
      match lex_step st c with
      | Some (st', toks) =>
          match lex st' s' with
          | Some rest => Some (toks ++ rest)
          | None => None
          end
      | None => None
      end
  | [] =>
      match st with
      | LStart => Some []
      | LNumber ph lit => if num_complete ph then Some [TNumber (rev lit)] else None
      | _ => None
      end
  end.

(** The number a literal denotes, by what the program observes of it:
    it is zero when no digit of its mantissa is other than 0, and its
    rendering is taken to be the literal (JavaScript prints the shortest
    decimal of the nearest double, the same text for the integers and
    short decimals in canonical form). *)
Fixpoint mantissa (lit : jsstr) : jsstr :=
  match lit with
  | c :: rest => if ((c =? 101) || (c =? 69))%N then [] else c :: mantissa rest
  | [] => []
  end.

Definition num_of_literal (lit : jsstr) : jsnum :=
  {| num_zero :=
       forallb (fun c => negb (is_digit c) || (c =? 48)%N) (mantissa lit);
     num_text := lit |}.

(** A container still open: an array with its elements so far
    (reversed), or an object with its members so far and the key whose
    value is awaited. *)
Inductive frame :=
| FArray (elems : list json)
| FObject (m : gmap (list N) json) (key : option jsstr).

(** What the parser accepts next. *)
Inductive expect :=
| EValue          (* a value *)
| EValueOrEnd     (* a value or the bracket closing an empty array *)
| EKeyOrEnd       (* a key or the brace closing an empty object *)
| EKey            (* a key *)
| EColon          (* the colon after a key *)
| ECommaOrEnd     (* a comma or the closer of the innermost container *)
| EDone (v : json).

Definition pstate : Type := list frame * expect.

(** A value is complete: it is the whole text, or goes into the
    innermost open container. A key met twice keeps the later value. *)
Definition complete (v : json) (stack : list frame) : option pstate :=
  match stack with
  | [] => Some ([], EDone v)
  | FArray elems :: st => Some (FArray (v :: elems) :: st, ECommaOrEnd)
  | FObject m (Some k) :: st => Some (FObject (<[k := v]> m) None :: st, ECommaOrEnd)
  | FObject _ None :: _ => None
  end.

Definition value_token (t : token) (stack : list frame) : option pstate :=
  match t with
  | TString s => complete (JStr s) stack
  | TNumber lit => complete (JNum (num_of_literal lit)) stack
  | TTrue => complete (JBool true) stack
  | TFalse => complete (JBool false) stack
  | TNull => complete JNull stack
  | TLBracket => Some (FArray [] :: stack, EValueOrEnd)
  | TLBrace => Some (FObject ∅ None :: stack, EKeyOrEnd)
  | TRBrace | TRBracket | TColon | TComma => None
  end.

Definition close_token (t : token) (stack : list frame) : option pstate :=
  match t, stack with
  | TRBracket, FArray elems :: st => complete (JArr (rev elems)) st
  | TRBrace, FObject m None :: st => complete (JObj m) st
  | _, _ => None
  end.

Definition key_token (t : token) (stack : list frame) : option pstate :=
  match t, stack with
  | TString k, FObject m None :: st => Some (FObject m (Some k) :: st, EColon)
  | _, _ => None
  end.

Definition parse_step (ps : pstate) (t : token) : option pstate :=
  let '(stack, e) := ps in
  match e with
  | EValue => value_token t stack
  | EValueOrEnd =>
      match t with
      | TRBracket => close_token t stack
      | _ => value_token t stack
      end
  | EKeyOrEnd =>
      match t with
      | TRBrace => close_token t stack
      | _ => key_token t stack
      end
  | EKey => key_token t stack
  | EColon =>
      match t with
      | TColon => Some (stack, EValue)
      | _ => None
      end
  | ECommaOrEnd =>
      match t, stack with
      | TComma, FArray _ :: _ => Some (stack, EValue)
      | TComma, FObject _ _ :: _ => Some (stack, EKey)
      | _, _ => close_token t stack
      end
  | EDone _ => None
  end.

Fixpoint parse_tokens (ps : pstate) (ts : list token) : option json :=
  match ts with
  | t :: ts' =>
      match parse_step ps t with
      | Some ps' => parse_tokens ps' ts'
      | None => None
      end
  | [] =>
      match ps with
      | ([], EDone v) => Some v
      | _ => None
      end
  end.

(** [JSON.parse(text)]: the value, or a [SyntaxError]. Its message
    stands for the engine's own wording, which names the offending
    token and is read by none of the modelled code. *)
Definition JSON_parse (text : jsstr) : completion json :=
  match lex LStart text with
  | Some ts =>
      match parse_tokens ([], EValue) ts with
      | Some v => Normal v
      | None => Throw (SyntaxError (js "Unexpected token in JSON"))
      end
  | None => Throw (SyntaxError (js "Unexpected token in JSON"))
  end.

(** *** More of [String.prototype] *)

(** [startsWith] and [endsWith], searched from the start and up to the
    end of the string. *)
Definition startsWith (s prefix : jsstr) : bool :=
  bool_decide (take (length prefix) s = prefix).

Definition endsWith (s suffix : jsstr) : bool :=
  bool_decide (drop (length s - length suffix) s = suffix).

(** An integer index as [slice] reads it against a string of [len]
    units: a negative one counts from the end, and both are clamped. *)
Definition slice_index (len : nat) (i : Z) : nat :=
  if (i <? 0)%Z then Z.to_nat (Z.max (Z.of_nat len + i) 0)
  else Nat.min (Z.to_nat i) len.

(** [s.slice(start, end)]; [end] is [None] when the argument is left
    out. *)
Definition slice (s : jsstr) (start : Z) (end_ : option Z) : jsstr :=
  let len := length s in
  let from := slice_index len start in
  let to := match end_ with Some e => slice_index len e | None => len end in
  take (to - from) (drop from s).

(** [s.substring(start, end)]: both indices are clamped to the string
    and swapped when out of order. *)
Definition substring (s : jsstr) (start end_ : Z) : jsstr :=
  let len := Z.of_nat (length s) in
  let finalStart := Z.min (Z.max start 0) len in
  let finalEnd := Z.min (Z.max end_ 0) len in
  let from := Z.to_nat (Z.min finalStart finalEnd) in
  let to := Z.to_nat (Z.max finalStart finalEnd) in
  take (to - from) (drop from s).

(** [s.charAt(pos)]: the empty string out of range. *)
Definition charAt (s : jsstr) (pos : nat) : jsstr :=
  match s !! pos with
  | Some c => [c]
  | None => []
  end.

(** [String.prototype.toUpperCase], on the same part of the case table
    as [toLowerCase]: the small letters of ASCII and of Latin-1, of which
    the sharp s becomes two capitals and the micro sign and the y with
    diaeresis leave Latin-1. *)
Definition upper_unit (c : N) : jsstr :=
  (if (97 <=? c) && (c <=? 122) then [c - 32]
   else if (224 <=? c) && (c <=? 254) && negb (c =? 247) then [c - 32]
   else if c =? 255 then [376]
   else if c =? 181 then [924]
   else if c =? 223 then [83; 83]
   else [c])%N.

Definition toUpperCase (s : jsstr) : jsstr := flat_map upper_unit s.

(** *** Regular expressions

    The patterns the program uses, without flags: classes of code
    units, sequence, alternation and repetition. *)
Inductive regex :=
| RNone                        (* matches nothing *)
| REmpty                       (* matches the empty string *)
| RClass (p : N -> bool)       (* one code unit of a class *)
| RSeq (r1 r2 : regex)
| RAlt (r1 r2 : regex)
| RStar (r : regex).

(** [r+]. *)
Definition RPlus (r : regex) : regex := RSeq r (RStar r).

(** Whether [r] matches the empty string. *)
Fixpoint nullable (r : regex) : bool :=
  match r with
  | RNone => false
  | REmpty => true
  | RClass _ => false
  | RSeq r1 r2 => nullable r1 && nullable r2
  | RAlt r1 r2 => nullable r1 || nullable r2
  | RStar _ => true
  end.

(** What is left of [r] to match once the code unit [c] has been
    read. *)
Fixpoint residual (c : N) (r : regex) : regex :=
  match r with
  | RNone | REmpty => RNone
  | RClass p => if p c then REmpty else RNone
  | RSeq r1 r2 =>
      if nullable r1 then RAlt (RSeq (residual c r1) r2) (residual c r2)
      else RSeq (residual c r1) r2
  | RAlt r1 r2 => RAlt (residual c r1) (residual c r2)
  | RStar r1 => RSeq (residual c r1) (RStar r1)
  end.

(** [/^r$/.test(s)]: without the [m] flag the two anchors stand for the
    ends of the input, so the test is whether [r] matches the whole of
    [s]. *)
Fixpoint test_anchored (r : regex) (s : jsstr) : bool :=
  match s with
  | [] => nullable r
  | c :: s' => test_anchored (residual c r) s'
  end.

End Js.

Import Js.

(* ===================================================================== *)
(** ** [lib/constants.js] *)
(* ===================================================================== *)

Module Constants.

Definition ALLOWED_FILE_TYPES : list jsstr :=
  [js "image/jpeg"; js "image/jpg"; js "image/png"; js "application/pdf"].

Definition ALLOWED_FILE_EXTENSIONS : list jsstr :=
  [js ".pdf"; js ".jpg"; js ".jpeg"; js ".png"].

Definition MAX_FILE_SIZE : N := 10 * 1024 * 1024.

End Constants.

(** A [File] of the browser, by the three properties the validators
    read. *)
Record File := { name : jsstr; type : jsstr; size : N }.

(** The expression ['.' + file.name.split('.').pop().toLowerCase()] that
    both validators evaluate. [pop] gives [undefined] on an empty array,
    on which the method call would throw. *)
Definition fileExtension (file_name : jsstr) : completion jsstr :=
  match pop (split 46 file_name) with
  | Some segment => Normal (js "." ++ toLowerCase segment)
  | None =>
      Throw (TypeError
               (js "Cannot read properties of undefined (reading 'toLowerCase')"))
  end.

(* ===================================================================== *)
(** ** [lib/utils.js] *)
(* ===================================================================== *)

Module Utils.
Import Constants.

(** The rendering of a number of hundredths [h] as JavaScript prints
    [h / 100]: no fraction when it is whole, else one or two decimals. *)
Definition hundredths_text (h : N) : jsstr :=
  let whole := (h / 100)%N in
  let frac := (h mod 100)%N in
  if (frac =? 0)%N then decimal whole
  else if (frac mod 10 =? 0)%N then decimal whole ++ js "." ++ decimal (frac / 10)
  else if (frac <? 10)%N then decimal whole ++ js ".0" ++ decimal frac
  else decimal whole ++ js "." ++ decimal frac.

(** [formatFileSize], in exact arithmetic: the unit index is the floor of
    the base-1024 logarithm, the value is rounded to two decimals with
    halves upwards as [Math.round] does, and a size of 1024^4 bytes or
    more reads its unit past the end of [sizes]. *)
Definition formatFileSize (bytes : N) : jsstr :=
  if (bytes =? 0)%N then js "0 Bytes"
  else
    let k := 1024%N in
    let sizes := [js "Bytes"; js "KB"; js "MB"; js "GB"] in
    let i := (N.log2 bytes / 10)%N in
    let scaled := ((2 * 100 * bytes + k ^ i) / (2 * k ^ i))%N in
    hundredths_text scaled ++ js " "
      ++ nth (N.to_nat i) sizes (js "undefined").

Record Validation := { isValid : bool; error : option jsstr }.

Definition validateFile (file : File) : completion Validation :=
  (* Check file type *)
  if negb (includes ALLOWED_FILE_TYPES (type file)) then
    Normal {| isValid := false;
              error := Some (js "Invalid file type. Allowed types: PDF, JPG, JPEG, PNG") |}
  else
    (* Check file extension as fallback *)
    match fileExtension (name file) with
    | Throw e => Throw e
    | Normal fileExtension =>
        if negb (includes ALLOWED_FILE_EXTENSIONS fileExtension) then
          Normal {| isValid := false;
                    error := Some (js "Invalid file extension. Allowed extensions: "
                                     ++ join (js ", ") ALLOWED_FILE_EXTENSIONS) |}
        else
          (* Check file size *)
          if (MAX_FILE_SIZE <? size file)%N then
            Normal {| isValid := false;
                      error := Some (js "File too large. Maximum size is "
                                       ++ formatFileSize MAX_FILE_SIZE) |}
          else Normal {| isValid := true; error := None |}
    end.

(** What [validateFiles] returns. *)
Record Report := {
  report_isValid : bool;
  validFiles : list File;
  errors : list jsstr
}.

(** One call of the [forEach] callback of [validateFiles], on the two
    arrays built so far. *)
Definition validate_each (acc : list File * list jsstr) (file : File)
  : completion (list File * list jsstr) :=
  match validateFile file with
  | Throw e => Throw e
  | Normal validation =>
      if isValid validation then Normal (fst acc ++ [file], snd acc)
      else
        Normal (fst acc,
                snd acc ++ [name file ++ js ": "
                              ++ match error validation with
                                 | Some text => text
                                 | None => js "null"
                                 end])
  end.

Fixpoint validate_forEach (acc : list File * list jsstr) (fileArray : list File)
  : completion (list File * list jsstr) :=
  match fileArray with
  | [] => Normal acc
  | file :: rest =>
      match validate_each acc file with
      | Normal acc' => validate_forEach acc' rest
      | Throw e => Throw e
      end
  end.

Definition validateFiles (files : list File) : completion Report :=
  match validate_forEach ([], []) files with
  | Throw e => Throw e
  | Normal (validFiles, errors) =>
      Normal {| report_isValid := (length errors =? 0)%nat;
                validFiles := validFiles;
                errors := errors |}
  end.

(** [buildImageUrl(filePath, baseUrl)]; a [filePath] of [None] is [null]
    or [undefined], and so is the result [None]. *)
Definition buildImageUrl (filePath : option jsstr) (baseUrl : jsstr)
  : option jsstr :=
  match filePath with
  | None => None
  | Some filePath =>
      if negb (str_truthy filePath) then None
      else
        let base := if endsWith baseUrl (js "/") then slice baseUrl 0 (Some (-1)%Z)
                    else baseUrl in
        let path := if startsWith filePath (js "/") then filePath
                    else js "/" ++ filePath in
        Some (base ++ path)
  end.

(** The class [[^\s@]]. *)
Definition not_space_or_at (c : N) : bool := negb (is_white c || (c =? 64)%N).

(** [/^[^\s@]+@[^\s@]+\.[^\s@]+$/]. *)
Definition emailRegex : regex :=
  RSeq (RPlus (RClass not_space_or_at))
    (RSeq (RClass (N.eqb 64))
       (RSeq (RPlus (RClass not_space_or_at))
          (RSeq (RClass (N.eqb 46))
             (RPlus (RClass not_space_or_at))))).

Definition isValidEmail (email : jsstr) : bool := test_anchored emailRegex email.

(** [truncateText(text, maxLength = 50)], for a whole number
    [maxLength]; a [text] of [None] is [null] or [undefined] and is
    returned as it is, like the empty string. *)
Definition truncateText (text : option jsstr) (maxLength : option Z)
  : option jsstr :=
  let maxLength := default 50%Z maxLength in
  match text with
  | None => None
  | Some s =>
      if negb (str_truthy s) || (Z.of_nat (length s) <=? maxLength)%Z then Some s
      else Some (substring s 0 maxLength ++ js "...")
  end.

(** [capitalize(str)]. *)
Definition capitalize (str : option jsstr) : jsstr :=
  match str with
  | None => js ""
  | Some s =>
      if negb (str_truthy s) then js ""
      else toUpperCase (charAt s 0) ++ slice s 1 None
  end.

(** [snakeToTitle(str)]. *)
Definition snakeToTitle (str : option jsstr) : jsstr :=
  match str with
  | None => js ""
  | Some s =>
      if negb (str_truthy s) then js ""
      else join (js " ") (List.map (fun word => capitalize (Some word)) (split 95 s))
  end.

(** *** [debounce]

    The timers of the browser as far as a debounced function uses them.
    The only callback it registers is its own [later], a closure over
    the arguments of the call, so a pending timer is its id, the time
    it is due at and those arguments. [func] acts on the state of the
    application: it is taken to return, and not to call the debounced
    function itself. *)
Section Debounce.
Context {A S : Type} (func : A -> S -> S) (wait : N).

Record Debounced := {
  now : N;                          (* the clock, in milliseconds *)
  next_id : N;                      (* the id [setTimeout] returns next *)
  pending : list (N * N * A);       (* the timers, oldest first *)
  timeout : option N;               (* the variable [timeout]; [None] is [undefined] *)
  app : S                           (* what [func] acts on *)
}.

(** [clearTimeout(id)]: no timer has the id [undefined]. *)
Definition clearTimeout (id : option N) (st : Debounced) : Debounced :=
  match id with
  | None => st
  | Some id =>
      {| now := now st; next_id := next_id st;
         pending := List.filter (fun t => negb (fst (fst t) =? id)%N) (pending st);
         timeout := timeout st; app := app st |}
  end.

(** [setTimeout(later, delay)], for the [later] of a call with [args]. *)
Definition setTimeout (args : A) (delay : N) (st : Debounced) : N * Debounced :=
  (next_id st,
   {| now := now st; next_id := next_id st + 1;
      pending := pending st ++ [(next_id st, (now st + delay)%N, args)];
      timeout := timeout st; app := app st |}).

(** The callback [later] of a call with [args]. *)
Definition later (args : A) (st : Debounced) : Debounced :=
  let st := clearTimeout (timeout st) st in
  {| now := now st; next_id := next_id st; pending := pending st;
     timeout := timeout st; app := func args (app st) |}.

(** [executedFunction(...args)], the function [debounce] returns. *)
Definition executedFunction (args : A) (st : Debounced) : Debounced :=
  let st := clearTimeout (timeout st) st in
  let '(id, st) := setTimeout args wait st in
  {| now := now st; next_id := next_id st; pending := pending st;
     timeout := Some id; app := app st |}.

(** The timer the event loop runs next once the clock shows [limit]:
    the one due first, the older of two due together. *)
Fixpoint next_due (limit : N) (timers : list (N * N * A)) : option (N * N * A) :=
  match timers with
  | [] => None
  | t :: rest =>
      match next_due limit rest with
      | Some t' =>
          if (snd (fst t) <=? limit)%N && (snd (fst t) <=? snd (fst t'))%N
          then Some t else Some t'
      | None => if (snd (fst t) <=? limit)%N then Some t else None
      end
  end.

(** What happens to a debounced function, one thing at a time: it is
    called, and runs to its end; time passes; the event loop takes up a
    timer task. When the event loop takes up the task of a timer that is
    due is up to the browser: calls made in one go have no task between
    them, however late it is. *)
Inductive Event :=
| Call (args : A)
| Elapse (ms : N)
| Task.

(** [ms] milliseconds pass: nothing runs. *)
Definition tick (ms : N) (st : Debounced) : Debounced :=
  {| now := (now st + ms)%N; next_id := next_id st; pending := pending st;
     timeout := timeout st; app := app st |}.

(** The event loop takes up a timer task: the timer due first is removed
    from the table and its callback runs. No timer runs before it is
    due. *)
Definition timer_task (st : Debounced) : Debounced :=
  match next_due (now st) (pending st) with
  | None => st
  | Some t => later (snd t) (clearTimeout (Some (fst (fst t))) st)
  end.

Definition step (st : Debounced) (e : Event) : Debounced :=
  match e with
  | Call args => executedFunction args st
  | Elapse ms => tick ms st
  | Task => timer_task st
  end.

(** The events of a schedule, in order. *)
Definition run (schedule : list Event) (st : Debounced) : Debounced :=
  fold_left step schedule st.

End Debounce.

Arguments Event : clear implicits.
Arguments Call {A} args.
Arguments Elapse {A} ms.
Arguments Task {A}.

End Utils.

(* ===================================================================== *)
(** ** [components/UploadPage.jsx]: file selection *)
(* ===================================================================== *)

Module UploadPage.
Import Constants.

(** One turn of the [for (const file of fileList)] loop of
    [validateFiles], on the [errors] array built so far. *)
Definition validate_file (errors : list jsstr) (file : File)
  : completion (list jsstr) :=
  (* Check file type *)
  let errors :=
    if negb (includes ALLOWED_FILE_TYPES (type file)) then
      errors ++ [name file ++ js ": Invalid file type. Allowed types: PDF, JPG, JPEG, PNG"]
    else errors in
  (* Also check file extension as a fallback *)
  match fileExtension (name file) with
  | Throw e => Throw e
  | Normal fileExtension =>
      let errors :=
        if negb (includes ALLOWED_FILE_EXTENSIONS fileExtension) then
          errors ++ [name file ++ js ": Invalid file extension. Allowed extensions: "
                       ++ join (js ", ") ALLOWED_FILE_EXTENSIONS]
        else errors in
      (* Check file size *)
      let errors :=
        if (MAX_FILE_SIZE <? size file)%N then
          errors ++ [name file ++ js ": File too large. Maximum size is 10MB"]
        else errors in
      Normal errors
  end.

Fixpoint validate_loop (errors : list jsstr) (fileList : list File)
  : completion (list jsstr) :=
  match fileList with
  | [] => Normal errors
  | file :: rest =>
      match validate_file errors file with
      | Normal errors' => validate_loop errors' rest
      | Throw e => Throw e
      end
  end.

Definition validateFiles (fileList : list File) : completion (list jsstr) :=
  validate_loop [] fileList.

(** The state of the component that file selection touches.
    [fileInputRef] is the value of the file input the ref points to, or
    [None] while the ref is not attached. *)
Record State := {
  files : list File;
  category : jsstr;
  loading : bool;
  error : option jsstr;
  success : option jsstr;
  fileInputRef : option jsstr
}.

Definition initial : State :=
  {| files := []; category := js "attendance_sheet"; loading := false;
     error := None; success := None; fileInputRef := Some [] |}.

(** [onFilesChange(e)], on [e.target.files] ([None] when it is null). *)
Definition onFilesChange (e_target_files : option (list File)) (st : State)
  : completion State :=
  let selectedFiles := default [] e_target_files in
  match validateFiles selectedFiles with
  | Throw e => Throw e
  | Normal validationErrors =>
      if (0 <? length validationErrors)%nat then
        Normal {| files := [];
                  category := category st;
                  loading := loading st;
                  error := Some (join [10%N] validationErrors);
                  success := success st;
                  fileInputRef :=
                    match fileInputRef st with
                    | Some _ => Some []
                    | None => None
                    end |}
      else
        Normal {| files := selectedFiles;
                  category := category st;
                  loading := loading st;
                  error := None;
                  success := success st;
                  fileInputRef := fileInputRef st |}
  end.

End UploadPage.

(* ===================================================================== *)
(** ** The browser: fetch, localStorage, and the monad of handlers *)
(* ===================================================================== *)

Module Web.

(** The second argument of [fetch], by the three properties the program
    sets. [headers] is a plain object used as a map. *)
Record Options := {
  method : option jsstr;
  headers : option (gmap string jsstr);
  body : option jsstr
}.

Definition no_options : Options :=
  {| method := None; headers := None; body := None |}.

(** A [Response], by what the program reads of it; [json_body] is what
    the promise of [response.json()] settles to. *)
Record Response := {
  status : N;
  statusText : jsstr;
  json_body : completion json
}.

(** [response.ok]. *)
Definition ok (r : Response) : bool :=
  ((200 <=? status r) && (status r <=? 299))%N.

(** What the promise of [fetch] settles to: a response of any status, or
    a rejection when the request could not be made. *)
Inductive fetch_result :=
| Responded (r : Response)
| Rejected (e : exn).

(** One outbound call, as recorded when it is made. *)
Record Call := {
  call_url : jsstr;
  call_options : Options;
  call_result : fetch_result
}.

(** What the program is run against: the backend as a state machine
    over requests, the platform's [JSON.stringify], and the build-time
    setting [import.meta.env.VITE_API_BASE]. *)
Record Env (B : Type) := {
  serve : B -> jsstr -> Options -> fetch_result * B;
  JSON_stringify : json -> jsstr;
  VITE_API_BASE : option jsstr
}.
Arguments serve {B} _ _ _ _.
Arguments JSON_stringify {B} _ _.
Arguments VITE_API_BASE {B} _.

(** The state shared by every handler: [localStorage], the backend, the
    outbound calls made so far (oldest first), and the URL last assigned
    to [window.location.href]. *)
Record World (B : Type) := {
  storage : gmap string jsstr;
  backend : B;
  trace : list Call;
  location : option jsstr
}.
Arguments storage {B} _.
Arguments backend {B} _.
Arguments trace {B} _.
Arguments location {B} _.

(** Handlers run to completion one [await] after the other: a
    computation takes the state and gives its completion and the state
    it leaves, also when it throws. *)
Definition M (S A : Type) : Type := S -> completion A * S.

Definition ret {S A} (a : A) : M S A := fun s => (Normal a, s).

Definition throw {S A} (e : exn) : M S A := fun s => (Throw e, s).

Definition lift {S A} (c : completion A) : M S A := fun s => (c, s).

Definition bind {S A A'} (m : M S A) (k : A -> M S A') : M S A' :=
  fun s =>
    match m s with
    | (Normal a, s') => k a s'
    | (Throw e, s') => (Throw e, s')
    end.

(** [try { m } catch (e) { handler e }]. *)
Definition try_catch {S A} (m : M S A) (handler : exn -> M S A) : M S A :=
  fun s =>
    match m s with
    | (Normal a, s') => (Normal a, s')
    | (Throw e, s') => handler e s'
    end.

(** [try { m } finally { cleanup }]. *)
Definition try_finally {S A} (m : M S A) (cleanup : M S unit) : M S A :=
  fun s =>
    match m s with
    | (r, s') =>
        match cleanup s' with
        | (Normal _, s'') => (r, s'')
        | (Throw e, s'') => (Throw e, s'')
        end
    end.

Definition modify {S} (f : S -> S) : M S unit := fun s => (Normal tt, f s).

Definition gets {S A} (f : S -> A) : M S A := fun s => (Normal (f s), s).

Declare Scope js_scope.
Delimit Scope js_scope with js.
Notation "x <- m ;; k" := (bind m (fun x => k))
  (at level 100, m at next level, right associativity) : js_scope.
Notation "m ;; k" := (bind m (fun _ => k))
  (at level 100, right associativity) : js_scope.

Section Platform.
Context {B : Type} (env : Env B).

(** [localStorage.getItem], [setItem], [removeItem]. *)
Definition getItem (key : string) : M (World B) (option jsstr) :=
  gets (fun w => storage w !! key).

Definition setItem (key : string) (value : jsstr) : M (World B) unit :=
  modify (fun w =>
    {| storage := <[key := value]> (storage w); backend := backend w;
       trace := trace w; location := location w |}).

Definition removeItem (key : string) : M (World B) unit :=
  modify (fun w =>
    {| storage := delete key (storage w); backend := backend w;
       trace := trace w; location := location w |}).

(** [window.location.href = url]. *)
Definition set_location (url : jsstr) : M (World B) unit :=
  modify (fun w =>
    {| storage := storage w; backend := backend w;
       trace := trace w; location := Some url |}).

(** The backend serves a request: the call is recorded with what it
    settled to. *)
Definition served (w : World B) (url : jsstr) (options : Options)
  : fetch_result * World B :=
  let '(result, b') := serve env (backend w) url options in
  (result,
   {| storage := storage w; backend := b';
      trace := trace w ++ [{| call_url := url; call_options := options;
                              call_result := result |}];
      location := location w |}).

(** [await fetch(url, options)]. *)
Definition fetch (url : jsstr) (options : Options) : M (World B) Response :=
  fun w =>
    match served w url options with
    | (Responded r, w') => (Normal r, w')
    | (Rejected e, w') => (Throw e, w')
    end.

(** [import.meta.env.VITE_API_BASE || "http://localhost:8000"]. *)
Definition API_BASE : jsstr :=
  match VITE_API_BASE env with
  | Some base => if str_truthy base then base else js "http://localhost:8000"
  | None => js "http://localhost:8000"
  end.

End Platform.

(** A mounted view: the state of the component, the world, the paths
    passed to [navigate] so far (oldest first), and the pending timers,
    each the delay in milliseconds and the path its callback navigates
    to. *)
Record Page (B U : Type) := {
  ui : U;
  world : World B;
  navigations : list jsstr;
  timers : list (N * jsstr)
}.
Arguments ui {B U} _.
Arguments world {B U} _.
Arguments navigations {B U} _.
Arguments timers {B U} _.

Section Views.
Context {B U : Type}.

(** A computation on the world, run inside a view. *)
Definition in_world {A} (m : M (World B) A) : M (Page B U) A :=
  fun p =>
    let '(r, w') := m (world p) in
    (r, {| ui := ui p; world := w';
           navigations := navigations p; timers := timers p |}).

(** A state setter of the component. *)
Definition set_state (f : U -> U) : M (Page B U) unit :=
  modify (fun p =>
    {| ui := f (ui p); world := world p;
       navigations := navigations p; timers := timers p |}).

(** [navigate(path)]. *)
Definition navigate (path : jsstr) : M (Page B U) unit :=
  modify (fun p =>
    {| ui := ui p; world := world p;
       navigations := navigations p ++ [path]; timers := timers p |}).

(** [setTimeout(() => { navigate(path); }, delay)]. *)
Definition setTimeout_navigate (path : jsstr) (delay : N) : M (Page B U) unit :=
  modify (fun p =>
    {| ui := ui p; world := world p;
       navigations := navigations p; timers := timers p ++ [(delay, path)] |}).

End Views.

End Web.

Import Web.
Open Scope js_scope.

(* ===================================================================== *)
(** ** [lib/auth.js] *)
(* ===================================================================== *)

(** The later of the two variants of the module, the one the views of
    [upay_updated] import: it stores under the keys [access], [refresh]
    and [authUser], and refuses to send a request without a token. *)

Module Auth.

(* Standardized token key names *)
Definition ACCESS_TOKEN_KEY : string := "access".
Definition REFRESH_TOKEN_KEY : string := "refresh".
Definition AUTH_USER_KEY : string := "authUser".

(** A value read from storage used as a condition: [null] and the empty
    string are falsy. *)
Definition item_truthy (item : option jsstr) : bool :=
  match item with
  | Some s => str_truthy s
  | None => false
  end.

Section Auth.
Context {B : Type} (env : Env B).

(* Read tokens *)
Definition getAccessToken : M (World B) (option jsstr) :=
  getItem ACCESS_TOKEN_KEY.

Definition getRefreshToken : M (World B) (option jsstr) :=
  getItem REFRESH_TOKEN_KEY.

(** The result is the parsed value, [JNull] standing for [null]. *)
Definition getAuthUser : M (World B) json :=
  user <- getItem AUTH_USER_KEY ;;
  match user with
  | Some text => if str_truthy text then lift (JSON_parse text) else ret JNull
  | None => ret JNull
  end.

(* Save tokens *)
Definition saveTokens (access refresh user : jsval) : M (World B) unit :=
  (if val_truthy access
   then setItem ACCESS_TOKEN_KEY (val_ToString access) else ret tt) ;;
  (if val_truthy refresh
   then setItem REFRESH_TOKEN_KEY (val_ToString refresh) else ret tt) ;;
  match user with
  | Some u =>
      if truthy u then setItem AUTH_USER_KEY (JSON_stringify env u) else ret tt
  | None => ret tt
  end.

(* Delete tokens (logout) *)
Definition clearTokens : M (World B) unit :=
  removeItem ACCESS_TOKEN_KEY ;;
  removeItem REFRESH_TOKEN_KEY ;;
  removeItem AUTH_USER_KEY.

(* Check if user is authenticated *)
Definition isAuthenticated : M (World B) bool :=
  access <- getAccessToken ;;
  ret (item_truthy access).

Definition refresh_options (refresh : jsstr) : Options :=
  {| method := Some (js "POST");
     headers := Some {[ "Content-Type" := js "application/json" ]};
     body := Some (JSON_stringify env (JObj {[ js "refresh" := JStr refresh ]})) |}.

Definition refresh_url : jsstr := API_BASE env ++ js "/api/token/refresh/".

(* Refresh token flow *)
Definition refreshAccessToken : M (World B) jsval :=
  item <- getRefreshToken ;;
  match item with
  | None => ret (Some JNull)
  | Some refresh =>
      if negb (str_truthy refresh) then ret (Some JNull)
      else
        try_catch
          (res <- fetch env refresh_url (refresh_options refresh) ;;
           if negb (ok res) then
             clearTokens ;; ret (Some JNull)
           else
             data <- lift (json_body res) ;;
             access <- lift (get_prop data "access") ;;
             if val_truthy access then
               new_refresh <- lift (get_prop data "refresh") ;;
               saveTokens access (or_else new_refresh (Some (JStr refresh))) None ;;
               ret access
             else ret (Some JNull))
          (fun error => clearTokens ;; ret (Some JNull))
  end.

(** The options of the request as sent: the caller's, with the bearer
    header written over its headers. *)
Definition with_bearer (options : Options) (token : jsstr) : Options :=
  {| method := method options;
     headers := Some (<["Authorization" := js "Bearer " ++ token]>
                        (default ∅ (headers options)));
     body := body options |}.

(* Centralized authenticated fetch wrapper *)
Definition fetchWithAuth (url : jsstr) (options : Options) : M (World B) Response :=
  item <- getAccessToken ;;
  match item with
  | None => throw (Error (js "No authentication token available"))
  | Some access =>
      if negb (str_truthy access) then
        throw (Error (js "No authentication token available"))
      else
        let opts := with_bearer options access in
        res <- fetch env url opts ;;
        (* If token expired, try to refresh and retry once *)
        if (status res =? 401)%N then
          newAccess <- refreshAccessToken ;;
          if negb (val_truthy newAccess) then
            (* Refresh failed, redirect to login *)
            set_location (js "/login") ;;
            throw (Error (js "Authentication failed"))
          else
            (* Retry request with new token *)
            fetch env url (with_bearer opts (val_ToString newAccess))
        else ret res
  end.

(* Helper to handle API errors consistently *)
Definition handleApiResponse (response : Response) : M (World B) json :=
  if negb (ok response) then
    error <- try_catch (lift (json_body response))
               (fun _ => ret (JObj {[ js "detail" :=
                   JStr (js "HTTP " ++ decimal (status response) ++ js ": "
                           ++ statusText response) ]})) ;;
    detail <- lift (get_prop error "detail") ;;
    message <- lift (get_prop error "message") ;;
    throw (Error (val_ToString
                    (or_else detail
                       (or_else message (Some (JStr (js "API request failed")))))))
  else lift (json_body response).

End Auth.

End Auth.

(* ===================================================================== *)
(** ** [components/ReviewPage.jsx] *)
(* ===================================================================== *)

Module ReviewPage.

(** An extracted field as the view holds it after normalisation. The
    name, the value and the validation status are text (the schema
    declares them as character columns). *)
Record Field := {
  id : json;
  field_name : jsstr;
  field_value : jsstr;
  confidence_score : json;
  validation_status : jsstr
}.

Record Message := { msg_type : jsstr; text : jsstr }.

(** The state of the component; [doc] is [JNull] until a document is
    loaded. *)
Record State := {
  loading : bool;
  doc : json;
  fields : list Field;
  message : option Message;
  error : option jsstr
}.

(** [f.validation_status !== 'passed'] and [!f.field_value]. *)
Definition not_passed (f : Field) : bool :=
  negb (str_eqb (validation_status f) (js "passed")).

Definition no_value (f : Field) : bool := negb (str_truthy (field_value f)).

(** The two counts shown above the list. *)
Definition failedFields (fields : list Field) : nat :=
  length (List.filter not_passed fields).

Definition missingFields (fields : list Field) : nat :=
  length (List.filter
            (fun f => no_value f || str_eqb (trim (field_value f)) (js ""))
            fields).

(** The interpolated part of the three [className]s of a field's row:
    the row itself, its label, its input. *)
Definition rowClass (f : Field) : jsstr :=
  if not_passed f then js "bg-red-50 ring-1 ring-red-200"
  else if no_value f then js "bg-yellow-50 ring-1 ring-yellow-200"
  else js "".

Definition labelClass (f : Field) : jsstr :=
  if not_passed f then js "text-red-700"
  else if no_value f then js "text-yellow-700"
  else js "text-gray-700".

Definition inputClass (f : Field) : jsstr :=
  if not_passed f then js "border-red-300 focus:ring-red-500 focus:border-red-500"
  else if no_value f
       then js "border-yellow-300 focus:ring-yellow-500 focus:border-yellow-500"
  else js "border-gray-300 focus:ring-indigo-500 focus:border-indigo-500".

Section Handlers.
Context {B : Type} (env : Env B).

Definition setMessage (m : option Message) : M (Page B State) unit :=
  set_state (fun st =>
    {| loading := loading st; doc := doc st; fields := fields st;
       message := m; error := error st |}).

Definition setError (e : option jsstr) : M (Page B State) unit :=
  set_state (fun st =>
    {| loading := loading st; doc := doc st; fields := fields st;
       message := message st; error := e |}).

Definition finalize_url (doc_id : jsval) : jsstr :=
  API_BASE env ++ js "/api/documents/" ++ val_ToString doc_id ++ js "/finalize/".

Definition document_url (doc_id : jsval) : jsstr :=
  API_BASE env ++ js "/api/documents/" ++ val_ToString doc_id ++ js "/".

Definition finalize_options : Options :=
  {| method := Some (js "POST"); headers := None; body := None |}.

Definition approve_options : Options :=
  {| method := Some (js "PATCH");
     headers := Some {[ "Content-Type" := js "application/json" ]};
     body := Some (JSON_stringify env (JObj {[ js "status" := JStr (js "approved") ]})) |}.

Definition acceptAndFinalize : M (Page B State) unit :=
  st <- gets ui ;;
  if negb (truthy (doc st)) then ret tt
  else
    setMessage (Some {| msg_type := js "info"; text := js "Finalizing..." |}) ;;
    setError None ;;
    try_catch
      ((* Try dedicated finalize endpoint first *)
       res <- try_catch
                (doc_id <- lift (get_prop (doc st) "id") ;;
                 in_world (Auth.fetchWithAuth env (finalize_url doc_id)
                             finalize_options))
                (fun finalizeErr =>
                   (* Fallback: patch status to 'approved' *)
                   doc_id <- lift (get_prop (doc st) "id") ;;
                   in_world (Auth.fetchWithAuth env (document_url doc_id)
                               approve_options)) ;;
       in_world (Auth.handleApiResponse res) ;;
       setMessage (Some {| msg_type := js "success";
                           text := js "Document finalized successfully! Redirecting to document list..." |}) ;;
       (* Navigate to bulk review list after brief delay to show success message *)
       setTimeout_navigate (js "/bulk-review") 2000)
      (fun err =>
         setError (Some (if str_truthy (exn_message err) then exn_message err
                         else js "Failed to finalize document")) ;;
         setMessage None).

(** The view's own [buildImageUrl(filePath)], against [API_BASE]. *)
Definition buildImageUrl (filePath : option jsstr) : option jsstr :=
  match filePath with
  | None => None
  | Some filePath =>
      if negb (str_truthy filePath) then None
      else
        (* Construct proper URL *)
        let baseUrl := if endsWith (API_BASE env) (js "/")
                       then slice (API_BASE env) 0 (Some (-1)%Z)
                       else API_BASE env in
        let path := if startsWith filePath (js "/") then filePath
                    else js "/" ++ filePath in
        Some (baseUrl ++ path)
  end.

End Handlers.

End ReviewPage.

(* ===================================================================== *)
(** ** [components/LoginPage.jsx] *)
(* ===================================================================== *)

Module LoginPage.

(** The state of the component; [error] is [None] for [null] and else
    the value passed to [setError]. *)
Record State := {
  username : jsstr;
  password : jsstr;
  selectedPortal : jsstr;
  loading : bool;
  error : option json
}.

Definition initial : State :=
  {| username := []; password := []; selectedPortal := js "user";
     loading := false; error := None |}.

(* Form validation *)
Definition isFormValid (st : State) : bool :=
  (0 <? length (trim (username st)))%nat && (0 <? length (password st))%nat.

(** [profile?.role === 'admin' || profile?.is_staff === true ||
    profile?.is_superuser === true]. *)
Definition isAdminAccount (profile : json) : bool :=
  val_is_str (opt_prop profile "role") (js "admin")
  || val_is_true (opt_prop profile "is_staff")
  || val_is_true (opt_prop profile "is_superuser").

Definition not_admin_message : jsstr :=
  js "Your account is not an admin. Please sign in to the user portal or use an admin account.".

Definition admin_portal_message : jsstr :=
  js "Admin accounts must sign in via the Admin portal. Please select "
  ++ [34%N] ++ js "Admin" ++ [34%N] ++ js " and sign in.".

Section Handlers.
Context {B : Type} (env : Env B).

Definition setLoading (b : bool) : M (Page B State) unit :=
  set_state (fun st =>
    {| username := username st; password := password st;
       selectedPortal := selectedPortal st; loading := b; error := error st |}).

Definition setError (e : option json) : M (Page B State) unit :=
  set_state (fun st =>
    {| username := username st; password := password st;
       selectedPortal := selectedPortal st; loading := loading st; error := e |}).

Definition token_url : jsstr := API_BASE env ++ js "/api/token/".

Definition profile_url : jsstr := API_BASE env ++ js "/api/profile/".

Definition token_options (st : State) : Options :=
  {| method := Some (js "POST");
     headers := Some {[ "Content-Type" := js "application/json" ]};
     body := Some (JSON_stringify env
                     (JObj (<[ js "username" := JStr (username st) ]>
                              {[ js "password" := JStr (password st) ]}))) |}.

(** [res.ok && data.access && data.refresh] as a condition. *)
Definition tokens_issued (res : Response) (data : json) : completion bool :=
  if ok res then
    match get_prop data "access" with
    | Throw e => Throw e
    | Normal access =>
        if val_truthy access then
          match get_prop data "refresh" with
          | Throw e => Throw e
          | Normal refresh => Normal (val_truthy refresh)
          end
        else Normal false
    end
  else Normal false.

Definition onSubmit : M (Page B State) unit :=
  st <- gets ui ;;
  if negb (isFormValid st) then
    setError (Some (JStr (js "Please enter both username and password")))
  else
    setLoading true ;;
    setError None ;;
    try_finally
      (try_catch
         (res <- in_world (fetch env token_url (token_options st)) ;;
          data <- lift (json_body res) ;;
          issued <- lift (tokens_issued res data) ;;
          if issued then
            access <- lift (get_prop data "access") ;;
            refresh <- lift (get_prop data "refresh") ;;
            (* Save tokens first so fetchWithAuth can use them *)
            in_world (Auth.saveTokens env access refresh None) ;;
            (* Try to fetch full profile to determine role *)
            try_catch
              (profileRes <- in_world (Auth.fetchWithAuth env profile_url no_options) ;;
               profile <- in_world (Auth.handleApiResponse profileRes) ;;
               (* Save tokens and user profile in localStorage *)
               in_world (Auth.saveTokens env access refresh (Some profile)) ;;
               (* If user chose admin portal, require admin account *)
               if str_eqb (selectedPortal st) (js "admin") then
                 if negb (isAdminAccount profile) then
                   setError (Some (JStr not_admin_message))
                 else navigate (js "/admin/users")
               (* If user chose user portal, explicitly block admin accounts *)
               else if str_eqb (selectedPortal st) (js "user") then
                 if isAdminAccount profile then
                   setError (Some (JStr admin_portal_message))
                 else navigate (js "/home")
               else ret tt)
              (fun err =>
                 (* If profile fetch fails, fall back to home *)
                 in_world (Auth.saveTokens env access refresh
                             (Some (JObj {[ js "username" := JStr (username st) ]}))) ;;
                 navigate (js "/home"))
          else
            detail <- lift (get_prop data "detail") ;;
            setError (or_else detail
                        (Some (JStr (js "Invalid username or password")))))
         (fun err =>
            setError (Some (JStr (js "Network error. Please check your connection and try again.")))))
      (setLoading false).

(** The effect run when the view is mounted. *)
Definition on_mount : M (Page B State) unit :=
  (* Redirect if already authenticated *)
  authenticated <- in_world Auth.isAuthenticated ;;
  if authenticated then navigate (js "/home") else ret tt.

End Handlers.

End LoginPage.

(* ===================================================================== *)
(** ** [components/BulkReviewList.jsx] *)
(* ===================================================================== *)

Module BulkReviewList.

(** The state of the component; [docs] is whatever the listing gave. *)
Record State := {
  docs : json;
  loading : bool;
  error : option jsstr
}.

Definition initial : State :=
  {| docs := JArr []; loading := true; error := None |}.

(** [Array.isArray]. *)
Definition isArray (v : json) : bool :=
  match v with JArr _ => true | _ => false end.

Section Handlers.
Context {B : Type} (env : Env B).

Definition setDocs (d : json) : M (Page B State) unit :=
  set_state (fun st => {| docs := d; loading := loading st; error := error st |}).

Definition setLoading (b : bool) : M (Page B State) unit :=
  set_state (fun st => {| docs := docs st; loading := b; error := error st |}).

Definition setError (e : option jsstr) : M (Page B State) unit :=
  set_state (fun st => {| docs := docs st; loading := loading st; error := e |}).

Definition documents_url : jsstr := API_BASE env ++ js "/api/documents/".

(** The effect run when the view is mounted. Its clean-up sets the flag
    [cancelled]; the continuation of the two awaits reads the flag
    without yielding in between, so one run sees one value of it, here
    the argument: whether the view was unmounted before the listing
    arrived. *)
Definition on_mount (cancelled : bool) : M (Page B State) unit :=
  authenticated <- in_world Auth.isAuthenticated ;;
  if negb authenticated then navigate (js "/login")
  else
    try_finally
      (try_catch
         (res <- in_world (Auth.fetchWithAuth env documents_url no_options) ;;
          data <- in_world (Auth.handleApiResponse res) ;;
          if cancelled then ret tt
          else
            results <- lift (get_prop data "results") ;;
            match results with
            | Some listed =>
                if truthy listed then setDocs listed
                else if isArray data then setDocs data
                else setDocs (JArr [])
            | None =>
                if isArray data then setDocs data else setDocs (JArr [])
            end)
         (fun err =>
            if negb cancelled then
              setError (Some (if str_truthy (exn_message err) then exn_message err
                              else js "Failed to load documents"))
            else ret tt))
      (if negb cancelled then setLoading false else ret tt).

Definition handleLogout : M (Page B State) unit :=
  in_world Auth.clearTokens ;;
  navigate (js "/login").

End Handlers.

End BulkReviewList.

(* ===================================================================== *)
(** ** [components/ProfilePage.jsx] *)
(* ===================================================================== *)

Module ProfilePage.

(** The state of the component; [user] and [profileData] are [JNull]
    until they are set. *)
Record State := {
  user : json;
  profileData : json;
  loading : bool;
  error : option jsstr
}.

Definition initial : State :=
  {| user := JNull; profileData := JNull; loading := true; error := None |}.

Section Handlers.
Context {B : Type} (env : Env B).

Definition setUser (u : json) : M (Page B State) unit :=
  set_state (fun st =>
    {| user := u; profileData := profileData st;
       loading := loading st; error := error st |}).

Definition setProfileData (d : json) : M (Page B State) unit :=
  set_state (fun st =>
    {| user := user st; profileData := d;
       loading := loading st; error := error st |}).

Definition setLoading (b : bool) : M (Page B State) unit :=
  set_state (fun st =>
    {| user := user st; profileData := profileData st;
       loading := b; error := error st |}).

Definition profile_url : jsstr := API_BASE env ++ js "/api/profile/".

Definition fetchProfileData : M (Page B State) unit :=
  try_finally
    (try_catch
       (res <- in_world (Auth.fetchWithAuth env profile_url no_options) ;;
        data <- in_world (Auth.handleApiResponse res) ;;
        setProfileData data)
       (fun err =>
          (* Not a critical error - we can show basic info from localStorage *)
          ret tt))
    (setLoading false).

(** The effect run when the view is mounted. *)
Definition on_mount : M (Page B State) unit :=
  authenticated <- in_world Auth.isAuthenticated ;;
  if negb authenticated then navigate (js "/login")
  else
    authUser <- in_world Auth.getAuthUser ;;
    setUser authUser ;;
    (* Try to fetch additional profile data from backend *)
    fetchProfileData.

Definition handleLogout : M (Page B State) unit :=
  in_world Auth.clearTokens ;;
  navigate (js "/login").

End Handlers.

End ProfilePage.

(* ===================================================================== *)
(** ** [components/AdminUsers.jsx]: the route guard and the listing *)
(* ===================================================================== *)

Module AdminUsers.

Record Message := { msg_type : jsstr; text : jsstr }.

Record State := {
  username : jsstr;
  email : jsstr;
  role : jsstr;
  password : jsstr;
  message : option Message;
  loading : bool;
  users : json
}.

Definition initial : State :=
  {| username := []; email := []; role := js "employee"; password := [];
     message := None; loading := false; users := JArr [] |}.

(** [!authUser || (authUser.role !== 'admin' && !authUser.is_staff &&
    !authUser.is_superuser)]: the properties are read of a truthy value
    only, which is not [null]. *)
Definition not_admin (authUser : json) : bool :=
  negb (truthy authUser)
  || (negb (val_is_str (own_prop authUser "role") (js "admin"))
      && negb (val_truthy (own_prop authUser "is_staff"))
      && negb (val_truthy (own_prop authUser "is_superuser"))).

Section Handlers.
Context {B : Type} (env : Env B).

Definition setUsers (list : json) : M (Page B State) unit :=
  set_state (fun st =>
    {| username := username st; email := email st; role := role st;
       password := password st; message := message st;
       loading := loading st; users := list |}).

Definition users_url : jsstr := API_BASE env ++ js "/api/users/".

(* Fetch list of users for admin *)
Definition fetchUsers : M (Page B State) unit :=
  try_catch
    (res <- in_world (Auth.fetchWithAuth env users_url no_options) ;;
     data <- in_world (Auth.handleApiResponse res) ;;
     (* API may return paginated response {count, next, previous, results} *)
     match data with
     | JArr _ => setUsers data
     | _ =>
         results <- lift (get_prop data "results") ;;
         items <- lift (get_prop data "items") ;;
         match or_else results (or_else items (Some (JArr []))) with
         | Some list => setUsers list
         | None => ret tt
         end
     end)
    (fun err => ret tt).

(** The effect run when the view is mounted. *)
Definition on_mount : M (Page B State) unit :=
  (* Protect route on client side *)
  authenticated <- in_world Auth.isAuthenticated ;;
  if negb authenticated then in_world (set_location (js "/login"))
  else
    authUser <- in_world Auth.getAuthUser ;;
    (* Allow access if stored profile indicates admin role OR staff flag *)
    if not_admin authUser then in_world (set_location (js "/home"))
    else fetchUsers.

End Handlers.

End AdminUsers.

(* ===================================================================== *)
(** ** The earlier tree: [upaydash/src/lib/auth.js] and its login view *)
(* ===================================================================== *)

Module Legacy.

Module Auth.
Section Auth.
Context {B : Type} (env : Env B).

(* Read tokens *)
Definition getAccessToken : M (World B) (option jsstr) :=
  getItem "access_token".

Definition getRefreshToken : M (World B) (option jsstr) :=
  getItem "refresh_token".

(* Save tokens *)
Definition saveTokens (access refresh : jsval) : M (World B) unit :=
  (if val_truthy access
   then setItem "access_token" (val_ToString access) else ret tt) ;;
  (if val_truthy refresh
   then setItem "refresh_token" (val_ToString refresh) else ret tt).

(* Delete tokens (logout) *)
Definition clearTokens : M (World B) unit :=
  removeItem "access_token" ;;
  removeItem "refresh_token".

Definition refresh_options (refresh : jsstr) : Options :=
  {| method := Some (js "POST");
     headers := Some {[ "Content-Type" := js "application/json" ]};
     body := Some (JSON_stringify env (JObj {[ js "refresh" := JStr refresh ]})) |}.

Definition refresh_url : jsstr := API_BASE env ++ js "/api/token/refresh/".

(* Refresh token flow *)
Definition refreshAccessToken : M (World B) jsval :=
  item <- getRefreshToken ;;
  match item with
  | None => ret (Some JNull)
  | Some refresh =>
      if negb (str_truthy refresh) then ret (Some JNull)
      else
        try_catch
          (res <- fetch env refresh_url (refresh_options refresh) ;;
           if negb (ok res) then ret (Some JNull)
           else
             data <- lift (json_body res) ;;
             access <- lift (get_prop data "access") ;;
             if val_truthy access then
               new_refresh <- lift (get_prop data "refresh") ;;
               saveTokens access (or_else new_refresh (Some (JStr refresh))) ;;
               ret access
             else ret (Some JNull))
          (fun _ => ret (Some JNull))
  end.

(** The options of the request as sent: the caller's, with the
    [Authorization] header written over its headers. *)
Definition with_authorization (options : Options) (value : jsstr) : Options :=
  {| method := method options;
     headers := Some (<["Authorization" := value]> (default ∅ (headers options)));
     body := body options |}.

(* Wrapper fetch that auto-refreshes token. *)
Definition fetchWithAuth (url : jsstr) (options : Options) : M (World B) Response :=
  item <- getAccessToken ;;
  let opts :=
    with_authorization options
      (match item with
       | Some access => if str_truthy access then js "Bearer " ++ access else js ""
       | None => js ""
       end) in
  res <- fetch env url opts ;;
  (* If expired token -> try one refresh and retry once *)
  if (status res =? 401)%N then
    newAccess <- refreshAccessToken ;;
    if negb (val_truthy newAccess) then ret res
    else
      (* retry request with new token *)
      fetch env url (with_authorization opts (js "Bearer " ++ val_ToString newAccess))
  else ret res.

End Auth.
End Auth.

Module LoginPage.

Record State := {
  username : jsstr;
  password : jsstr;
  loading : bool;
  error : option json
}.

Section Handlers.
Context {B : Type} (env : Env B).

Definition setLoading (b : bool) : M (Page B State) unit :=
  set_state (fun st =>
    {| username := username st; password := password st;
       loading := b; error := error st |}).

Definition setError (e : option json) : M (Page B State) unit :=
  set_state (fun st =>
    {| username := username st; password := password st;
       loading := loading st; error := e |}).

Definition token_url : jsstr := API_BASE env ++ js "/api/token/".

Definition token_options (st : State) : Options :=
  {| method := Some (js "POST");
     headers := Some {[ "Content-Type" := js "application/json" ]};
     body := Some (JSON_stringify env
                     (JObj (<[ js "username" := JStr (username st) ]>
                              {[ js "password" := JStr (password st) ]}))) |}.

(** [res.ok && data.access && data.refresh] as a condition. *)
Definition tokens_issued (res : Response) (data : json) : completion bool :=
  if ok res then
    match get_prop data "access" with
    | Throw e => Throw e
    | Normal access =>
        if val_truthy access then
          match get_prop data "refresh" with
          | Throw e => Throw e
          | Normal refresh => Normal (val_truthy refresh)
          end
        else Normal false
    end
  else Normal false.

Definition onSubmit : M (Page B State) unit :=
  st <- gets ui ;;
  setLoading true ;;
  setError None ;;
  try_finally
    (try_catch
       (res <- in_world (fetch env token_url (token_options st)) ;;
        data <- lift (json_body res) ;;
        issued <- lift (tokens_issued res data) ;;
        if issued then
          access <- lift (get_prop data "access") ;;
          refresh <- lift (get_prop data "refresh") ;;
          in_world (setItem "access" (val_ToString access)) ;;
          in_world (setItem "refresh" (val_ToString refresh)) ;;
          (* optionally store minimal user info *)
          in_world (setItem "authUser"
                      (JSON_stringify env
                         (JObj {[ js "username" := JStr (username st) ]}))) ;;
          navigate (js "/home")
        else
          detail <- lift (get_prop data "detail") ;;
          setError (or_else detail (Some (JStr (js "Login failed")))))
       (fun err => setError (Some (JStr (js "Network error")))))
    (setLoading false).

End Handlers.
End LoginPage.

End Legacy.

(* ===================================================================== *)
(** ** [api/models.py]: the attendance table *)
(* ===================================================================== *)

Module Models.

(** A value stored in a column. *)
Inductive Value :=
| VNull
| VInt (z : Z)
| VBool (b : bool)
| VText (s : string)
| VDate (year month day : N).

Global Instance Value_eq_dec : EqDecision Value.
Proof. solve_decision. Defined.

(** The columns every model inherits from [BaseModel]. The three user
    references are nullable foreign keys, the timestamps are kept as
    numbers of seconds. *)
Record BaseModel := {
  created_by : option Z;
  updated_by : option Z;
  deleted_by : option Z;
  created_at : Z;
  updated_at : Z;
  deleted_at : option Z;
  is_deleted : bool
}.

(** A row of [Attendance]: the primary key Django adds, the inherited
    columns, and the four declared fields. The foreign keys hold the
    primary key of the row they refer to. *)
Record Attendance := {
  id : Z;
  base : BaseModel;
  student : Z;
  center : Z;
  date : N * N * N;
  status : string
}.

Definition STATUS_CHOICES : list (string * string) :=
  [("present", "Present"); ("absent", "Absent"); ("excused", "Excused")].

(** [class Meta: unique_together = ('student', 'date')]. *)
Definition unique_together : list string := ["student"; "date"].

(** The column of a row by the name of its field. *)
Definition column (r : Attendance) (field : string) : Value :=
  if String.eqb field "id" then VInt (id r)
  else if String.eqb field "student" then VInt (student r)
  else if String.eqb field "center" then VInt (center r)
  else if String.eqb field "date" then
    let '(y, m, d) := date r in VDate y m d
  else if String.eqb field "status" then VText (status r)
  else if String.eqb field "is_deleted" then VBool (is_deleted (base r))
  else VNull.

(** The sources declare the schema and nothing that writes to it: the
    layer that persists the records is not part of them. What follows
    of this module is modelled from the specification. *)

(** Modelled from the spec: the uniqueness constraints the persistence
    layer (absent from the sources) enforces on the table, that is the
    primary key and the pair the schema declares ("Attendance: one
    record per (student, date) pair (uniqueness enforced)"). *)
Definition constraints : list (list string) := [["id"]; unique_together].

(** Modelled from the spec: what the absent persistence layer compares,
    two records agreeing on every column of a constraint, none of them
    null ("the same (student, date) pair"). *)
Definition same_key (fields : list string) (r r' : Attendance) : bool :=
  forallb (fun f => bool_decide (column r f = column r' f)
                    && negb (bool_decide (column r f = VNull))) fields.

(** Modelled from the spec: two records of which the absent persistence
    layer stores one at most, as they agree on a uniqueness
    constraint. *)
Definition conflict (r r' : Attendance) : bool :=
  existsb (fun fields => same_key fields r r') constraints.

(** Modelled from the spec: the refusal of a write by the absent
    persistence layer ("violates the uniqueness invariant"). *)
Inductive DbError := IntegrityError.

(** Modelled from the spec: the write of one record by the absent
    persistence layer ("attempting to persist two Attendance records
    for the same (student, date) pair violates the uniqueness
    invariant"). The record is told from the others by its primary key:
    a record already stored is rewritten in place (a "write", which is
    also how a record is flagged as deleted, "deletion is a flagged
    state transition"), a new one is added. Either write is refused when
    the record conflicts with another stored record, and then the table
    stays as it was. *)
Definition persist (r : Attendance) (table : list Attendance)
  : DbError + list Attendance :=
  let others := List.filter (fun r' => negb (Z.eqb (id r') (id r))) table in
  if existsb (conflict r) others then inl IntegrityError
  else if existsb (fun r' => Z.eqb (id r') (id r)) table
       then inr (List.map (fun r' => if Z.eqb (id r') (id r) then r else r') table)
       else inr (table ++ [r]).

(** Modelled from the spec: the removal, by the absent persistence
    layer, of the records of a student that is removed
    ("Attendance→student ... cascade-delete with their parent"; the
    schema declares [on_delete=models.CASCADE]). *)
Definition cascade_student (pk : Z) (table : list Attendance) : list Attendance :=
  List.filter (fun r' => negb (Z.eqb (student r') pk)) table.

(** Modelled from the spec: the same for the records of a center that
    is removed, as the schema declares [on_delete=models.CASCADE] for
    the center too. *)
Definition cascade_center (pk : Z) (table : list Attendance) : list Attendance :=
  List.filter (fun r' => negb (Z.eqb (center r') pk)) table.

(** Modelled from the spec: the tables the absent persistence layer can
    hold, the empty one and those reached from it by writes that were
    not refused and by cascades. *)
Inductive reachable : list Attendance -> Prop :=
| reach_empty : reachable []
| reach_persist r t t' : reachable t -> persist r t = inr t' -> reachable t'
| reach_cascade_student pk t : reachable t -> reachable (cascade_student pk t)
| reach_cascade_center pk t : reachable t -> reachable (cascade_center pk t).

End Models.

(* ===================================================================== *)
(** ** Vocabulary of the statements *)
(* ===================================================================== *)

(** Not part of the sources: the notions the properties below are stated
    with, each defined from the embedding above. *)

Module Vocabulary.

(** The messages of the rules a file violates, in the order the inline
    validator checks them. *)
Definition violations (file : File) : list jsstr :=
  match fileExtension (name file) with
  | Normal ext =>
      (if negb (includes Constants.ALLOWED_FILE_TYPES (type file))
       then [name file ++ js ": Invalid file type. Allowed types: PDF, JPG, JPEG, PNG"]
       else [])
      ++ (if negb (includes Constants.ALLOWED_FILE_EXTENSIONS ext)
          then [name file ++ js ": Invalid file extension. Allowed extensions: "
                  ++ join (js ", ") Constants.ALLOWED_FILE_EXTENSIONS]
          else [])
      ++ (if (Constants.MAX_FILE_SIZE <? size file)%N
          then [name file ++ js ": File too large. Maximum size is 10MB"]
          else [])
  | Throw _ => []
  end.

(** What a call settled to, as the completion of [await fetch(...)]. *)
Definition settled (c : Call) : completion Response :=
  match call_result c with
  | Responded r => Normal r
  | Rejected e => Throw e
  end.

(** The call [c] is the request [url], [options]. *)
Definition sent (c : Call) (url : jsstr) (options : Options) : Prop :=
  call_url c = url /\ call_options c = options.

(** The call carries an [Authorization] header, as every request sent
    through the authenticated wrapper does and the refresh POST does
    not. *)
Definition carries_bearer (c : Call) : bool :=
  match headers (call_options c) with
  | Some h => bool_decide (is_Some (h !! "Authorization"))
  | None => false
  end.

Section Session.
Context {B : Type} (env : Env B).

(** The refresh POST failed: it was not answered, or was answered with
    a status outside 200-299. *)
Definition post_failed (result : fetch_result) : Prop :=
  match result with
  | Rejected _ => True
  | Responded res => ok res = false
  end.

(** None of the three values is stored. *)
Definition session_cleared (w : World B) : Prop :=
  storage w !! Auth.ACCESS_TOKEN_KEY = None
  /\ storage w !! Auth.REFRESH_TOKEN_KEY = None
  /\ storage w !! Auth.AUTH_USER_KEY = None.

(** The call [c] is the refresh POST. *)
Definition refresh_post (c : Call) : Prop :=
  exists refresh, sent c (Auth.refresh_url env) (Auth.refresh_options env refresh).

(** What one run of [refreshAccessToken] does, from the world [w] to
    [w'] with the result [r] and the calls [posts]: nothing when there
    is no refresh token to send; else one refresh POST, after which a
    truthy result is the access token now stored, and a failed POST
    leaves the session cleared. *)
Definition refresh_attempt (w : World B) (r : jsval) (w' : World B)
    (posts : list Call) : Prop :=
  (posts = [] /\ r = Some JNull /\ w' = w)
  \/ (exists post,
        posts = [post] /\ refresh_post post
        /\ (val_truthy r = false -> r = Some JNull)
        /\ (val_truthy r = true ->
              (exists res, call_result post = Responded res /\ ok res = true)
              /\ storage w' !! Auth.ACCESS_TOKEN_KEY = Some (val_ToString r))
        /\ (post_failed (call_result post) -> session_cleared w')).

End Session.

(** No two rows of the table conflict. *)
Definition consistent (table : list Models.Attendance) : Prop :=
  ForallOrdPairs (fun r r' => Models.conflict r r' = false) table.

(** The file breaks none of the three rules. *)
Definition acceptable (file : File) : bool := bool_decide (violations file = []).

(** The computation [m] leaves the observation [obs] of the state as it
    found it, however it completes. *)
Definition preserves {S A X} (obs : S -> X) (m : M S A) : Prop :=
  forall s, obs (snd (m s)) = obs s.

(** The computation [m] completes normally, whatever the state. *)
Definition never_throws {S A} (m : M S A) : Prop :=
  forall s, exists a, fst (m s) = Normal a.

(** What is stored under [key]. *)
Definition at_key {B} (key : string) (w : World B) : option jsstr :=
  storage w !! key.

(** [key] is none of the three keys of the session manager. *)
Definition other_key (key : string) : Prop :=
  key <> Auth.ACCESS_TOKEN_KEY /\ key <> Auth.REFRESH_TOKEN_KEY
  /\ key <> Auth.AUTH_USER_KEY.


(** No call is made in the schedule. *)
Definition quiet {A} (schedule : list (Utils.Event A)) : Prop :=
  forall args, ~ In (Utils.Call args) schedule.


(** In the schedule, which starts [since] milliseconds after a call,
    the event loop takes up a timer task [wait] milliseconds or more
    after that call. *)
Fixpoint fires {A} (wait since : N) (schedule : list (Utils.Event A)) : bool :=
  match schedule with
  | [] => false
  | Utils.Elapse ms :: rest => fires wait (since + ms) rest
  | Utils.Task :: rest => (wait <=? since)%N || fires wait since rest
  | Utils.Call _ :: rest => fires wait since rest
  end.

(** A schedule cut at its calls: each call with the events that follow
    it up to the next call. *)
Definition stretches {A} (l : list (A * list (Utils.Event A))) : list (Utils.Event A) :=
  flat_map (fun c => Utils.Call (fst c) :: snd c) l.

(** The strings a regular expression matches. *)
Inductive matches : regex -> jsstr -> Prop :=
| matches_empty : matches REmpty []
| matches_class p c : p c = true -> matches (RClass p) [c]
| matches_seq r1 r2 s1 s2 :
    matches r1 s1 -> matches r2 s2 -> matches (RSeq r1 r2) (s1 ++ s2)
| matches_alt_l r1 r2 s : matches r1 s -> matches (RAlt r1 r2) s
| matches_alt_r r1 r2 s : matches r2 s -> matches (RAlt r1 r2) s
| matches_star_nil r : matches (RStar r) []
| matches_star_more r s1 s2 :
    matches r s1 -> matches (RStar r) s2 -> matches (RStar r) (s1 ++ s2).

(** A code unit that is neither white space nor the at sign. *)
Definition plain (c : N) : Prop := is_white c = false /\ c <> 64%N.

(** [snakeToTitle] read one code unit at a time: an underscore becomes a
    space, and the unit that starts a word is put in upper case. *)
Fixpoint title_from (word_start : bool) (s : jsstr) : jsstr :=
  match s with
  | [] => []
  | c :: rest =>
      if (c =? 95)%N then 32%N :: title_from true rest
      else (if word_start then upper_unit c else [c]) ++ title_from false rest
  end.

End Vocabulary.

Import Vocabulary.

(* ===================================================================== *)
(** ** Scenarios: concrete backends, stores and views *)
(* ===================================================================== *)

Module Scenario.

(** A [JSON.stringify] to run the scenarios with: strings are quoted
    with their quotes, backslashes and control characters escaped, and
    the properties of an object come in the order the map enumerates
    them. Values nested deeper than [depth] print as [null]. *)
Definition hex_digit (d : N) : N := (if d <? 10 then 48 + d else 87 + d)%N.

Fixpoint quote_units (s : jsstr) : jsstr :=
  match s with
  | [] => []
  | c :: rest =>
      (if (c =? 34)%N then [92; 34]%N
       else if (c =? 92)%N then [92; 92]%N
       else if (c <? 32)%N
            then js "\u00" ++ [hex_digit (c / 16); hex_digit (c mod 16)]
       else [c]) ++ quote_units rest
  end.

Definition quote (s : jsstr) : jsstr := [34%N] ++ quote_units s ++ [34%N].

Fixpoint stringify (depth : nat) (v : json) : jsstr :=
  match depth with
  | O => js "null"
  | S d =>
      match v with
      | JNull => js "null"
      | JBool true => js "true"
      | JBool false => js "false"
      | JNum n => num_text n
      | JStr s => quote s
      | JArr l => js "[" ++ join (js ",") (List.map (stringify d) l) ++ js "]"
      | JObj m =>
          js "{"
          ++ join (js ",")
               (List.map (fun kv => quote (fst kv) ++ js ":" ++ stringify d (snd kv))
                  (map_to_list m))
          ++ js "}"
      end
  end.

(** A JSON response with the given status. *)
Definition respond (code : N) (reason : string) (payload : json) : fetch_result :=
  Responded {| status := code; statusText := js reason;
               json_body := Normal payload |}.

Definition object (members : list (string * json)) : json :=
  JObj (list_to_map (List.map (fun kv => (js (fst kv), snd kv)) members)).

Definition ends_with (s suffix : jsstr) : bool :=
  bool_decide (drop (length s - length suffix) s = suffix).

Definition is_method (options : Options) (m : string) : bool :=
  match method options with
  | Some m' => str_eqb m' (js m)
  | None => String.eqb m "GET"
  end.

Definition has_bearer (options : Options) : bool :=
  match headers options with
  | Some h => bool_decide (is_Some (h !! "Authorization"))
  | None => false
  end.

Definition make_env (serve : unit -> jsstr -> Options -> fetch_result * unit)
  : Env unit :=
  {| serve := serve; JSON_stringify := stringify 16; VITE_API_BASE := None |}.

Definition world_with (items : list (string * jsstr)) : World unit :=
  {| storage := list_to_map items; backend := tt; trace := []; location := None |}.

End Scenario.

Module SessionScenario.
Import Scenario.

Definition documents_url : jsstr := js "http://localhost:8000/api/documents/".

Definition unauthorized : Response :=
  {| status := 401; statusText := js "Unauthorized";
     json_body := Normal (object [("detail", JStr (js "Token is invalid or expired"))]) |}.

Definition listing : Response :=
  {| status := 200; statusText := js "OK";
     json_body := Normal (object [("results", JArr [])]) |}.

Definition refreshed : Response :=
  {| status := 200; statusText := js "OK";
     json_body := Normal (object [("access", JStr (js "fresh"))]) |}.

(** A backend that answers 401 to every request carrying a bearer
    token, and issues the access token [fresh] on the refresh POST. *)
Definition rejecting : Env unit :=
  make_env (fun _ url options =>
    if has_bearer options then (Responded unauthorized, tt)
    else (Responded refreshed, tt)).

(** A backend on which the token [stale] has expired: it answers 401 to
    it, accepts [fresh], and issues [fresh] on the refresh POST. *)
Definition expiring : Env unit :=
  make_env (fun _ url options =>
    match headers options with
    | Some h =>
        match h !! "Authorization" with
        | Some token =>
            if str_eqb token (js "Bearer fresh") then (Responded listing, tt)
            else (Responded unauthorized, tt)
        | None => (Responded refreshed, tt)
        end
    | None => (Responded refreshed, tt)
    end).

(** A backend whose refresh endpoint is down. *)
Definition refresh_down : Env unit :=
  make_env (fun _ url options =>
    if has_bearer options then (Responded unauthorized, tt)
    else (Rejected (TypeError (js "Failed to fetch")), tt)).

(** A backend on which the session was revoked: it answers 401 to every
    request, the refresh POST included. *)
Definition revoked : Env unit :=
  make_env (fun _ url options => (Responded unauthorized, tt)).

Definition signed_in : World unit :=
  world_with [("access", js "stale"); ("refresh", js "r1"); ("authUser", js "{}")].

End SessionScenario.

Module ReviewScenario.
Import Scenario.

Definition approved_document : json :=
  object [("id", JNum (num_of_N 7)); ("status", JStr (js "approved"))].

(** A backend without the finalize action: the POST to it is answered
    404, and the PATCH of the document is accepted. *)
Definition no_finalize_action : Env unit :=
  make_env (fun _ url options =>
    if negb (has_bearer options) then
      (respond 401 "Unauthorized"
         (object [("detail", JStr (js "Not authenticated"))]), tt)
    else if ends_with url (js "/finalize/") then
      (respond 404 "Not Found" (object [("detail", JStr (js "Not found."))]), tt)
    else if is_method options "PATCH" then
      (respond 200 "OK" approved_document, tt)
    else (respond 405 "Method Not Allowed" (object []), tt)).

(** The same backend behind a connection on which the POST to the
    finalize action cannot be made at all. *)
Definition finalize_unreachable : Env unit :=
  make_env (fun _ url options =>
    if ends_with url (js "/finalize/") then
      (Rejected (TypeError (js "Failed to fetch")), tt)
    else if is_method options "PATCH" then
      (respond 200 "OK" approved_document, tt)
    else (respond 405 "Method Not Allowed" (object []), tt)).

(** The Review view with document 7 loaded and a token stored. *)
Definition reviewing : Page unit ReviewPage.State :=
  {| ui := {| ReviewPage.loading := false;
              ReviewPage.doc := object [("id", JNum (num_of_N 7));
                                        ("status", JStr (js "review_pending"))];
              ReviewPage.fields := [];
              ReviewPage.message := None;
              ReviewPage.error := None |};
     world := world_with [("access", js "tok"); ("refresh", js "r1")];
     navigations := [];
     timers := [] |}.

End ReviewScenario.

Module LoginScenario.
Import Scenario.

(** A backend that issues tokens to any credentials and whose profile
    endpoint describes an administrator. *)
Definition admin_backend : Env unit :=
  make_env (fun _ url options =>
    if ends_with url (js "/api/token/") then
      (respond 200 "OK" (object [("access", JStr (js "A1"));
                                 ("refresh", JStr (js "R1"))]), tt)
    else if ends_with url (js "/api/profile/") then
      (respond 200 "OK" (object [("username", JStr (js "root"));
                                 ("role", JStr (js "admin"));
                                 ("is_staff", JBool true)]), tt)
    else (respond 404 "Not Found" (object []), tt)).

(** The Login view with the form filled in and a portal selected. *)
Definition form_filled (portal : string) : Page unit LoginPage.State :=
  {| ui := {| LoginPage.username := js "root";
              LoginPage.password := js "secret";
              LoginPage.selectedPortal := js portal;
              LoginPage.loading := false;
              LoginPage.error := None |};
     world := world_with [];
     navigations := [];
     timers := [] |}.

End LoginScenario.

Module AttendanceScenario.
Import Models.

Definition audit : BaseModel :=
  {| created_by := Some 1%Z; updated_by := None; deleted_by := None;
     created_at := 1764920998; updated_at := 1764920998;
     deleted_at := None; is_deleted := false |}.

Definition monday_present : Attendance :=
  {| id := 1; base := audit; student := 42; center := 3;
     date := (2025, 12, 1)%N; status := "present" |}.

(** A second record for the Monday, with a primary key of its own. *)
Definition monday_absent : Attendance :=
  {| id := 3; base := audit; student := 42; center := 3;
     date := (2025, 12, 1)%N; status := "absent" |}.

Definition tuesday_present : Attendance :=
  {| id := 2; base := audit; student := 42; center := 3;
     date := (2025, 12, 2)%N; status := "present" |}.

(** The record of the Tuesday moved to the Monday. *)
Definition tuesday_moved : Attendance :=
  {| id := 2; base := audit; student := 42; center := 3;
     date := (2025, 12, 1)%N; status := "present" |}.

(** The record of the Monday corrected, and flagged as deleted. *)
Definition monday_excused : Attendance :=
  {| id := 1;
     base := {| created_by := Some 1%Z; updated_by := Some 1%Z;
                deleted_by := Some 1%Z;
                created_at := 1764920998; updated_at := 1764921000;
                deleted_at := Some 1764921000%Z; is_deleted := true |};
     student := 42; center := 3;
     date := (2025, 12, 1)%N; status := "excused" |}.

End AttendanceScenario.

Module SignInScenario.
Import Scenario.

(** A backend that knows no such account. *)
Definition wrong_password : Env unit :=
  make_env (fun _ url options =>
    if ends_with url (js "/api/token/") then
      (respond 401 "Unauthorized"
         (object [("detail",
                   JStr (js "No active account found with the given credentials"))]),
       tt)
    else (respond 404 "Not Found" (object []), tt)).

(** A backend that issues tokens and whose profile endpoint is out of
    order. *)
Definition profile_down : Env unit :=
  make_env (fun _ url options =>
    if ends_with url (js "/api/token/") then
      (respond 200 "OK" (object [("access", JStr (js "A1"));
                                 ("refresh", JStr (js "R1"))]), tt)
    else if ends_with url (js "/api/profile/") then
      (respond 500 "Internal Server Error"
         (object [("detail", JStr (js "Server error"))]), tt)
    else (respond 404 "Not Found" (object []), tt)).

(** A backend behind a gateway that is out of order: every request is
    answered 502 with a page of HTML. *)
Definition bad_gateway : Env unit :=
  make_env (fun _ url options =>
    (Responded {| status := 502; statusText := js "Bad Gateway";
                  json_body := Throw (SyntaxError (js "Unexpected token < in JSON")) |},
     tt)).

(** The Login view with spaces for a username. *)
Definition blank_form : Page unit LoginPage.State :=
  {| ui := {| LoginPage.username := js "   ";
              LoginPage.password := js "secret";
              LoginPage.selectedPortal := js "user";
              LoginPage.loading := false;
              LoginPage.error := None |};
     world := world_with [("theme", js "dark")];
     navigations := [];
     timers := [] |}.

End SignInScenario.

Module FinalizeScenario.
Import Scenario.

(** A backend whose finalize action answers 204 with no body. *)
Definition no_content : Env unit :=
  make_env (fun _ url options =>
    if ends_with url (js "/finalize/") then
      (Responded {| status := 204; statusText := js "No Content";
                    json_body := Throw (SyntaxError (js "Unexpected end of JSON input")) |},
       tt)
    else (respond 405 "Method Not Allowed" (object []), tt)).


End FinalizeScenario.

Module ListingScenario.
Import Scenario.

Definition scan : json :=
  object [("id", JNum (num_of_N 7)); ("original_filename", JStr (js "scan.pdf"));
          ("status", JStr (js "review_pending"))].

(** A backend with one document, listed in pages. *)
Definition paginated : Env unit :=
  make_env (fun _ url options =>
    if negb (has_bearer options) then
      (respond 401 "Unauthorized"
         (object [("detail", JStr (js "Not authenticated"))]), tt)
    else if ends_with url (js "/api/documents/") then
      (respond 200 "OK" (object [("count", JNum (num_of_N 1));
                                 ("results", JArr [scan])]), tt)
    else if ends_with url (js "/api/profile/") then
      (respond 200 "OK" (object [("username", JStr (js "asha"));
                                 ("role", JStr (js "employee"))]), tt)
    else (respond 404 "Not Found" (object []), tt)).


(** The Profile view just mounted. *)
Definition profile_mounted (items : list (string * jsstr))
  : Page unit ProfilePage.State :=
  {| ui := ProfilePage.initial;
     world := world_with items;
     navigations := [];
     timers := [] |}.

(** The admin page just mounted. *)
Definition admin_mounted (items : list (string * jsstr))
  : Page unit AdminUsers.State :=
  {| ui := AdminUsers.initial;
     world := world_with items;
     navigations := [];
     timers := [] |}.

(** The earlier login view with the form filled in. *)
Definition legacy_form : Page unit Legacy.LoginPage.State :=
  {| ui := {| Legacy.LoginPage.username := js "asha";
              Legacy.LoginPage.password := js "secret";
              Legacy.LoginPage.loading := false;
              Legacy.LoginPage.error := None |};
     world := world_with [];
     navigations := [];
     timers := [] |}.

(** A user as the backend lists it. *)
Definition clerk : json :=
  object [("id", JNum (num_of_N 3)); ("username", JStr (js "ravi"));
          ("role", JStr (js "employee"))].

(** A backend that lists its users under [items]. *)
Definition staff : Env unit :=
  make_env (fun _ url options =>
    if negb (has_bearer options) then
      (respond 401 "Unauthorized"
         (object [("detail", JStr (js "Not authenticated"))]), tt)
    else if ends_with url (js "/api/users/") then
      (respond 200 "OK" (object [("count", JNum (num_of_N 1));
                                 ("items", JArr [clerk])]), tt)
    else (respond 404 "Not Found" (object []), tt)).

End ListingScenario.

Module SearchScenario.



End SearchScenario.

(* ===================================================================== *)
(** * Properties *)
(* ===================================================================== *)

(** ** Strings *)

Section StringFacts.

Lemma split_not_nil sep s : split sep s <> [].
Proof.
  destruct s as [|c s]; simpl; [discriminate|].
  destruct (N.eqb c sep); [discriminate|].
  destruct (split sep s); discriminate.
Qed.

(** A string without the separator is its own single segment. *)
Lemma split_without_sep sep s : ~ In sep s -> split sep s = [s].
Proof.
  induction s as [|c s IH]; intros Hnot; simpl; [reflexivity|].
  destruct (N.eqb_spec c sep) as [->|Hne].
  - exfalso. apply Hnot. now left.
  - rewrite IH; [reflexivity|]. intros Hin. apply Hnot. now right.
Qed.

Lemma pop_split sep s : exists segment, pop (split sep s) = Some segment.
Proof.
  unfold pop. destruct (last (split sep s)) as [x|] eqn:E; [eauto|].
  apply last_None in E. now apply split_not_nil in E.
Qed.

Lemma str_eqb_eq a b : str_eqb a b = true <-> a = b.
Proof. unfold str_eqb. apply bool_decide_eq_true. Qed.

Lemma includes_In l x : includes l x = true <-> In x l.
Proof.
  unfold includes. rewrite existsb_exists. split.
  - intros (y & Hy & Heq). apply str_eqb_eq in Heq. now subst.
  - intros Hin. exists x. split; [assumption|]. now apply str_eqb_eq.
Qed.

Lemma includes_not_In l x : includes l x = false <-> ~ In x l.
Proof.
  rewrite <- includes_In. destruct (includes l x); split; congruence.
Qed.

Lemma trimStart_nil_iff s : trimStart s = [] <-> forallb is_white s = true.
Proof.
  induction s as [|c s IH]; simpl; [tauto|].
  destruct (is_white c); simpl; [exact IH|].
  split; discriminate.
Qed.

(** What [trimStart] leaves starts with a code unit that is not white
    space. *)
Lemma trimStart_head s c t : trimStart s = c :: t -> is_white c = false.
Proof.
  induction s as [|d s IH]; simpl; [discriminate|].
  destruct (is_white d) eqn:Hd; [exact IH|].
  intros [= <- _]. exact Hd.
Qed.

(** [trim] leaves nothing exactly of the strings made of white space. *)
Lemma trim_nil_iff s : trim s = [] <-> forallb is_white s = true.
Proof.
  unfold trim. split.
  - intros H. apply (f_equal (@rev N)) in H. rewrite rev_involutive in H.
    simpl in H. apply trimStart_nil_iff in H.
    destruct (trimStart s) as [|c t] eqn:E; [now apply trimStart_nil_iff|].
    apply trimStart_head in E.
    rewrite forallb_forall in H. specialize (H c).
    rewrite <- in_rev in H. rewrite H in E; [discriminate|now left].
  - intros H. apply trimStart_nil_iff in H. now rewrite H.
Qed.

(** The helpers on the examples of their documentation. *)
Example split_on_dots :
  split 46 (js "archive.tar.gz") = [js "archive"; js "tar"; js "gz"]
  /\ split 46 (js "README") = [js "README"]
  /\ split 46 (js "") = [[]].
Proof. repeat split. Qed.

Example trim_examples :
  trim (js "  two words  ") = js "two words" /\ trim [9; 32; 160; 8232]%N = [].
Proof. split; reflexivity. Qed.

Example toLowerCase_example : toLowerCase (js "Scan.JPG") = js "scan.jpg".
Proof. reflexivity. Qed.

Example formatFileSize_examples :
  Utils.formatFileSize 0 = js "0 Bytes"
  /\ Utils.formatFileSize 1024 = js "1 KB"
  /\ Utils.formatFileSize 1572864 = js "1.5 MB"
  /\ Utils.formatFileSize Constants.MAX_FILE_SIZE = js "10 MB".
Proof. repeat split. Qed.

(** [JSON.parse] accepts JSON texts and rejects the rest. *)
Example JSON_parse_accepts :
  JSON_parse (js " [1, true, null, [], {}] ")
  = Normal (JArr [JNum {| num_zero := false; num_text := js "1" |};
                  JBool true; JNull; JArr []; JObj ∅])
  /\ JSON_parse (js "-0.0e5")
     = Normal (JNum {| num_zero := true; num_text := js "-0.0e5" |})
  /\ JSON_parse (Scenario.quote (js "a") ++ js " ") = Normal (JStr (js "a"))
  /\ JSON_parse (js "{" ++ Scenario.quote (js "role") ++ js ":"
                   ++ Scenario.quote (js "admin") ++ js "}")
     = Normal (Scenario.object [("role"%string, JStr (js "admin"))]).
Proof. repeat split. Qed.

Example JSON_parse_rejects :
  Forall (fun text => exists e, JSON_parse (js text) = Throw e)
    [""; "{"; "[1,]"; "{,}"; "01"; "1."; "-"; "tru"; "undefined"; "NaN";
     "1 2"; "[1 2]"; "'a'"; "{a:1}"]%string.
Proof. repeat constructor; eexists; reflexivity. Qed.

End StringFacts.

(** ** File validation *)

Section FileValidation.
Import Constants.

(** The extension expression never throws. *)
Lemma fileExtension_total file_name :
  exists ext, fileExtension file_name = Normal ext.
Proof.
  unfold fileExtension.
  destruct (pop_split 46 file_name) as [seg ->]. eauto.
Qed.

Lemma fileExtension_dotless file_name :
  ~ In 46%N file_name ->
  fileExtension file_name = Normal (js "." ++ toLowerCase file_name).
Proof.
  intros H. unfold fileExtension. now rewrite (split_without_sep _ _ H).
Qed.

(** The inline validator on one file, by the three rules. *)
Lemma upload_validateFiles_one file ext :
  fileExtension (name file) = Normal ext ->
  UploadPage.validateFiles [file] =
    Normal
      ((if negb (includes ALLOWED_FILE_TYPES (type file))
        then [name file ++ js ": Invalid file type. Allowed types: PDF, JPG, JPEG, PNG"]
        else [])
       ++ (if negb (includes ALLOWED_FILE_EXTENSIONS ext)
           then [name file ++ js ": Invalid file extension. Allowed extensions: "
                   ++ join (js ", ") ALLOWED_FILE_EXTENSIONS]
           else [])
       ++ (if (MAX_FILE_SIZE <? size file)%N
           then [name file ++ js ": File too large. Maximum size is 10MB"]
           else [])).
Proof.
  intros Hext.
  unfold UploadPage.validateFiles, UploadPage.validate_loop, UploadPage.validate_file.
  rewrite Hext.
  destruct (negb (includes ALLOWED_FILE_TYPES (type file)));
    destruct (negb (includes ALLOWED_FILE_EXTENSIONS ext));
    destruct (MAX_FILE_SIZE <? size file)%N; reflexivity.
Qed.

(** C4 (amended): a file whose media type and extension are both in the
    allowed lists is accepted at exactly 10,485,760 bytes and rejected
    for its size at 10,485,761 bytes, by the shared helper and by the
    Upload view's inline validator alike; and a file named [x.pdf]
    declared as [image/png], within the size limit, is accepted by both,
    since the type and the extension are each checked against their own
    list and never against each other. *)
Theorem file_validation_boundary (file : File) (ext : jsstr) :
  includes ALLOWED_FILE_TYPES (type file) = true ->
  fileExtension (name file) = Normal ext ->
  includes ALLOWED_FILE_EXTENSIONS ext = true ->
  (size file = 10485760%N ->
     Utils.validateFile file
       = Normal {| Utils.isValid := true; Utils.error := None |}
     /\ UploadPage.validateFiles [file] = Normal [])
  /\ (size file = 10485761%N ->
        Utils.validateFile file
          = Normal {| Utils.isValid := false;
                      Utils.error := Some (js "File too large. Maximum size is 10 MB") |}
        /\ UploadPage.validateFiles [file]
           = Normal [name file ++ js ": File too large. Maximum size is 10MB"])
  /\ (forall sz, (sz <= 10485760)%N ->
        let mismatched := {| name := js "x.pdf"; type := js "image/png"; size := sz |} in
        Utils.validateFile mismatched
          = Normal {| Utils.isValid := true; Utils.error := None |}
        /\ UploadPage.validateFiles [mismatched] = Normal []).
Proof.
  intros Htype Hext Hin. repeat split.
  - unfold Utils.validateFile. rewrite Htype, Hext, Hin, H. reflexivity.
  - rewrite (upload_validateFiles_one _ _ Hext), Htype, Hin, H. reflexivity.
  - unfold Utils.validateFile. rewrite Htype, Hext, Hin, H. reflexivity.
  - rewrite (upload_validateFiles_one _ _ Hext), Htype, Hin, H. reflexivity.
  - unfold Utils.validateFile. simpl.
    replace (MAX_FILE_SIZE <? sz)%N with false; [reflexivity|].
    symmetry. apply N.ltb_ge. exact H.
  - rewrite (upload_validateFiles_one _ (js ".pdf")); [|reflexivity]. simpl.
    replace (MAX_FILE_SIZE <? sz)%N with false; [reflexivity|].
    symmetry. apply N.ltb_ge. exact H.
Qed.

Lemma file_validation_boundary_witness :
  let file := {| name := js "scan.jpeg"; type := js "image/jpeg"; size := 10485760 |} in
  includes ALLOWED_FILE_TYPES (type file) = true
  /\ fileExtension (name file) = Normal (js ".jpeg")
  /\ includes ALLOWED_FILE_EXTENSIONS (js ".jpeg") = true
  /\ size file = 10485760%N
  /\ Utils.validateFile file
       = Normal {| Utils.isValid := true; Utils.error := None |}.
Proof.
  cbv zeta. do 4 (split; [reflexivity|]).
  refine (proj1 (proj1 (file_validation_boundary
            {| name := js "scan.jpeg"; type := js "image/jpeg"; size := 10485760 |}
            (js ".jpeg") _ _ _) _)); reflexivity.
Defined.

(** C4, as stated, fails: [x.pdf] declared as [image/png] passes the
    shared helper, and the inline validator finds no violation. *)
Lemma mismatched_type_is_accepted :
  let file := {| name := js "x.pdf"; type := js "image/png"; size := 1024 |} in
  Utils.validateFile file = Normal {| Utils.isValid := true; Utils.error := None |}
  /\ UploadPage.validateFiles [file] = Normal [].
Proof. split; reflexivity. Qed.

Lemma allowed_extension_of_word word :
  includes ALLOWED_FILE_EXTENSIONS (js "." ++ word) = true
  <-> In word [js "pdf"; js "jpg"; js "jpeg"; js "png"].
Proof.
  rewrite includes_In.
  change ALLOWED_FILE_EXTENSIONS
    with (List.map (app (js ".")) [js "pdf"; js "jpg"; js "jpeg"; js "png"]).
  rewrite in_map_iff. split.
  - intros (w & Hw & Hin). apply app_inv_head in Hw. now subst.
  - intros Hin. exists word. now split.
Qed.

(** C10 (amended): for a file name without a dot the extension is ['.']
    followed by the whole lower-cased name, and computing it never
    fails. With an allowed media type and a size within the limit, such
    a file passes both validators when its lower-cased name is one of
    [pdf], [jpg], [jpeg], [png] (so [pdf] passes, and so does [PDF]),
    and is rejected for its extension by both when it is not. *)
Theorem dotless_name_extension (file : File) :
  ~ In 46%N (name file) ->
  includes ALLOWED_FILE_TYPES (type file) = true ->
  (size file <= MAX_FILE_SIZE)%N ->
  fileExtension (name file) = Normal (js "." ++ toLowerCase (name file))
  /\ (In (toLowerCase (name file)) [js "pdf"; js "jpg"; js "jpeg"; js "png"] ->
        Utils.validateFile file
          = Normal {| Utils.isValid := true; Utils.error := None |}
        /\ UploadPage.validateFiles [file] = Normal [])
  /\ (~ In (toLowerCase (name file)) [js "pdf"; js "jpg"; js "jpeg"; js "png"] ->
        Utils.validateFile file
          = Normal {| Utils.isValid := false;
                      Utils.error :=
                        Some (js "Invalid file extension. Allowed extensions: .pdf, .jpg, .jpeg, .png") |}
        /\ UploadPage.validateFiles [file]
           = Normal [name file
                       ++ js ": Invalid file extension. Allowed extensions: .pdf, .jpg, .jpeg, .png"]).
Proof.
  intros Hdot Htype Hsize.
  pose proof (fileExtension_dotless _ Hdot) as Hext.
  apply N.ltb_ge in Hsize.
  split; [exact Hext|]. split; intros Hword.
  - apply allowed_extension_of_word in Hword. split.
    + unfold Utils.validateFile. rewrite Htype, Hext, Hword, Hsize. reflexivity.
    + rewrite (upload_validateFiles_one _ _ Hext), Htype, Hword, Hsize. reflexivity.
  - assert (Hno : includes ALLOWED_FILE_EXTENSIONS (js "." ++ toLowerCase (name file)) = false).
    { apply not_true_is_false. intros E.
      now apply allowed_extension_of_word in E. }
    split.
    + unfold Utils.validateFile. rewrite Htype, Hext, Hno. reflexivity.
    + rewrite (upload_validateFiles_one _ _ Hext), Htype, Hno, Hsize. reflexivity.
Qed.

Lemma dotless_name_extension_witness :
  let file := {| name := js "jpeg"; type := js "image/jpeg"; size := 2048 |} in
  ~ In 46%N (name file)
  /\ includes ALLOWED_FILE_TYPES (type file) = true
  /\ (size file <= MAX_FILE_SIZE)%N
  /\ fileExtension (name file) = Normal (js ".jpeg").
Proof.
  assert (Hdot : ~ In 46%N (js "jpeg")).
  { vm_compute. intros [H|[H|[H|[H|[]]]]]; discriminate. }
  assert (Hsize : (2048 <= MAX_FILE_SIZE)%N) by (vm_compute; discriminate).
  cbv zeta. split; [exact Hdot|]. split; [reflexivity|]. split; [exact Hsize|].
  exact (proj1 (dotless_name_extension
                  {| name := js "jpeg"; type := js "image/jpeg"; size := 2048 |}
                  Hdot eq_refl Hsize)).
Defined.

(** C10, as stated, fails: the dotless name [PDF] is none of the four
    lower-case words, and the file passes both validators. *)
Lemma uppercase_dotless_name_is_accepted :
  let file := {| name := js "PDF"; type := js "application/pdf"; size := 1024 |} in
  ~ In 46%N (name file)
  /\ ~ In (name file) [js "pdf"; js "jpg"; js "jpeg"; js "png"]
  /\ Utils.validateFile file
     = Normal {| Utils.isValid := true; Utils.error := None |}
  /\ UploadPage.validateFiles [file] = Normal [].
Proof.
  repeat split.
  - vm_compute. intros [H|[H|[H|[]]]]; discriminate.
  - vm_compute. intros [H|[H|[H|[H|[]]]]]; discriminate.
Qed.

Lemma validate_file_violations errors file :
  UploadPage.validate_file errors file = Normal (errors ++ violations file).
Proof.
  unfold UploadPage.validate_file, violations.
  destruct (fileExtension_total (name file)) as [ext ->].
  destruct (negb (includes ALLOWED_FILE_TYPES (type file)));
    destruct (negb (includes ALLOWED_FILE_EXTENSIONS ext));
    destruct (MAX_FILE_SIZE <? size file)%N;
    simpl; rewrite <- ?app_assoc, ?app_nil_r; reflexivity.
Qed.

Lemma validate_loop_violations fileList : forall errors,
  UploadPage.validate_loop errors fileList
  = Normal (errors ++ flat_map violations fileList).
Proof.
  induction fileList as [|file rest IH]; intros errors; simpl.
  - now rewrite app_nil_r.
  - rewrite validate_file_violations, IH, <- app_assoc. reflexivity.
Qed.

(** A file has a message exactly when it breaks one of the three
    rules. *)
Lemma violations_nil_iff file :
  violations file = []
  <-> In (type file) ALLOWED_FILE_TYPES
      /\ (exists ext, fileExtension (name file) = Normal ext
                      /\ In ext ALLOWED_FILE_EXTENSIONS)
      /\ (size file <= MAX_FILE_SIZE)%N.
Proof.
  unfold violations.
  destruct (fileExtension_total (name file)) as [ext Hext]. rewrite Hext.
  rewrite <- includes_In, <- N.ltb_ge.
  split.
  - destruct (includes ALLOWED_FILE_TYPES (type file)); [|discriminate].
    destruct (includes ALLOWED_FILE_EXTENSIONS ext) eqn:E; [|discriminate].
    destruct (MAX_FILE_SIZE <? size file)%N; [discriminate|].
    intros _. repeat split. exists ext. split; [reflexivity|].
    now apply includes_In.
  - intros (-> & (ext' & Heq & Hin) & ->).
    injection Heq as <-. apply includes_In in Hin. now rewrite Hin.
Qed.

Lemma flat_map_nil_iff {A A'} (f : A -> list A') l :
  flat_map f l = [] <-> Forall (fun x => f x = []) l.
Proof.
  induction l as [|x l IH]; simpl.
  - split; [constructor|reflexivity].
  - split.
    + intros H. apply app_eq_nil in H as [Hx Hl]. constructor; [assumption|].
      now apply IH.
    + intros H. inversion H; subst. rewrite H2. now apply IH.
Qed.

(** C5: when some selected file breaks the type, extension or size
    rule, the whole selection is rejected: no file is kept, the file
    input is emptied, and the error shown is every violation message of
    every file, joined by newlines. When every selected file is valid
    the selection is stored and the error is cleared. *)
Theorem onFilesChange_all_or_nothing (selected : list File) (st : UploadPage.State) :
  (Exists (fun file =>
             ~ In (type file) ALLOWED_FILE_TYPES
             \/ (forall ext, fileExtension (name file) = Normal ext ->
                             ~ In ext ALLOWED_FILE_EXTENSIONS)
             \/ (MAX_FILE_SIZE < size file)%N) selected ->
   UploadPage.onFilesChange (Some selected) st
   = Normal {| UploadPage.files := [];
               UploadPage.category := UploadPage.category st;
               UploadPage.loading := UploadPage.loading st;
               UploadPage.error := Some (join [10%N] (flat_map violations selected));
               UploadPage.success := UploadPage.success st;
               UploadPage.fileInputRef :=
                 match UploadPage.fileInputRef st with
                 | Some _ => Some []
                 | None => None
                 end |}
   /\ flat_map violations selected <> [])
  /\ (Forall (fun file =>
                In (type file) ALLOWED_FILE_TYPES
                /\ (exists ext, fileExtension (name file) = Normal ext
                                /\ In ext ALLOWED_FILE_EXTENSIONS)
                /\ (size file <= MAX_FILE_SIZE)%N) selected ->
      UploadPage.onFilesChange (Some selected) st
      = Normal {| UploadPage.files := selected;
                  UploadPage.category := UploadPage.category st;
                  UploadPage.loading := UploadPage.loading st;
                  UploadPage.error := None;
                  UploadPage.success := UploadPage.success st;
                  UploadPage.fileInputRef := UploadPage.fileInputRef st |}).
Proof.
  unfold UploadPage.onFilesChange, UploadPage.validateFiles. simpl default.
  rewrite validate_loop_violations. simpl app.
  split.
  - intros Hbad.
    assert (Hne : flat_map violations selected <> []).
    { intros Hnil. apply flat_map_nil_iff in Hnil.
      rewrite Forall_forall in Hnil. apply Exists_exists in Hbad.
      destruct Hbad as (file & Hin & Hrule).
      apply Hnil, violations_nil_iff in Hin.
      destruct Hin as (Ht & (ext & He & Hx) & Hs).
      destruct Hrule as [H|[H|H]]; [tauto|now apply (H ext)|lia]. }
    split; [|exact Hne].
    destruct (flat_map violations selected); [congruence|reflexivity].
  - intros Hok.
    assert (Hnil : flat_map violations selected = []).
    { apply flat_map_nil_iff. eapply Forall_impl; [exact Hok|].
      intros file H. now apply violations_nil_iff. }
    rewrite Hnil. reflexivity.
Qed.

Lemma onFilesChange_all_or_nothing_witness :
  let good := {| name := js "a.png"; type := js "image/png"; size := 10 |} in
  let bad := {| name := js "b.exe"; type := js "image/png"; size := 10 |} in
  Exists (fun file =>
            ~ In (type file) ALLOWED_FILE_TYPES
            \/ (forall ext, fileExtension (name file) = Normal ext ->
                            ~ In ext ALLOWED_FILE_EXTENSIONS)
            \/ (MAX_FILE_SIZE < size file)%N) [good; bad]
  /\ UploadPage.onFilesChange (Some [good; bad]) UploadPage.initial
     = Normal {| UploadPage.files := [];
                 UploadPage.category := js "attendance_sheet";
                 UploadPage.loading := false;
                 UploadPage.error :=
                   Some (js "b.exe: Invalid file extension. Allowed extensions: .pdf, .jpg, .jpeg, .png");
                 UploadPage.success := None;
                 UploadPage.fileInputRef := Some [] |}.
Proof.
  intros good bad.
  assert (Hbad : Exists (fun file =>
            ~ In (type file) ALLOWED_FILE_TYPES
            \/ (forall ext, fileExtension (name file) = Normal ext ->
                            ~ In ext ALLOWED_FILE_EXTENSIONS)
            \/ (MAX_FILE_SIZE < size file)%N) [good; bad]).
  { apply Exists_cons_tl, Exists_cons_hd. right. left.
    intros ext Hext. vm_compute in Hext. injection Hext as <-.
    vm_compute. intros [H|[H|[H|[H|[]]]]]; discriminate. }
  split; [exact Hbad|].
  exact (proj1 (proj1 (onFilesChange_all_or_nothing [good; bad] UploadPage.initial)
                  Hbad)).
Defined.

End FileValidation.

(** ** The session manager *)

Section Session.
Context {B : Type} (env : Env B).
Import Auth.

(** A value one property of which can be read is not [null], and every
    property of it can. *)
Lemma get_prop_defined (v : json) k x k' :
  get_prop v k = Normal x -> get_prop v k' = Normal (own_prop v k').
Proof. destruct v; [discriminate|reflexivity..]. Qed.

Lemma fetch_served url options (w : World B) :
  fetch env url options w
  = match served env w url options with
    | (Responded r, w') => (Normal r, w')
    | (Rejected e, w') => (Throw e, w')
    end.
Proof. reflexivity. Qed.

Lemma served_frame url options (w : World B) result w' :
  served env w url options = (result, w') ->
  storage w' = storage w /\ location w' = location w
  /\ trace w' = trace w ++ [{| call_url := url; call_options := options;
                               call_result := result |}].
Proof.
  unfold served. destruct (serve env (backend w) url options) as [r b'].
  intros [= <- <-]. simpl. auto.
Qed.

(** What [saveTokens] leaves in storage. *)
Lemma saveTokens_spec (access refresh user : jsval) (w : World B) :
  exists w',
    saveTokens env access refresh user w = (Normal tt, w')
    /\ backend w' = backend w /\ trace w' = trace w /\ location w' = location w
    /\ storage w' !! ACCESS_TOKEN_KEY
       = (if val_truthy access then Some (val_ToString access)
          else storage w !! ACCESS_TOKEN_KEY)
    /\ storage w' !! REFRESH_TOKEN_KEY
       = (if val_truthy refresh then Some (val_ToString refresh)
          else storage w !! REFRESH_TOKEN_KEY)
    /\ storage w' !! AUTH_USER_KEY
       = (if val_truthy user then JSON_stringify env <$> user
          else storage w !! AUTH_USER_KEY).
Proof.
  unfold saveTokens, bind, setItem, modify, ret.
  destruct (val_truthy access), (val_truthy refresh), user as [u|];
    simpl; try destruct (truthy u); simpl;
    eexists; (split; [reflexivity|]); simpl;
    repeat split; unfold ACCESS_TOKEN_KEY, REFRESH_TOKEN_KEY, AUTH_USER_KEY;
    simplify_map_eq; reflexivity.
Qed.

Lemma refreshAccessToken_no_token (w : World B) :
  item_truthy (storage w !! REFRESH_TOKEN_KEY) = false ->
  refreshAccessToken env w = (Normal (Some JNull), w).
Proof.
  intros Hfalsy.
  unfold refreshAccessToken, bind, getRefreshToken, getItem, gets.
  destruct (storage w !! REFRESH_TOKEN_KEY) as [[|c r]|];
    [reflexivity|discriminate|reflexivity].
Qed.

(** [refreshAccessToken] from the point where the refresh POST has
    settled to [result]. *)
Lemma refreshAccessToken_posts (w : World B) refresh result w1 :
  storage w !! REFRESH_TOKEN_KEY = Some refresh ->
  refresh <> [] ->
  served env w (refresh_url env) (refresh_options env refresh) = (result, w1) ->
  refreshAccessToken env w
  = try_catch
      (res <- lift (match result with
                    | Responded r => Normal r
                    | Rejected e => Throw e
                    end) ;;
       if negb (ok res) then clearTokens ;; ret (Some JNull)
       else
         data <- lift (json_body res) ;;
         access <- lift (get_prop data "access") ;;
         if val_truthy access then
           new_refresh <- lift (get_prop data "refresh") ;;
           saveTokens env access (or_else new_refresh (Some (JStr refresh))) None ;;
           ret access
         else ret (Some JNull))
      (fun _ => clearTokens ;; ret (Some JNull)) w1.
Proof.
  intros Hstored Hne Hserved.
  unfold refreshAccessToken, bind at 1, getRefreshToken, getItem, gets.
  rewrite Hstored. destruct refresh as [|c r]; [congruence|].
  cbn [str_truthy negb]. unfold try_catch, bind at 1 3.
  rewrite fetch_served, Hserved. unfold lift.
  destruct result; reflexivity.
Qed.

(** The steps that run [refreshAccessToken] past its POST. *)
Ltac past_refresh_post Hstored Hne Hserved :=
  rewrite (refreshAccessToken_posts _ _ _ _ Hstored Hne Hserved);
  unfold try_catch, bind, lift, ret.

(** The refresh POST failed: everything is removed. *)
Lemma refreshAccessToken_failure (w : World B) refresh result w1 :
  storage w !! REFRESH_TOKEN_KEY = Some refresh ->
  refresh <> [] ->
  served env w (refresh_url env) (refresh_options env refresh) = (result, w1) ->
  post_failed result ->
  exists w',
    refreshAccessToken env w = (Normal (Some JNull), w')
    /\ session_cleared w'
    /\ trace w' = trace w1 /\ location w' = location w1.
Proof.
  intros Hstored Hne Hserved Hfail.
  exists {| storage := delete AUTH_USER_KEY
                        (delete REFRESH_TOKEN_KEY
                           (delete ACCESS_TOKEN_KEY (storage w1)));
            backend := backend w1; trace := trace w1; location := location w1 |}.
  split.
  - past_refresh_post Hstored Hne Hserved.
    destruct result as [res|e]; [simpl in Hfail; rewrite Hfail|]; reflexivity.
  - unfold session_cleared, ACCESS_TOKEN_KEY, REFRESH_TOKEN_KEY, AUTH_USER_KEY.
    simpl. repeat split; simplify_map_eq; reflexivity.
Qed.

(** The refresh POST succeeded with an access token in its body. *)
Lemma refreshAccessToken_success (w : World B) refresh res data access new_refresh w1 :
  storage w !! REFRESH_TOKEN_KEY = Some refresh ->
  refresh <> [] ->
  served env w (refresh_url env) (refresh_options env refresh)
    = (Responded res, w1) ->
  ok res = true ->
  json_body res = Normal data ->
  get_prop data "access" = Normal access ->
  val_truthy access = true ->
  get_prop data "refresh" = Normal new_refresh ->
  exists w',
    refreshAccessToken env w = (Normal access, w')
    /\ saveTokens env access (or_else new_refresh (Some (JStr refresh))) None w1
       = (Normal tt, w').
Proof.
  intros Hstored Hne Hserved Hok Hdata Haccess Htruthy Hrefresh.
  destruct (saveTokens_spec access
              (or_else new_refresh (Some (JStr refresh))) None w1)
    as (w' & Hsave & _).
  exists w'. split; [|exact Hsave].
  past_refresh_post Hstored Hne Hserved.
  rewrite Hok, Hdata, Haccess, Htruthy, Hrefresh.
  cbn [negb]. rewrite Hsave. reflexivity.
Qed.

(** C2: [refreshAccessToken] with no stored refresh token (or an empty
    one) returns [null] at once, without any HTTP call. With a refresh
    token stored, a network failure or a non-success status of the
    refresh POST removes the access token, the refresh token and the
    cached user and gives [null]; a success response carrying an access
    token stores it, stores the new refresh token if one was issued and
    the old one otherwise, and returns the new access token, which
    [getAccessToken] then reads. *)
Theorem refreshAccessToken_outcomes (w : World B) :
  (item_truthy (storage w !! REFRESH_TOKEN_KEY) = false ->
     refreshAccessToken env w = (Normal (Some JNull), w))
  /\ (forall refresh result w1,
        storage w !! REFRESH_TOKEN_KEY = Some refresh ->
        refresh <> [] ->
        served env w (refresh_url env) (refresh_options env refresh) = (result, w1) ->
        (* network failure or non-success status *)
        (post_failed result ->
         exists w',
           refreshAccessToken env w = (Normal (Some JNull), w')
           /\ session_cleared w'
           /\ getAccessToken w' = (Normal None, w')
           /\ getRefreshToken w' = (Normal None, w')
           /\ trace w' = trace w1)
        (* success response carrying an access token *)
        /\ (forall res data access,
              result = Responded res ->
              ok res = true ->
              json_body res = Normal data ->
              get_prop data "access" = Normal access ->
              val_truthy access = true ->
              exists w',
                refreshAccessToken env w = (Normal access, w')
                /\ storage w' !! ACCESS_TOKEN_KEY = Some (val_ToString access)
                /\ storage w' !! REFRESH_TOKEN_KEY
                   = Some (if val_truthy (own_prop data "refresh")
                           then val_ToString (own_prop data "refresh")
                           else refresh)
                /\ storage w' !! AUTH_USER_KEY = storage w !! AUTH_USER_KEY
                /\ getAccessToken w' = (Normal (Some (val_ToString access)), w')
                /\ trace w' = trace w1)).
Proof.
  split; [apply refreshAccessToken_no_token|].
  intros refresh result w1 Hstored Hne Hserved.
  destruct (served_frame _ _ _ _ _ Hserved) as (Hst & Hloc & Htr). split.
  - intros Hfail.
    destruct (refreshAccessToken_failure _ _ _ _ Hstored Hne Hserved Hfail)
      as (w' & Hrun & Hcleared & Htr' & _).
    exists w'. split; [exact Hrun|]. split; [exact Hcleared|].
    destruct Hcleared as (Ha & Hr & _).
    unfold getAccessToken, getRefreshToken, getItem, gets. rewrite Ha, Hr. auto.
  - intros res data access -> Hok Hdata Haccess Htruthy.
    pose proof (get_prop_defined _ _ _ "refresh" Haccess) as Hrefresh.
    set (new_refresh := own_prop data "refresh") in *.
    destruct (refreshAccessToken_success _ _ _ _ _ _ _ Hstored Hne Hserved
                Hok Hdata Haccess Htruthy Hrefresh) as (w' & Hrun & Hsave).
    destruct (saveTokens_spec access
                (or_else new_refresh (Some (JStr refresh))) None w1)
      as (w'' & Hsave' & _ & Htr' & _ & Ha & Hr & Hu).
    rewrite Hsave in Hsave'. injection Hsave' as <-.
    exists w'. split; [exact Hrun|].
    rewrite Htruthy in Ha. rewrite Ha, Hr, Hu, Hst, Htr'.
    repeat split.
    + unfold or_else. destruct (val_truthy new_refresh) eqn:E.
      * now rewrite E.
      * cbn. destruct refresh; [congruence|reflexivity].
    + unfold getAccessToken, getItem, gets. now rewrite Ha.
Qed.

Lemma with_bearer_carries c url options token :
  sent c url (with_bearer options token) -> carries_bearer c = true.
Proof.
  intros [_ Hopts]. unfold carries_bearer. rewrite Hopts. simpl.
  apply bool_decide_eq_true. rewrite lookup_insert_eq. eauto.
Qed.

Lemma refresh_post_no_bearer c : refresh_post env c -> carries_bearer c = false.
Proof.
  intros (refresh & _ & Hopts). unfold carries_bearer. rewrite Hopts. simpl.
  apply bool_decide_eq_false. rewrite lookup_singleton_ne; [|discriminate].
  intros [x Hx]. discriminate Hx.
Qed.

(** [refreshAccessToken] never throws and leaves the location alone. *)
Lemma refreshAccessToken_effects (w : World B) :
  exists r w' posts,
    refreshAccessToken env w = (Normal r, w')
    /\ location w' = location w
    /\ trace w' = trace w ++ posts
    /\ refresh_attempt env w r w' posts.
Proof.
  destruct (item_truthy (storage w !! REFRESH_TOKEN_KEY)) eqn:Hitem.
  2:{ exists (Some JNull), w, []. rewrite app_nil_r.
      split; [now apply refreshAccessToken_no_token|].
      repeat split. left. auto. }
  destruct (storage w !! REFRESH_TOKEN_KEY) as [refresh|] eqn:Hstored;
    [|discriminate].
  assert (Hne : refresh <> []) by (destruct refresh; [discriminate|congruence]).
  destruct (served env w (refresh_url env) (refresh_options env refresh))
    as [result w1] eqn:Hserved.
  destruct (served_frame _ _ _ _ _ Hserved) as (Hst & Hloc & Htr).
  set (post := {| call_url := refresh_url env;
                  call_options := refresh_options env refresh;
                  call_result := result |}) in *.
  assert (Hpost : refresh_post env post) by (exists refresh; split; reflexivity).
  (* every run that gives null after the POST *)
  assert (Hnull : forall w', trace w' = trace w1 -> location w' = location w1 ->
            (post_failed result -> session_cleared w') ->
            refreshAccessToken env w = (Normal (Some JNull), w') ->
            exists r w'0 posts,
              refreshAccessToken env w = (Normal r, w'0)
              /\ location w'0 = location w
              /\ trace w'0 = trace w ++ posts
              /\ refresh_attempt env w r w'0 posts).
  { intros w' Htr' Hloc' Hcl Hrun. exists (Some JNull), w', [post].
    split; [exact Hrun|]. split; [congruence|]. split; [congruence|].
    right. exists post. split; [reflexivity|]. split; [exact Hpost|].
    split; [reflexivity|]. split; [|exact Hcl].
    intros H. cbn in H. discriminate H. }
  destruct result as [res|e].
  2:{ destruct (refreshAccessToken_failure _ _ _ _ Hstored Hne Hserved I)
        as (w' & Hrun & Hcl & Htr' & Hloc').
      eapply Hnull; eauto. }
  destruct (ok res) eqn:Hok.
  2:{ destruct (refreshAccessToken_failure _ _ _ _ Hstored Hne Hserved Hok)
        as (w' & Hrun & Hcl & Htr' & Hloc').
      eapply Hnull; eauto. }
  assert (Hnot_failed : forall w' : World B,
            post_failed (Responded res) -> session_cleared w').
  { intros w' Hf. simpl in Hf. congruence. }
  destruct (json_body res) as [data|e] eqn:Hdata.
  2:{ eapply Hnull; [| |apply Hnot_failed|
                     past_refresh_post Hstored Hne Hserved;
                     rewrite Hok, Hdata; reflexivity]; reflexivity. }
  destruct (get_prop data "access") as [access|e] eqn:Haccess.
  2:{ eapply Hnull; [| |apply Hnot_failed|
                     past_refresh_post Hstored Hne Hserved;
                     rewrite Hok, Hdata, Haccess; reflexivity]; reflexivity. }
  destruct (val_truthy access) eqn:Htruthy.
  2:{ eapply Hnull; [| |apply Hnot_failed|
                     past_refresh_post Hstored Hne Hserved;
                     rewrite Hok, Hdata, Haccess, Htruthy; reflexivity];
        reflexivity. }
  destruct (get_prop data "refresh") as [new_refresh|e] eqn:Hrefresh.
  2:{ eapply Hnull; [| |apply Hnot_failed|
                     past_refresh_post Hstored Hne Hserved;
                     rewrite Hok, Hdata, Haccess, Htruthy, Hrefresh; reflexivity];
        reflexivity. }
  destruct (refreshAccessToken_success _ _ _ _ _ _ _ Hstored Hne Hserved
              Hok Hdata Haccess Htruthy Hrefresh) as (w' & Hrun & Hsave).
  destruct (saveTokens_spec access
              (or_else new_refresh (Some (JStr refresh))) None w1)
    as (w'' & Hsave' & _ & Htr' & Hloc' & Ha & _).
  rewrite Hsave in Hsave'. injection Hsave' as <-.
  exists access, w', [post]. split; [exact Hrun|]. split; [congruence|].
  split; [congruence|]. right. exists post.
  split; [reflexivity|]. split; [exact Hpost|].
  split; [congruence|]. split; [|apply Hnot_failed].
  intros _. split; [eauto|]. now rewrite Htruthy in Ha.
Qed.

(** With a token stored, a first answer other than 401 is the result of
    the wrapper, and a request that cannot be made is its exception. *)
Lemma fetchWithAuth_answered url options (w : World B) access res w1 :
  storage w !! ACCESS_TOKEN_KEY = Some access ->
  access <> [] ->
  served env w url (with_bearer options access) = (Responded res, w1) ->
  status res <> 401%N ->
  fetchWithAuth env url options w = (Normal res, w1).
Proof.
  intros Hstored Hne Hserved H401.
  unfold fetchWithAuth, bind at 1, getAccessToken, getItem, gets.
  rewrite Hstored. destruct access as [|c t]; [congruence|]. cbn [str_truthy negb].
  unfold bind at 1. rewrite fetch_served, Hserved.
  apply N.eqb_neq in H401. rewrite H401. reflexivity.
Qed.

Lemma fetchWithAuth_rejected url options (w : World B) access e w1 :
  storage w !! ACCESS_TOKEN_KEY = Some access ->
  access <> [] ->
  served env w url (with_bearer options access) = (Rejected e, w1) ->
  fetchWithAuth env url options w = (Throw e, w1).
Proof.
  intros Hstored Hne Hserved.
  unfold fetchWithAuth, bind at 1, getAccessToken, getItem, gets.
  rewrite Hstored. destruct access as [|c t]; [congruence|]. cbn [str_truthy negb].
  unfold bind at 1. rewrite fetch_served, Hserved. reflexivity.
Qed.

(** [fetchWithAuth] from the point where the first call was answered
    401 and the refresh has run. *)
Lemma fetchWithAuth_expired url options (w : World B) access res1 w1 newAccess w2 :
  storage w !! ACCESS_TOKEN_KEY = Some access ->
  access <> [] ->
  served env w url (with_bearer options access) = (Responded res1, w1) ->
  status res1 = 401%N ->
  refreshAccessToken env w1 = (Normal newAccess, w2) ->
  fetchWithAuth env url options w
  = if val_truthy newAccess
    then fetch env url (with_bearer (with_bearer options access)
                          (val_ToString newAccess)) w2
    else (Throw (Error (js "Authentication failed")),
          {| storage := storage w2; backend := backend w2;
             trace := trace w2; location := Some (js "/login") |}).
Proof.
  intros Hstored Hne Hserved H401 Hrefresh.
  unfold fetchWithAuth, bind at 1, getAccessToken, getItem, gets.
  rewrite Hstored. destruct access as [|c t]; [congruence|]. cbn [str_truthy negb].
  unfold bind at 1. rewrite fetch_served, Hserved.
  apply N.eqb_eq in H401. rewrite H401.
  unfold bind at 1. rewrite Hrefresh.
  destruct (val_truthy newAccess); reflexivity.
Qed.


(** With a refresh token stored, the calls of [refreshAccessToken] are
    its POST and nothing else. *)
Lemma refreshAccessToken_sends (w : World B) refresh result wp :
  storage w !! REFRESH_TOKEN_KEY = Some refresh ->
  refresh <> [] ->
  served env w (refresh_url env) (refresh_options env refresh) = (result, wp) ->
  trace (snd (refreshAccessToken env w)) = trace wp.
Proof.
  intros Hstored Hne Hserved.
  past_refresh_post Hstored Hne Hserved.
  destruct result as [res|e]; [|reflexivity].
  destruct (ok res); [|reflexivity]. cbn [negb].
  destruct (json_body res) as [data|e]; [|reflexivity].
  destruct (get_prop data "access") as [access|e]; [|reflexivity].
  destruct (val_truthy access); [|reflexivity].
  destruct (get_prop data "refresh") as [new_refresh|e]; [|reflexivity].
  destruct (saveTokens_spec access
              (or_else new_refresh (Some (JStr refresh))) None wp)
    as (w' & Hsave & _ & Htr & _).
  rewrite Hsave. exact Htr.
Qed.

Lemma settled_fetch url options (w : World B) result w' :
  served env w url options = (result, w') ->
  fetch env url options w
  = (settled {| call_url := url; call_options := options; call_result := result |},
     w').
Proof.
  intros Hserved. rewrite fetch_served, Hserved. destruct result; reflexivity.
Qed.

(** C1: a request made through [fetchWithAuth] against a stored access
    token goes out with the bearer header, and the wrapper sends the
    target request at most twice and the refresh POST at most once,
    never a third request. An answer other than 401 (or a network
    failure) is the result, after that one call. On a 401 the refresh is
    run exactly once, and sends its one POST when a refresh token is
    stored. When the refresh gives a token, the request is retried
    exactly once with it and whatever that second call settles to is
    the result, a second 401 included. When it gives none, the browser
    is sent to [/login] and "Authentication failed" is thrown with no
    retry. So a backend that answers 401 to the request and to the
    refresh POST (or fails that POST in any other way) sees exactly two
    calls, after which the three keys of the session are removed, the
    location is [/login] and the authentication failure is thrown. *)
Theorem fetchWithAuth_retries_once url options (w : World B) access result1 w1 :
  storage w !! ACCESS_TOKEN_KEY = Some access ->
  access <> [] ->
  served env w url (with_bearer options access) = (result1, w1) ->
  let first := with_bearer options access in
  let c1 := {| call_url := url; call_options := first; call_result := result1 |} in
  (* never a third call *)
  (exists calls,
      trace (snd (fetchWithAuth env url options w)) = trace w ++ calls
      /\ length (List.filter carries_bearer calls) <= 2
      /\ length (List.filter (fun c => negb (carries_bearer c)) calls) <= 1)
  (* an answer other than 401: one call *)
  /\ ((forall res, result1 = Responded res -> status res <> 401%N) ->
      fetchWithAuth env url options w = (settled c1, w1)
      /\ trace w1 = trace w ++ [c1])
  (* an answer of 401: one refresh *)
  /\ (forall res1, result1 = Responded res1 -> status res1 = 401%N ->
      exists newAccess w2 posts,
        refreshAccessToken env w1 = (Normal newAccess, w2)
        /\ trace w2 = trace w ++ c1 :: posts
        /\ location w2 = location w
        /\ (if item_truthy (storage w !! REFRESH_TOKEN_KEY)
            then exists post, posts = [post] /\ refresh_post env post
            else posts = [])
        (* a refresh that succeeded: one retry, returned whatever its status *)
        /\ (val_truthy newAccess = true ->
            storage w2 !! ACCESS_TOKEN_KEY = Some (val_ToString newAccess)
            /\ forall result2 w3,
                served env w2 url (with_bearer first (val_ToString newAccess))
                = (result2, w3) ->
                let c2 := {| call_url := url;
                             call_options := with_bearer first (val_ToString newAccess);
                             call_result := result2 |} in
                fetchWithAuth env url options w = (settled c2, w3)
                /\ trace w3 = trace w ++ c1 :: posts ++ [c2]
                /\ storage w3 = storage w2
                /\ location w3 = location w)
        (* a refresh that gave no token: login, no retry *)
        /\ (val_truthy newAccess = false ->
            exists w',
              fetchWithAuth env url options w
              = (Throw (Error (js "Authentication failed")), w')
              /\ trace w' = trace w ++ c1 :: posts
              /\ storage w' = storage w2
              /\ location w' = Some (js "/login")))
  (* 401 to the request and a refresh POST that fails *)
  /\ (forall res1 refresh result_p wp,
        result1 = Responded res1 -> status res1 = 401%N ->
        storage w !! REFRESH_TOKEN_KEY = Some refresh -> refresh <> [] ->
        served env w1 (refresh_url env) (refresh_options env refresh) = (result_p, wp) ->
        post_failed result_p ->
        exists w',
          fetchWithAuth env url options w
          = (Throw (Error (js "Authentication failed")), w')
          /\ trace w' = trace w ++ [c1; {| call_url := refresh_url env;
                                           call_options := refresh_options env refresh;
                                           call_result := result_p |}]
          /\ session_cleared w'
          /\ location w' = Some (js "/login"))
  (* 401 to the request and a refresh POST that issues a token *)
  /\ (forall res1 refresh res_p wp data token,
        result1 = Responded res1 -> status res1 = 401%N ->
        storage w !! REFRESH_TOKEN_KEY = Some refresh -> refresh <> [] ->
        served env w1 (refresh_url env) (refresh_options env refresh)
        = (Responded res_p, wp) ->
        ok res_p = true -> json_body res_p = Normal data ->
        get_prop data "access" = Normal token -> val_truthy token = true ->
        exists w2,
          refreshAccessToken env w1 = (Normal token, w2)
          /\ forall result2 w3,
               served env w2 url (with_bearer first (val_ToString token))
               = (result2, w3) ->
               let post := {| call_url := refresh_url env;
                              call_options := refresh_options env refresh;
                              call_result := Responded res_p |} in
               let c2 := {| call_url := url;
                            call_options := with_bearer first (val_ToString token);
                            call_result := result2 |} in
               fetchWithAuth env url options w = (settled c2, w3)
               /\ trace w3 = trace w ++ [c1; post; c2]
               /\ storage w3 !! ACCESS_TOKEN_KEY = Some (val_ToString token)
               /\ location w3 = location w).
Proof.
  intros Hstored Hne Hserved1 first c1.
  destruct (served_frame _ _ _ _ _ Hserved1) as (Hst1 & Hloc1 & Htr1).
  fold first in Htr1. fold c1 in Htr1.
  assert (Hb1 : carries_bearer c1 = true).
  { apply (with_bearer_carries c1 url options access). split; reflexivity. }
  (* the run whose first call is not answered 401 *)
  assert (Hone : (forall res, result1 = Responded res -> status res <> 401%N) ->
                 fetchWithAuth env url options w = (settled c1, w1)).
  { intros Hnot. destruct result1 as [res|e].
    - apply (fetchWithAuth_answered url options w access); auto.
    - apply (fetchWithAuth_rejected url options w access); auto. }
  assert (Hcount1 : (forall res, result1 = Responded res -> status res <> 401%N) ->
            exists calls,
              trace (snd (fetchWithAuth env url options w)) = trace w ++ calls
              /\ length (List.filter carries_bearer calls) <= 2
              /\ length (List.filter (fun c => negb (carries_bearer c)) calls) <= 1).
  { intros Hnot. rewrite (Hone Hnot). exists [c1]. split; [exact Htr1|].
    cbn [List.filter]. rewrite Hb1. cbn [negb length]. lia. }
  (* the run whose first call is answered 401 *)
  assert (Hexpired : forall res1, result1 = Responded res1 -> status res1 = 401%N ->
      exists newAccess w2 posts,
        refreshAccessToken env w1 = (Normal newAccess, w2)
        /\ trace w2 = trace w ++ c1 :: posts
        /\ location w2 = location w
        /\ (if item_truthy (storage w !! REFRESH_TOKEN_KEY)
            then exists post, posts = [post] /\ refresh_post env post
            else posts = [])
        /\ (val_truthy newAccess = true ->
            storage w2 !! ACCESS_TOKEN_KEY = Some (val_ToString newAccess))).
  { intros res1 -> H401.
    destruct (refreshAccessToken_effects w1)
      as (newAccess & w2 & posts & Hrefresh & Hloc2 & Htr2 & Hattempt).
    exists newAccess, w2, posts. split; [exact Hrefresh|].
    split; [rewrite Htr2, Htr1, <- app_assoc; reflexivity|].
    split; [congruence|]. split.
    - rewrite <- Hst1.
      destruct (item_truthy (storage w1 !! REFRESH_TOKEN_KEY)) eqn:Hitem.
      + destruct (storage w1 !! REFRESH_TOKEN_KEY) as [refresh|] eqn:Hrefr;
          [|discriminate].
        assert (Hne' : refresh <> []).
        { destruct refresh; [discriminate|congruence]. }
        destruct (served env w1 (refresh_url env) (refresh_options env refresh))
          as [result_p wp] eqn:Hserved_p.
        pose proof (refreshAccessToken_sends _ _ _ _ Hrefr Hne' Hserved_p) as Hsends.
        rewrite Hrefresh in Hsends. cbn [snd] in Hsends.
        destruct (served_frame _ _ _ _ _ Hserved_p) as (_ & _ & Htrp).
        rewrite Htr2, Htrp in Hsends. apply app_inv_head in Hsends.
        eexists. split; [exact Hsends|]. exists refresh. split; reflexivity.
      + rewrite (refreshAccessToken_no_token w1 Hitem) in Hrefresh.
        injection Hrefresh as _ <-.
        rewrite <- (app_nil_r (trace w1)) in Htr2 at 1.
        apply app_inv_head in Htr2. now symmetry.
    - intros Hnew.
      destruct Hattempt as [(_ & -> & _)|(post & _ & _ & _ & Hgood & _)];
        [discriminate Hnew|].
      now destruct (Hgood Hnew). }
  split; [|split; [|split; [|split]]].
  - destruct result1 as [res|e].
    + destruct (N.eq_dec (status res) 401%N) as [H401|Hnot].
      * destruct (Hexpired res eq_refl H401)
          as (newAccess & w2 & posts & Hrefresh & Htr2 & _ & Hposts & _).
        rewrite (fetchWithAuth_expired _ _ _ _ _ _ _ _ Hstored Hne Hserved1 H401 Hrefresh).
        assert (Hp : List.filter carries_bearer posts = []
                     /\ length (List.filter (fun c => negb (carries_bearer c)) posts)
                        <= 1).
        { destruct (item_truthy (storage w !! REFRESH_TOKEN_KEY)).
          - destruct Hposts as (post & -> & Hpost). cbn [List.filter].
            rewrite (refresh_post_no_bearer _ Hpost). simpl. split; [reflexivity|lia].
          - subst posts. simpl. split; [reflexivity|lia]. }
        destruct Hp as [Hpb Hpn].
        destruct (val_truthy newAccess).
        -- destruct (served env w2 url
                       (with_bearer (with_bearer options access) (val_ToString newAccess)))
             as [result2 w3] eqn:Hserved2.
           rewrite (settled_fetch _ _ _ _ _ Hserved2). cbn [snd].
           destruct (served_frame _ _ _ _ _ Hserved2) as (_ & _ & Htr3).
           eexists. split; [rewrite Htr3, Htr2, <- app_assoc; reflexivity|].
           cbn [List.filter app]. rewrite !List.filter_app. cbn [List.filter].
           rewrite Hb1, Hpb.
           rewrite (with_bearer_carries _ url (with_bearer options access)
                      (val_ToString newAccess)) by (split; reflexivity).
           cbn [negb app length]. rewrite length_app. cbn [length]. lia.
        -- cbn [snd trace]. exists (c1 :: posts). split; [exact Htr2|].
           cbn [List.filter]. rewrite Hb1, Hpb. cbn [negb length]. lia.
      * apply Hcount1. intros res' [= <-]. exact Hnot.
    + apply Hcount1. intros res' [=].
  - intros Hnot. split; [exact (Hone Hnot)|exact Htr1].
  - intros res1 Hres1 H401.
    destruct (Hexpired res1 Hres1 H401)
      as (newAccess & w2 & posts & Hrefresh & Htr2 & Hloc2 & Hposts & Hstored2).
    subst result1.
    pose proof (fetchWithAuth_expired _ _ _ _ _ _ _ _ Hstored Hne Hserved1 H401 Hrefresh)
      as Hrun.
    exists newAccess, w2, posts.
    split; [exact Hrefresh|]. split; [exact Htr2|]. split; [exact Hloc2|].
    split; [exact Hposts|]. split.
    + intros Hnew. split; [exact (Hstored2 Hnew)|].
      intros result2 w3 Hserved2 c2. rewrite Hnew in Hrun.
      destruct (served_frame _ _ _ _ _ Hserved2) as (Hst3 & Hloc3 & Htr3).
      split; [rewrite Hrun; exact (settled_fetch _ _ _ _ _ Hserved2)|].
      split; [rewrite Htr3, Htr2, <- app_assoc; reflexivity|].
      split; [exact Hst3|congruence].
    + intros Hnew. rewrite Hnew in Hrun. eexists. split; [exact Hrun|].
      repeat split. exact Htr2.
  - intros res1 refresh result_p wp -> H401 Hrefr Hne' Hserved_p Hfail.
    rewrite <- Hst1 in Hrefr.
    destruct (refreshAccessToken_failure _ _ _ _ Hrefr Hne' Hserved_p Hfail)
      as (w2 & Hrefresh & Hcleared & Htr2 & _).
    rewrite (fetchWithAuth_expired _ _ _ _ _ _ _ _ Hstored Hne Hserved1 H401 Hrefresh).
    cbn [val_truthy truthy]. eexists. split; [reflexivity|].
    destruct (served_frame _ _ _ _ _ Hserved_p) as (_ & _ & Htrp).
    split; [cbn [trace]; rewrite Htr2, Htrp, Htr1, <- app_assoc; reflexivity|].
    split; [exact Hcleared|reflexivity].
  - intros res1 refresh res_p wp data token -> H401 Hrefr Hne' Hserved_p
           Hok Hdata Htoken Htruthy.
    rewrite <- Hst1 in Hrefr.
    pose proof (get_prop_defined _ _ _ "refresh" Htoken) as Hnew_refresh.
    destruct (refreshAccessToken_success _ _ _ _ _ _ _ Hrefr Hne' Hserved_p
                Hok Hdata Htoken Htruthy Hnew_refresh) as (w2 & Hrefresh & Hsave).
    destruct (saveTokens_spec token
                (or_else (own_prop data "refresh") (Some (JStr refresh))) None wp)
      as (w2' & Hsave' & _ & Htr2 & Hloc2 & Ha & _).
    rewrite Hsave in Hsave'. injection Hsave' as <-.
    rewrite Htruthy in Ha.
    exists w2. split; [exact Hrefresh|].
    intros result2 w3 Hserved2 post c2.
    pose proof (fetchWithAuth_expired _ _ _ _ _ _ _ _ Hstored Hne Hserved1 H401 Hrefresh)
      as Hrun.
    rewrite Htruthy in Hrun.
    destruct (served_frame _ _ _ _ _ Hserved2) as (Hst3 & Hloc3 & Htr3).
    destruct (served_frame _ _ _ _ _ Hserved_p) as (_ & Hlocp & Htrp).
    split; [rewrite Hrun; exact (settled_fetch _ _ _ _ _ Hserved2)|].
    split; [rewrite Htr3, Htr2, Htrp, Htr1, <- !app_assoc; reflexivity|].
    split; [rewrite Hst3; exact Ha|congruence].
Qed.

(** [handleApiResponse] leaves the world alone, gives the body of a
    success response and throws on any other. *)
Lemma handleApiResponse_ok response (w : World B) :
  ok response = true ->
  handleApiResponse response w = (json_body response, w).
Proof. intros Hok. unfold handleApiResponse. rewrite Hok. reflexivity. Qed.

Lemma handleApiResponse_not_ok response (w : World B) :
  ok response = false ->
  exists e, handleApiResponse response w = (Throw e, w).
Proof.
  intros Hok. unfold handleApiResponse, bind, try_catch, lift, throw, ret.
  rewrite Hok. cbn [negb].
  destruct (json_body response) as [error|e].
  - destruct (get_prop error "detail") as [detail|e1] eqn:Hd; [|eauto].
    destruct (get_prop error "message") as [message|e2] eqn:Hm; [eauto|].
    destruct error; discriminate.
  - cbn. eauto.
Qed.

(** C7 (amended): [getAuthUser] gives [null] when nothing, or the empty
    string, is stored under the cached-user key, and the parsed value
    when the stored text is JSON; no world state changes. For a stored
    text that is not empty and not JSON the [SyntaxError] of
    [JSON.parse] is not caught: the operation throws it to its caller. *)
Theorem getAuthUser_outcomes (w : World B) :
  (item_truthy (storage w !! AUTH_USER_KEY) = false ->
     getAuthUser w = (Normal JNull, w))
  /\ (forall text,
        storage w !! AUTH_USER_KEY = Some text ->
        text <> [] ->
        (forall v, JSON_parse text = Normal v -> getAuthUser w = (Normal v, w))
        /\ (forall e, JSON_parse text = Throw e ->
              getAuthUser w = (Throw e, w) /\ exn_name e = "SyntaxError"%string)).
Proof.
  unfold getAuthUser, bind, getItem, gets, lift, ret. split.
  - destruct (storage w !! AUTH_USER_KEY) as [[|c t]|];
      [reflexivity|discriminate|reflexivity].
  - intros text -> Hne. destruct text as [|c t]; [congruence|].
    cbn [str_truthy]. split.
    + intros v ->. reflexivity.
    + intros e He. rewrite He. split; [reflexivity|].
      unfold JSON_parse in He.
      destruct (lex LStart (c :: t)) as [ts|];
        [destruct (parse_tokens ([], EValue) ts)|];
        inversion He; reflexivity.
Qed.

End Session.

(** C7, as stated, fails: with the text [{] stored under the cached-user
    key, [getAuthUser] throws a [SyntaxError] instead of giving [null]. *)
Lemma getAuthUser_throws_on_unparsable_text :
  let w := Scenario.world_with [("authUser"%string, js "{")] in
  Auth.getAuthUser w = (Throw (SyntaxError (js "Unexpected token in JSON")), w).
Proof. reflexivity. Qed.

Lemma getAuthUser_outcomes_witness :
  let user := Scenario.object [("username"%string, JStr (js "asha"));
                               ("is_staff"%string, JBool false)] in
  let text := Scenario.stringify 16 user in
  let w := Scenario.world_with [("authUser"%string, text)] in
  storage w !! Auth.AUTH_USER_KEY = Some text
  /\ text <> []
  /\ JSON_parse text = Normal user
  /\ Auth.getAuthUser w = (Normal user, w).
Proof.
  intros user text w.
  assert (Hne : text <> []) by (vm_compute; discriminate).
  split; [reflexivity|]. split; [exact Hne|]. split; [reflexivity|].
  exact (proj1 (proj2 (getAuthUser_outcomes w) text eq_refl Hne) user eq_refl).
Defined.

Lemma fetchWithAuth_retries_once_witness :
  let w := SessionScenario.signed_in in
  let url := SessionScenario.documents_url in
  (* 401 to the request and to the refresh POST *)
  (exists w',
      Auth.fetchWithAuth SessionScenario.revoked url no_options w
      = (Throw (Error (js "Authentication failed")), w')
      /\ List.map call_url (trace w') = [url; Auth.refresh_url SessionScenario.revoked]
      /\ session_cleared w'
      /\ location w' = Some (js "/login"))
  (* 401 to the request and to its retry, a token issued in between *)
  /\ (exists w',
        Auth.fetchWithAuth SessionScenario.rejecting url no_options w
        = (Normal SessionScenario.unauthorized, w')
        /\ List.map call_url (trace w')
           = [url; Auth.refresh_url SessionScenario.rejecting; url]
        /\ storage w' !! Auth.ACCESS_TOKEN_KEY = Some (js "fresh")
        /\ location w' = None).
Proof.
  intros w url.
  assert (Hne : js "stale" <> []) by (vm_compute; discriminate).
  assert (Hne' : js "r1" <> []) by (vm_compute; discriminate).
  split.
  - pose (env := SessionScenario.revoked).
    pose (first := Auth.with_bearer no_options (js "stale")).
    pose (w1 := snd (served env w url first)).
    destruct (fetchWithAuth_retries_once env url no_options w (js "stale")
                (Responded SessionScenario.unauthorized) w1
                eq_refl Hne eq_refl) as (_ & _ & _ & Htwice & _).
    destruct (Htwice SessionScenario.unauthorized (js "r1")
                (Responded SessionScenario.unauthorized)
                (snd (served env w1 (Auth.refresh_url env)
                        (Auth.refresh_options env (js "r1"))))
                eq_refl eq_refl eq_refl Hne' eq_refl eq_refl)
      as (w' & Hrun & Htrace & Hcleared & Hloc).
    exists w'. split; [exact Hrun|]. split; [|split; [exact Hcleared|exact Hloc]].
    rewrite Htrace. reflexivity.
  - pose (env := SessionScenario.rejecting).
    pose (first := Auth.with_bearer no_options (js "stale")).
    pose (w1 := snd (served env w url first)).
    destruct (fetchWithAuth_retries_once env url no_options w (js "stale")
                (Responded SessionScenario.unauthorized) w1
                eq_refl Hne eq_refl) as (_ & _ & _ & _ & Hretry).
    destruct (Hretry SessionScenario.unauthorized (js "r1")
                SessionScenario.refreshed
                (snd (served env w1 (Auth.refresh_url env)
                        (Auth.refresh_options env (js "r1"))))
                (Scenario.object [("access"%string, JStr (js "fresh"))])
                (Some (JStr (js "fresh")))
                eq_refl eq_refl eq_refl Hne' eq_refl eq_refl eq_refl eq_refl eq_refl)
      as (w2 & _ & Hagain).
    destruct (Hagain (Responded SessionScenario.unauthorized)
                (snd (served env w2 url (Auth.with_bearer first (js "fresh"))))
                eq_refl)
      as (Hrun & Htrace & Haccess & Hloc).
    eexists. split; [exact Hrun|]. split; [|split; [exact Haccess|exact Hloc]].
    rewrite Htrace. reflexivity.
Defined.

Lemma refreshAccessToken_outcomes_witness :
  let w := SessionScenario.signed_in in
  storage w !! Auth.REFRESH_TOKEN_KEY = Some (js "r1")
  /\ js "r1" <> []
  /\ exists w',
       Auth.refreshAccessToken SessionScenario.refresh_down w
       = (Normal (Some JNull), w')
       /\ storage w' !! Auth.ACCESS_TOKEN_KEY = None
       /\ storage w' !! Auth.REFRESH_TOKEN_KEY = None
       /\ storage w' !! Auth.AUTH_USER_KEY = None.
Proof.
  intros w.
  assert (Hne : js "r1" <> []) by (vm_compute; discriminate).
  split; [reflexivity|]. split; [exact Hne|].
  destruct (proj1 (proj2 (refreshAccessToken_outcomes SessionScenario.refresh_down w)
                     (js "r1") (Rejected (TypeError (js "Failed to fetch")))
                     (snd (served SessionScenario.refresh_down w
                             (Auth.refresh_url SessionScenario.refresh_down)
                             (Auth.refresh_options SessionScenario.refresh_down (js "r1"))))
                     eq_refl Hne eq_refl) I)
    as (w' & Hrun & Hcleared & _).
  exists w'. split; [exact Hrun|]. exact Hcleared.
Defined.

(** ** The Review view *)

Section ReviewFields.
Import ReviewPage.

(** The three class names of a row agree on its state: red when the
    validation status is not [passed], else yellow when the value is the
    empty string, else neutral. *)
Lemma field_row_classes (f : Field) :
  (validation_status f <> js "passed" ->
     rowClass f = js "bg-red-50 ring-1 ring-red-200"
     /\ labelClass f = js "text-red-700"
     /\ inputClass f = js "border-red-300 focus:ring-red-500 focus:border-red-500")
  /\ (validation_status f = js "passed" -> field_value f = [] ->
        rowClass f = js "bg-yellow-50 ring-1 ring-yellow-200"
        /\ labelClass f = js "text-yellow-700"
        /\ inputClass f
           = js "border-yellow-300 focus:ring-yellow-500 focus:border-yellow-500")
  /\ (validation_status f = js "passed" -> field_value f <> [] ->
        rowClass f = js ""
        /\ labelClass f = js "text-gray-700"
        /\ inputClass f
           = js "border-gray-300 focus:ring-indigo-500 focus:border-indigo-500").
Proof.
  unfold rowClass, labelClass, inputClass, not_passed, no_value, str_eqb.
  repeat split.
  1-3: rewrite bool_decide_eq_false_2 by assumption; reflexivity.
  1-3: rewrite bool_decide_eq_true_2 by assumption; rewrite H0; reflexivity.
  1-3: rewrite bool_decide_eq_true_2 by assumption;
       destruct (field_value f); [congruence|reflexivity].
Qed.

(** The count of fields needing attention is the number of fields whose
    validation status is not [passed]. *)
Lemma failedFields_count (fields : list Field) :
  failedFields fields
  = length (List.filter
              (fun f => negb (bool_decide (validation_status f = js "passed")))
              fields).
Proof. reflexivity. Qed.

(** The count of missing fields is the number of fields whose value is
    empty or made of white space only. *)
Lemma missingFields_count (fields : list Field) :
  missingFields fields
  = length (List.filter (fun f => forallb is_white (field_value f)) fields).
Proof.
  unfold missingFields. f_equal. apply filter_ext. intros f.
  unfold no_value, str_eqb.
  destruct (forallb is_white (field_value f)) eqn:E.
  - apply trim_nil_iff in E. rewrite E.
    rewrite bool_decide_eq_true_2 by reflexivity. apply orb_true_r.
  - destruct (field_value f) as [|c v] eqn:Ev; [discriminate E|].
    cbn [str_truthy negb orb]. apply bool_decide_eq_false_2.
    intros Htrim. change (js "") with (@nil N) in Htrim.
    apply trim_nil_iff in Htrim. congruence.
Qed.

(** C8, where the code departs from it: a field whose validation status
    is [passed] and whose value is one space is counted among the
    missing fields, and its row, label and input are rendered neutral,
    not yellow. *)
Theorem blank_value_row_is_neutral :
  let f := {| id := JNum (num_of_N 3);
              field_name := js "guardian_name";
              field_value := js " ";
              confidence_score := JNum (num_of_N 40);
              validation_status := js "passed" |} in
  forallb is_white (field_value f) = true
  /\ missingFields [f] = 1
  /\ failedFields [f] = 0
  /\ rowClass f = js ""
  /\ labelClass f = js "text-gray-700"
  /\ inputClass f = js "border-gray-300 focus:ring-indigo-500 focus:border-indigo-500".
Proof. vm_compute. repeat split. Qed.

End ReviewFields.

Section ReviewFinalize.
Context {B : Type} (env : Env B).
Import ReviewPage.

Lemma get_prop_truthy (v : json) k :
  truthy v = true -> get_prop v k = Normal (own_prop v k).
Proof. destruct v; [discriminate|reflexivity..]. Qed.

Lemma ok_not_401 res : ok res = true -> status res <> 401%N.
Proof.
  unfold ok. intros H Heq. rewrite Heq in H. discriminate H.
Qed.

(** The finalize POST is answered with a failure status other than 401:
    the PATCH is never sent, whatever the backend would do with it, and
    finalization ends in the error of that answer, with no success
    message and no navigation scheduled. *)
Lemma acceptAndFinalize_on_failure_status (p : Page B State) access res w1 :
  truthy (doc (ui p)) = true ->
  storage (world p) !! Auth.ACCESS_TOKEN_KEY = Some access ->
  access <> [] ->
  served env (world p) (finalize_url env (own_prop (doc (ui p)) "id"))
    (Auth.with_bearer finalize_options access) = (Responded res, w1) ->
  status res <> 401%N ->
  ok res = false ->
  exists text,
    acceptAndFinalize env p
    = (Normal tt,
       {| ui := {| loading := loading (ui p); doc := doc (ui p);
                   fields := fields (ui p); message := None;
                   error := Some text |};
          world := w1; navigations := navigations p; timers := timers p |}).
Proof.
  intros Hdoc Hstored Hne Hserved H401 Hok.
  destruct (handleApiResponse_not_ok res w1 Hok) as [e He].
  exists (if str_truthy (exn_message e) then exn_message e
          else js "Failed to finalize document").
  unfold acceptAndFinalize. unfold bind at 1, gets. rewrite Hdoc. cbn [negb].
  unfold try_catch, bind, in_world, setMessage, setError, set_state, modify,
    lift, ret, setTimeout_navigate.
  cbn [ui world navigations timers doc loading fields message error].
  rewrite (get_prop_truthy _ _ Hdoc).
  rewrite (fetchWithAuth_answered env _ _ _ _ _ _ Hstored Hne Hserved H401).
  cbn [ui world navigations timers]. rewrite He. reflexivity.
Qed.

(** The fallback the code has: when the finalize POST cannot be made
    and the PATCH is accepted, finalization succeeds, with the success
    message shown and the navigation to the list scheduled after 2000
    milliseconds. *)
Lemma acceptAndFinalize_falls_back (p : Page B State) access e w1 res w2 v :
  truthy (doc (ui p)) = true ->
  storage (world p) !! Auth.ACCESS_TOKEN_KEY = Some access ->
  access <> [] ->
  served env (world p) (finalize_url env (own_prop (doc (ui p)) "id"))
    (Auth.with_bearer finalize_options access) = (Rejected e, w1) ->
  served env w1 (document_url env (own_prop (doc (ui p)) "id"))
    (Auth.with_bearer (approve_options env) access) = (Responded res, w2) ->
  ok res = true ->
  json_body res = Normal v ->
  acceptAndFinalize env p
  = (Normal tt,
     {| ui := {| loading := loading (ui p); doc := doc (ui p);
                 fields := fields (ui p);
                 message :=
                   Some {| msg_type := js "success";
                           text := js "Document finalized successfully! Redirecting to document list..." |};
                 error := None |};
        world := w2; navigations := navigations p;
        timers := timers p ++ [(2000%N, js "/bulk-review")] |}).
Proof.
  intros Hdoc Hstored Hne Hpost Hpatch Hok Hbody.
  destruct (served_frame env _ _ _ _ _ Hpost) as (Hst1 & _ & _).
  assert (Hstored1 : storage w1 !! Auth.ACCESS_TOKEN_KEY = Some access)
    by now rewrite Hst1.
  unfold acceptAndFinalize. unfold bind at 1, gets. rewrite Hdoc. cbn [negb].
  unfold try_catch, bind, in_world, setMessage, setError, set_state, modify,
    lift, ret, setTimeout_navigate.
  cbn [ui world navigations timers doc loading fields message error].
  rewrite (get_prop_truthy _ _ Hdoc).
  rewrite (fetchWithAuth_rejected env _ _ _ _ _ _ Hstored Hne Hpost).
  cbn [ui world navigations timers].
  rewrite (fetchWithAuth_answered env _ _ _ _ _ _ Hstored1 Hne Hpatch (ok_not_401 _ Hok)).
  cbn [ui world navigations timers].
  rewrite (handleApiResponse_ok res w2 Hok), Hbody. reflexivity.
Qed.

End ReviewFinalize.

(** C3, where the code departs from it: against a backend whose
    finalize endpoint answers 404 and whose PATCH endpoint accepts the
    approval, accept-and-finalize sends the POST only, never the PATCH,
    and ends with the error of the 404 shown, no success message and no
    navigation scheduled. *)
Theorem finalize_failure_status_skips_fallback :
  let run := ReviewPage.acceptAndFinalize ReviewScenario.no_finalize_action
               ReviewScenario.reviewing in
  fst run = Normal tt
  /\ ReviewPage.error (ui (snd run)) = Some (js "Not found.")
  /\ ReviewPage.message (ui (snd run)) = None
  /\ timers (snd run) = []
  /\ navigations (snd run) = []
  /\ List.map (fun c => (call_url c, method (call_options c)))
       (trace (world (snd run)))
     = [(js "http://localhost:8000/api/documents/7/finalize/", Some (js "POST"))].
Proof. vm_compute. repeat split. Qed.

(** The fallback as the code has it: when the POST to the finalize
    endpoint throws, the PATCH is sent, and its acceptance gives the
    success message and the navigation to the list after 2000 ms. *)
Lemma finalize_falls_back_when_the_call_throws :
  let run := ReviewPage.acceptAndFinalize ReviewScenario.finalize_unreachable
               ReviewScenario.reviewing in
  fst run = Normal tt
  /\ ReviewPage.error (ui (snd run)) = None
  /\ ReviewPage.message (ui (snd run))
     = Some {| ReviewPage.msg_type := js "success";
               ReviewPage.text :=
                 js "Document finalized successfully! Redirecting to document list..." |}
  /\ timers (snd run) = [(2000%N, js "/bulk-review")]
  /\ navigations (snd run) = []
  /\ List.map (fun c => (call_url c, method (call_options c)))
       (trace (world (snd run)))
     = [(js "http://localhost:8000/api/documents/7/finalize/", Some (js "POST"));
        (js "http://localhost:8000/api/documents/7/", Some (js "PATCH"))].
Proof. vm_compute. repeat split. Qed.

(** ** The Login view *)

Section Login.
Context {B : Type} (env : Env B).
Import LoginPage.

(** An account is administrative on any one of three signals. *)
Lemma isAdminAccount_iff (profile : json) :
  isAdminAccount profile = true
  <-> opt_prop profile "role" = Some (JStr (js "admin"))
      \/ opt_prop profile "is_staff" = Some (JBool true)
      \/ opt_prop profile "is_superuser" = Some (JBool true).
Proof.
  unfold isAdminAccount, val_is_str, val_is_true, str_eqb.
  rewrite !orb_true_iff. split.
  - intros [[H|H]|H].
    + left. destruct (opt_prop profile "role") as [v|]; [destruct v|];
        try discriminate H.
      apply bool_decide_eq_true in H. now subst.
    + right. left.
      destruct (opt_prop profile "is_staff") as [v|]; [destruct v as [|[]| | | |]|];
        try discriminate H; reflexivity.
    + right. right.
      destruct (opt_prop profile "is_superuser") as [v|]; [destruct v as [|[]| | | |]|];
        try discriminate H; reflexivity.
  - intros [H|[H|H]]; rewrite H; auto.
Qed.



End Login.


(** ** The attendance table *)

Section AttendanceUniqueness.
Import Models.

Lemma same_key_student_date r r' :
  same_key unique_together r r' = true
  <-> student r = student r' /\ date r = date r'.
Proof.
  unfold same_key, unique_together. cbn [forallb]. unfold column. cbn [String.eqb Ascii.eqb Bool.eqb].
  destruct (date r) as [[y m] d], (date r') as [[y' m'] d'].
  rewrite !andb_true_iff, !negb_true_iff, !bool_decide_eq_true, !bool_decide_eq_false.
  split.
  - intros [[H1 _] [[H2 _] _]]. split; congruence.
  - intros [H1 H2]. repeat split; congruence.
Qed.

Lemma same_key_id r r' : same_key ["id"%string] r r' = true <-> id r = id r'.
Proof.
  unfold same_key. cbn [forallb]. unfold column. cbn [String.eqb Ascii.eqb Bool.eqb].
  rewrite !andb_true_iff, !negb_true_iff, !bool_decide_eq_true, !bool_decide_eq_false.
  split.
  - intros [[H _] _]. congruence.
  - intros H. repeat split; congruence.
Qed.

(** Two rows conflict when they have the same primary key or the same
    student and date. *)
Lemma conflict_iff r r' :
  conflict r r' = true
  <-> id r = id r' \/ (student r = student r' /\ date r = date r').
Proof.
  unfold conflict, constraints. cbn [existsb].
  rewrite !orb_true_iff, same_key_id, same_key_student_date.
  intuition discriminate.
Qed.

Lemma conflict_sym r r' : conflict r r' = conflict r' r.
Proof.
  apply eq_true_iff_eq. rewrite !conflict_iff. intuition congruence.
Qed.

Lemma consistent_snoc table r :
  consistent table -> existsb (conflict r) table = false ->
  consistent (table ++ [r]).
Proof.
  unfold consistent. induction 1 as [|r0 t Hr0 Ht IH]; intros Hfree; simpl.
  - constructor; [constructor|constructor].
  - simpl in Hfree. apply orb_false_iff in Hfree as [H0 Hrest].
    constructor; [|now apply IH].
    apply Forall_app. split; [exact Hr0|].
    constructor; [|constructor]. now rewrite conflict_sym.
Qed.

Lemma consistent_filter (keep : Attendance -> bool) table :
  consistent table -> consistent (List.filter keep table).
Proof.
  unfold consistent. induction 1 as [|r0 t Hr0 Ht IH]; simpl; [constructor|].
  destruct (keep r0); [|exact IH].
  constructor; [|exact IH].
  rewrite List.Forall_forall in *. intros r' Hin.
  apply filter_In in Hin as [Hin _]. now apply Hr0.
Qed.

Lemma consistent_replace r table :
  consistent table ->
  existsb (conflict r)
    (List.filter (fun r' => negb (Z.eqb (id r') (id r))) table) = false ->
  consistent (List.map (fun r' => if Z.eqb (id r') (id r) then r else r') table).
Proof.
  unfold consistent. induction 1 as [|r0 t Hr0 Ht IH]; intros Hfree; simpl;
    [constructor|].
  assert (Hrest : existsb (conflict r)
            (List.filter (fun r' => negb (Z.eqb (id r') (id r))) t) = false).
  { simpl in Hfree. destruct (Z.eqb (id r0) (id r)); simpl in Hfree; [exact Hfree|].
    now apply orb_false_iff in Hfree as [_ H]. }
  constructor; [|now apply IH].
  rewrite List.Forall_forall in *. intros r' Hin.
  apply in_map_iff in Hin as (r1 & <- & Hin1).
  pose proof (Hr0 r1 Hin1) as H01.
  assert (Hid : id r0 <> id r1).
  { intros Heq. apply not_true_iff_false in H01. apply H01, conflict_iff. now left. }
  destruct (Z.eqb_spec (id r0) (id r)) as [E0|N0];
    destruct (Z.eqb_spec (id r1) (id r)) as [E1|N1].
  - congruence.
  - (* r0 is replaced by r; r1 stays and was checked against r *)
    apply not_true_iff_false. intros Hc.
    apply not_true_iff_false in Hrest. apply Hrest.
    apply existsb_exists. exists r1. split; [|exact Hc].
    apply filter_In. split; [exact Hin1|].
    apply negb_true_iff. now apply Z.eqb_neq.
  - (* r1 is replaced by r; r0 stays and was checked against r *)
    simpl in Hfree. destruct (Z.eqb_spec (id r0) (id r)) as [|_]; [congruence|].
    simpl in Hfree. apply orb_false_iff in Hfree as [H _].
    now rewrite conflict_sym.
  - exact H01.
Qed.

(** Among the records with another primary key, a record meets a
    conflict exactly when one of them has its student and date. *)
Lemma conflict_among_others r table :
  existsb (conflict r)
    (List.filter (fun r' => negb (Z.eqb (id r') (id r))) table) = true
  <-> exists r', In r' table /\ id r' <> id r
                 /\ student r' = student r /\ date r' = date r.
Proof.
  rewrite existsb_exists. split.
  - intros (r' & Hin & Hc). apply filter_In in Hin as [Hin Hid].
    apply negb_true_iff, Z.eqb_neq in Hid.
    apply conflict_iff in Hc as [Hc|[Hs Hd]]; [congruence|].
    exists r'. auto.
  - intros (r' & Hin & Hid & Hs & Hd). exists r'. split.
    + apply filter_In. split; [exact Hin|].
      now apply negb_true_iff, Z.eqb_neq.
    + apply conflict_iff. right. auto.
Qed.

Lemma filter_others_fresh r table :
  existsb (fun r' => Z.eqb (id r') (id r)) table = false ->
  List.filter (fun r' => negb (Z.eqb (id r') (id r))) table = table.
Proof.
  induction table as [|r0 t IH]; simpl; [reflexivity|].
  intros H. apply orb_false_iff in H as [H0 Ht].
  rewrite H0. simpl. now rewrite IH.
Qed.

(** What a write that was not refused leaves in the table. *)
Lemma persist_accepted r table t' :
  persist r table = inr t' ->
  existsb (conflict r)
    (List.filter (fun r' => negb (Z.eqb (id r') (id r))) table) = false
  /\ t' = (if existsb (fun r' => Z.eqb (id r') (id r)) table
           then List.map (fun r' => if Z.eqb (id r') (id r) then r else r') table
           else table ++ [r]).
Proof.
  unfold persist.
  destruct (existsb (conflict r) _); [discriminate|].
  destruct (existsb (fun r' => Z.eqb (id r') (id r)) table);
    intros [= <-]; auto.
Qed.

Lemma persist_stores r table t' : persist r table = inr t' -> In r t'.
Proof.
  intros H. apply persist_accepted in H as [_ ->].
  destruct (existsb (fun r' => Z.eqb (id r') (id r)) table) eqn:Hstored.
  - apply existsb_exists in Hstored as (r0 & Hin & Hid).
    apply in_map_iff. exists r0. now rewrite Hid.
  - apply in_or_app. right. now left.
Qed.

Lemma reachable_consistent table : reachable table -> consistent table.
Proof.
  induction 1 as [|r t t' _ IH Hwrite|pk t _ IH|pk t _ IH].
  - constructor.
  - apply persist_accepted in Hwrite as [Hfree ->].
    destruct (existsb (fun r' => Z.eqb (id r') (id r)) t) eqn:Hstored.
    + now apply consistent_replace.
    + apply consistent_snoc; [exact IH|].
      now rewrite (filter_others_fresh _ _ Hstored) in Hfree.
  - now apply consistent_filter.
  - now apply consistent_filter.
Qed.

(** In a consistent table the rows at two different positions do not
    conflict. *)
Lemma consistent_lookup table : consistent table ->
  forall i j r r', table !! i = Some r -> table !! j = Some r' -> i <> j ->
                   conflict r r' = false.
Proof.
  unfold consistent. induction 1 as [|r0 t Hr0 Ht IH]; intros i j r r' Hi Hj Hne.
  - discriminate Hi.
  - rewrite List.Forall_forall in Hr0.
    destruct i as [|i], j as [|j]; simpl in Hi, Hj.
    + congruence.
    + injection Hi as <-. apply Hr0. apply list_elem_of_In.
      eapply list_elem_of_lookup_2. exact Hj.
    + injection Hj as <-. rewrite conflict_sym. apply Hr0. apply list_elem_of_In.
      eapply list_elem_of_lookup_2. exact Hi.
    + eapply IH; eauto.
Qed.

(** C9: in every table the persistence layer can hold, the records at
    two different positions differ in their primary key and in their
    student or date. Persisting a record with the student and the date
    of another stored record violates the constraint: the write is
    refused with an integrity error, be the record new or a stored one
    rewritten, and so the second of two records persisted for one
    student and date is refused. A record that has the student and date
    of no other stored record is persisted, a stored record rewritten
    with its own student and date included. *)
Theorem attendance_unique_per_student_date (table : list Attendance) :
  reachable table ->
  (forall i j r r',
      table !! i = Some r -> table !! j = Some r' -> i <> j ->
      id r <> id r' /\ (student r, date r) <> (student r', date r'))
  /\ (forall r r',
        In r table -> id r' <> id r ->
        student r' = student r -> date r' = date r ->
        persist r' table = inl IntegrityError)
  /\ (forall r1 r2 t1,
        id r2 <> id r1 -> student r2 = student r1 -> date r2 = date r1 ->
        persist r1 table = inr t1 ->
        persist r2 t1 = inl IntegrityError)
  /\ (forall r,
        (forall r0, In r0 table -> id r0 <> id r ->
                    (student r0, date r0) <> (student r, date r)) ->
        exists t', persist r table = inr t' /\ In r t' /\ reachable t').
Proof.
  intros Hreach.
  assert (Hrefused : forall t r r',
            In r t -> id r' <> id r ->
            student r' = student r -> date r' = date r ->
            persist r' t = inl IntegrityError).
  { intros t r r' Hin Hid Hs Hd. unfold persist.
    replace (existsb (conflict r')
               (List.filter (fun r0 => negb (Z.eqb (id r0) (id r'))) t)) with true;
      [reflexivity|].
    symmetry. apply conflict_among_others. exists r. auto. }
  split; [|split; [|split]].
  - intros i j r r' Hi Hj Hne.
    pose proof (consistent_lookup _ (reachable_consistent _ Hreach) _ _ _ _ Hi Hj Hne)
      as Hfree.
    apply not_true_iff_false in Hfree.
    split.
    + intros Hid. apply Hfree, conflict_iff. now left.
    + intros [= Hs Hd]. apply Hfree, conflict_iff. now right.
  - apply Hrefused.
  - intros r1 r2 t1 Hid Hs Hd Hfirst.
    apply (Hrefused t1 r1 r2); auto.
    exact (persist_stores _ _ _ Hfirst).
  - intros r Hfree.
    assert (Hnone : existsb (conflict r)
              (List.filter (fun r' => negb (Z.eqb (id r') (id r))) table) = false).
    { apply not_true_iff_false. intros Hc.
      apply conflict_among_others in Hc as (r0 & Hin & Hid & Hs & Hd).
      apply (Hfree r0 Hin Hid). congruence. }
    assert (Hwrite : exists t', persist r table = inr t').
    { unfold persist. rewrite Hnone.
      destruct (existsb (fun r' => Z.eqb (id r') (id r)) table); eauto. }
    destruct Hwrite as [t' Hwrite]. exists t'.
    split; [exact Hwrite|]. split; [exact (persist_stores _ _ _ Hwrite)|].
    exact (reach_persist r table t' Hreach Hwrite).
Qed.

End AttendanceUniqueness.

Lemma attendance_unique_per_student_date_witness :
  let table := [AttendanceScenario.monday_present;
                AttendanceScenario.tuesday_present] in
  Models.reachable table
  (* a new record for the Monday, and the Tuesday moved to the Monday *)
  /\ ~ In (Models.id AttendanceScenario.monday_absent) (List.map Models.id table)
  /\ Models.persist AttendanceScenario.monday_absent table
     = inl Models.IntegrityError
  /\ Models.persist AttendanceScenario.tuesday_moved table
     = inl Models.IntegrityError
  (* the Monday rewritten with its own student and date *)
  /\ exists t',
       Models.persist AttendanceScenario.monday_excused table = inr t'
       /\ In AttendanceScenario.monday_excused t'.
Proof.
  intros table.
  assert (Hreach : Models.reachable table).
  { apply (Models.reach_persist AttendanceScenario.tuesday_present
             [AttendanceScenario.monday_present]); [|reflexivity].
    apply (Models.reach_persist AttendanceScenario.monday_present []);
      [|reflexivity].
    apply Models.reach_empty. }
  destruct (attendance_unique_per_student_date table Hreach)
    as (_ & Hrefused & _ & Haccepted).
  split; [exact Hreach|].
  split; [simpl; intros [H|[H|[]]]; discriminate H|].
  split; [|split].
  - apply (Hrefused AttendanceScenario.monday_present);
      [now left|discriminate|reflexivity|reflexivity].
  - apply (Hrefused AttendanceScenario.monday_present);
      [now left|discriminate|reflexivity|reflexivity].
  - destruct (Haccepted AttendanceScenario.monday_excused) as (t' & Hwrite & Hin & _).
    + intros r0 [<-|[<-|[]]] Hid; [now contradict Hid|discriminate].
    + exists t'. auto.
Defined.

(* ===================================================================== *)
(** ** The utilities of [lib/utils.js] *)
(* ===================================================================== *)

Section Utilities.
Import Constants Utils.

Lemma nullable_matches r : nullable r = true <-> matches r [].
Proof.
  split.
  - induction r; simpl; intros H; try discriminate.
    + constructor.
    + apply andb_prop in H as [H1 H2].
      change (@nil N) with (@nil N ++ @nil N). constructor; auto.
    + apply orb_prop in H as [H|H]; [apply matches_alt_l|apply matches_alt_r]; auto.
    + constructor.
  - intros H. remember [] as s eqn:Hs. induction H; simpl; auto; try discriminate.
    + apply app_eq_nil in Hs as [-> ->]. rewrite IHmatches1, IHmatches2; auto.
    + rewrite IHmatches; auto.
    + rewrite IHmatches; auto. apply orb_true_r.
Qed.

Lemma matches_star_cons r c s :
  matches (RStar r) (c :: s) ->
  exists s1 s2, s = s1 ++ s2 /\ matches r (c :: s1) /\ matches (RStar r) s2.
Proof.
  intros H. remember (RStar r) as r' eqn:Hr. remember (c :: s) as t eqn:Ht.
  revert c s Ht. induction H; intros c' s' Ht; try discriminate.
  injection Hr as ->.
  destruct s1 as [|c1 s1].
  - simpl in Ht. apply IHmatches2; auto.
  - simpl in Ht. injection Ht as -> <-. exists s1, s2. auto.
Qed.

Lemma matches_seq_inv r1 r2 t :
  matches (RSeq r1 r2) t ->
  exists s1 s2, t = s1 ++ s2 /\ matches r1 s1 /\ matches r2 s2.
Proof. intros H. inversion H; subst. eauto. Qed.

Lemma matches_alt_inv r1 r2 t :
  matches (RAlt r1 r2) t -> matches r1 t \/ matches r2 t.
Proof. intros H. inversion H; subst; auto. Qed.

Lemma residual_matches r : forall c s, matches (residual c r) s <-> matches r (c :: s).
Proof.
  induction r; intros c s; simpl.
  - split; intros H; inversion H.
  - split; intros H; inversion H.
  - destruct (p c) eqn:Hp; split; intros H; inversion H; subst.
    + constructor; auto.
    + constructor.
    + congruence.
  - split.
    + intros H.
      assert (Hseq : matches (RSeq (residual c r1) r2) s -> matches (RSeq r1 r2) (c :: s)).
      { intros (s1 & s2 & -> & H1 & H2)%matches_seq_inv. apply IHr1 in H1.
        change (c :: s1 ++ s2) with ((c :: s1) ++ s2). constructor; auto. }
      destruct (nullable r1) eqn:Hn; [|auto].
      apply matches_alt_inv in H as [H|H]; [auto|].
      apply IHr2 in H. apply nullable_matches in Hn.
      change (c :: s) with ([] ++ c :: s). constructor; auto.
    + intros (s1 & s2 & Heq & H1 & H2)%matches_seq_inv.
      destruct s1 as [|c1 s1]; simpl in Heq; subst.
      * apply nullable_matches in H1. rewrite H1. apply matches_alt_r, IHr2; auto.
      * injection Heq as -> ->. apply IHr1 in H1.
        destruct (nullable r1); [apply matches_alt_l|]; constructor; auto.
  - split; intros [H|H]%matches_alt_inv.
    + apply matches_alt_l, IHr1; auto.
    + apply matches_alt_r, IHr2; auto.
    + apply matches_alt_l, IHr1; auto.
    + apply matches_alt_r, IHr2; auto.
  - split.
    + intros (s1 & s2 & -> & H1 & H2)%matches_seq_inv. apply IHr in H1.
      change (c :: s1 ++ s2) with ((c :: s1) ++ s2). constructor; auto.
    + intros H. apply matches_star_cons in H as (s1 & s2 & -> & H1 & H2).
      constructor; [apply IHr|]; auto.
Qed.

Lemma test_anchored_matches s : forall r, test_anchored r s = true <-> matches r s.
Proof.
  induction s as [|c s IH]; intros r; simpl.
  - apply nullable_matches.
  - rewrite IH. apply residual_matches.
Qed.

Lemma matches_class_inv p t : matches (RClass p) t -> exists c, t = [c] /\ p c = true.
Proof. intros H. inversion H; subst. eauto. Qed.

Lemma matches_star_class p s :
  matches (RStar (RClass p)) s <-> Forall (fun c => p c = true) s.
Proof.
  split.
  - intros H. remember (RStar (RClass p)) as r eqn:Hr.
    induction H; try discriminate; [constructor|].
    injection Hr as ->. apply matches_class_inv in H as (c & -> & Hc).
    constructor; auto.
  - induction 1 as [|c s Hc _ IH]; [constructor|].
    change (c :: s) with ([c] ++ s). constructor; [constructor|]; auto.
Qed.

Lemma matches_plus_class p s :
  matches (RPlus (RClass p)) s <-> s <> [] /\ Forall (fun c => p c = true) s.
Proof.
  unfold RPlus. split.
  - intros (s1 & s2 & -> & (c & -> & Hc)%matches_class_inv & H2%matches_star_class)%matches_seq_inv.
    split; [discriminate|]. constructor; auto.
  - intros [Hne H]. destruct s as [|c s]; [congruence|].
    apply Forall_cons in H as [Hc H].
    change (c :: s) with ([c] ++ s). constructor; [constructor|apply matches_star_class]; auto.
Qed.

Lemma not_space_or_at_plain c : not_space_or_at c = true <-> plain c.
Proof.
  unfold not_space_or_at, plain. rewrite negb_true_iff, orb_false_iff, N.eqb_neq.
  reflexivity.
Qed.

(** X3: [isValidEmail] accepts exactly the strings made of a non-empty local
    part, an at sign, and a domain in which some dot has text on both
    sides, none of the three parts holding white space or a second at
    sign. *)
Theorem isValidEmail_shape (email : jsstr) :
  isValidEmail email = true <->
  exists loc domain tld,
    email = loc ++ [64%N] ++ domain ++ [46%N] ++ tld
    /\ loc <> [] /\ domain <> [] /\ tld <> []
    /\ Forall plain loc /\ Forall plain domain /\ Forall plain tld.
Proof.
  unfold isValidEmail. rewrite test_anchored_matches. unfold emailRegex.
  assert (Hplain : forall s, Forall (fun c => not_space_or_at c = true) s <-> Forall plain s).
  { intros s. apply Forall_proper; [|reflexivity]. intros c. apply not_space_or_at_plain. }
  split.
  - intros (loc & t1 & -> & [Hl1 Hl2]%matches_plus_class & H)%matches_seq_inv.
    apply matches_seq_inv in H as (a & t2 & -> & (c & -> & ->%N.eqb_eq)%matches_class_inv & H).
    apply matches_seq_inv in H as (domain & t3 & -> & [Hd1 Hd2]%matches_plus_class & H).
    apply matches_seq_inv in H as (d & tld & -> & (c' & -> & ->%N.eqb_eq)%matches_class_inv
                                   & [Ht1 Ht2]%matches_plus_class).
    exists loc, domain, tld. rewrite <- !Hplain. auto 10.
  - intros (loc & domain & tld & -> & Hl & Hd & Ht & Hpl & Hpd & Hpt).
    rewrite <- Hplain in Hpl, Hpd, Hpt.
    repeat (constructor; try apply matches_plus_class; auto using N.eqb_refl).
Qed.

(** The shared validator on one file: it accepts the files without a
    violation, and gives the others one message. *)
Lemma validateFile_violations file :
  exists validation,
    validateFile file = Normal validation
    /\ isValid validation = bool_decide (violations file = [])
    /\ (isValid validation = false -> exists text, error validation = Some text).
Proof.
  unfold validateFile, violations.
  destruct (fileExtension_total (name file)) as [ext ->].
  destruct (includes ALLOWED_FILE_TYPES (type file));
    destruct (includes ALLOWED_FILE_EXTENSIONS ext);
    destruct (MAX_FILE_SIZE <? size file)%N; simpl;
    eexists; (split; [reflexivity|]); simpl; split; try reflexivity;
    intros; try discriminate; eauto.
Qed.

Lemma validate_forEach_spec files : forall acc,
  exists valid errs,
    validate_forEach acc files = Normal (fst acc ++ valid, snd acc ++ errs)
    /\ valid = List.filter acceptable files
    /\ Forall2 (fun file text => exists reason, text = name file ++ js ": " ++ reason)
         (List.filter (fun file => negb (acceptable file)) files) errs.
Proof.
  induction files as [|file rest IH]; intros acc.
  - exists [], []. simpl. rewrite !app_nil_r. destruct acc. auto.
  - simpl. unfold validate_each.
    destruct (validateFile_violations file) as (v & -> & Hv & Herr).
    fold (acceptable file) in Hv. rewrite <- Hv.
    destruct (isValid v) eqn:E.
    + destruct (IH (fst acc ++ [file], snd acc)) as (valid & errs & -> & -> & H).
      exists (file :: List.filter acceptable rest), errs. simpl.
      rewrite <- app_assoc. auto.
    + destruct (Herr eq_refl) as [text Htext]. rewrite Htext.
      destruct (IH (fst acc, snd acc ++ [name file ++ js ": " ++ text]))
        as (valid & errs & -> & -> & H).
      exists (List.filter acceptable rest), ((name file ++ js ": " ++ text) :: errs).
      simpl. rewrite <- app_assoc. split; [reflexivity|]. split; [reflexivity|].
      constructor; eauto.
Qed.

(** X1: [validateFiles] sorts the selection in two, keeping the order: the
    files that break no rule are the valid files, every other file has
    exactly one message, which starts with its name, and the selection
    is valid only when all of it is. *)
Theorem validateFiles_partition (files : list File) :
  exists report,
    validateFiles files = Normal report
    /\ validFiles report = List.filter (fun file => bool_decide (violations file = [])) files
    /\ Forall2 (fun file text => exists reason, text = name file ++ js ": " ++ reason)
         (List.filter (fun file => negb (bool_decide (violations file = []))) files)
         (errors report)
    /\ length (validFiles report) + length (errors report) = length files
    /\ (report_isValid report = true <-> validFiles report = files).
Proof.
  unfold validateFiles.
  destruct (validate_forEach_spec files ([], [])) as (valid & errs & -> & Hvalid & Herrs).
  simpl. eexists. split; [reflexivity|]. simpl.
  split; [exact Hvalid|]. split; [exact Herrs|].
  assert (Hlen : length valid + length errs = length files).
  { rewrite <- (Forall2_length _ _ _ Herrs), Hvalid.
    clear. induction files as [|f l IH]; simpl; [reflexivity|].
    destruct (acceptable f); simpl; lia. }
  split; [exact Hlen|].
  rewrite Nat.eqb_eq. split.
  - intros Hnil. subst valid.
    assert (Hsame : length (List.filter acceptable files) = length files) by lia.
    clear -Hsame. induction files as [|f l IH]; simpl in *; [reflexivity|].
    destruct (acceptable f); simpl in *.
    + f_equal. apply IH. lia.
    + pose proof (filter_length_le acceptable l). lia.
  - intros Heq. rewrite Heq in Hlen. lia.
Qed.

(** X2: The shared validator and the inline validator of the Upload view
    accept the same selections; on a selection they refuse, the inline
    one has between one and three messages for each message of the
    shared one. *)
Theorem validators_agree (files : list File) :
  exists report messages,
    validateFiles files = Normal report
    /\ UploadPage.validateFiles files = Normal messages
    /\ (report_isValid report = true <-> messages = [])
    /\ length (errors report) <= length messages <= 3 * length (errors report).
Proof.
  unfold validateFiles, UploadPage.validateFiles.
  destruct (validate_forEach_spec files ([], [])) as (valid & errs & -> & _ & Herrs).
  rewrite validate_loop_violations. simpl.
  eexists _, _. split; [reflexivity|]. split; [reflexivity|]. simpl.
  apply Forall2_length in Herrs. rewrite <- Herrs. clear.
  assert (Hcount : length (List.filter (fun file => negb (acceptable file)) files)
                   <= length (flat_map violations files)
                   <= 3 * length (List.filter (fun file => negb (acceptable file)) files)).
  { induction files as [|f l IH]; simpl; [lia|].
    rewrite length_app.
    assert (Hf : length (violations f) <= 3).
    { unfold violations. destruct (fileExtension (name f)); [|simpl; lia].
      rewrite !length_app.
      repeat match goal with |- context [if ?b then _ else _] => destruct b end;
        simpl; lia. }
    destruct (acceptable f) eqn:E; unfold acceptable in E; simpl.
    - apply bool_decide_eq_true in E. rewrite E. simpl. lia.
    - apply bool_decide_eq_false in E.
      destruct (violations f); [congruence|]. simpl in *. lia. }
  split; [|exact Hcount].
  rewrite Nat.eqb_eq. split.
  - intros H0. apply length_zero_iff_nil. lia.
  - intros Hnil. rewrite Hnil in Hcount. simpl in Hcount. lia.
Qed.

Lemma endsWith_slash_snoc (base : jsstr) : endsWith (base ++ js "/") (js "/") = true.
Proof.
  unfold endsWith. apply bool_decide_eq_true.
  rewrite length_app. change (length (js "/")) with 1.
  replace (length base + 1 - 1) with (length base) by lia.
  now rewrite drop_app_length.
Qed.

Lemma endsWith_slash_last (base : jsstr) :
  last base <> Some 47%N -> endsWith base (js "/") = false.
Proof.
  intros Hlast. unfold endsWith. apply bool_decide_eq_false. intros Heq.
  apply Hlast. change (length (js "/")) with 1 in Heq. change (js "/") with [47%N] in Heq.
  rewrite <- (take_drop (length base - 1) base), Heq.
  now rewrite last_snoc.
Qed.

Lemma slice_drop_last (base : jsstr) : slice (base ++ js "/") 0 (Some (-1)%Z) = base.
Proof.
  unfold slice, slice_index. rewrite length_app. change (length (js "/")) with 1.
  simpl. rewrite drop_0.
  replace (Z.to_nat (Z.max (Z.of_nat (length base + 1) + -1) 0) - 0) with (length base) by lia.
  now rewrite take_app_length.
Qed.

Lemma startsWith_slash_head (path : jsstr) :
  head path <> Some 47%N -> startsWith path (js "/") = false.
Proof.
  intros Hhead. unfold startsWith. apply bool_decide_eq_false.
  destruct path as [|c rest]; [discriminate|].
  change (js "/") with [47%N]. simpl. rewrite take_0. intros [= ->]. now apply Hhead.
Qed.

(** X4: The four spellings of a base and a path give one URL: for a base
    that does not end in a slash and a non-empty path that does not
    start with one, [buildImageUrl] puts exactly one slash between
    them, whether or not the base is given a trailing slash and the
    path a leading one. An absent or empty path gives [null]. The
    Review view's own copy does the same against [API_BASE]. *)
Theorem buildImageUrl_one_slash {B} (env : Env B) (base path : jsstr) :
  path <> [] ->
  head path <> Some 47%N ->
  last base <> Some 47%N ->
  buildImageUrl (Some path) base = Some (base ++ js "/" ++ path)
  /\ buildImageUrl (Some (js "/" ++ path)) base = Some (base ++ js "/" ++ path)
  /\ buildImageUrl (Some path) (base ++ js "/") = Some (base ++ js "/" ++ path)
  /\ buildImageUrl (Some (js "/" ++ path)) (base ++ js "/") = Some (base ++ js "/" ++ path)
  /\ buildImageUrl None base = None
  /\ buildImageUrl (Some []) base = None
  /\ (forall filePath,
        ReviewPage.buildImageUrl env filePath = buildImageUrl filePath (API_BASE env)).
Proof.
  intros Hne Hhead Hlast.
  unfold buildImageUrl.
  rewrite (endsWith_slash_last _ Hlast), (startsWith_slash_head _ Hhead),
    endsWith_slash_snoc, slice_drop_last.
  destruct path as [|c rest]; [congruence|].
  repeat split.
Qed.

Lemma substring_prefix (s : jsstr) (m : Z) :
  substring s 0 m = take (Z.to_nat m) s.
Proof.
  unfold substring.
  replace (Z.min (Z.max 0 0) (Z.of_nat (length s))) with 0%Z by lia.
  replace (Z.to_nat (Z.min 0 (Z.min (Z.max m 0) (Z.of_nat (length s))))) with 0 by lia.
  rewrite drop_0, Nat.sub_0_r.
  destruct (Z_le_gt_dec (Z.of_nat (length s)) m) as [Hle|Hgt].
  - rewrite !take_ge by lia. reflexivity.
  - f_equal. lia.
Qed.

(** X5: [truncateText] returns a text of at most [maxLength] code units as
    it is, and cuts a longer one to its first [maxLength] units followed
    by three dots: a result of [maxLength + 3] units, longer than a text
    that exceeded the limit by one or two. The limit is 50 when none is
    given. *)
Theorem truncateText_length (s : jsstr) (maxLength : Z) :
  (0 <= maxLength)%Z ->
  exists out,
    truncateText (Some s) (Some maxLength) = Some out
    /\ ((Z.of_nat (length s) <= maxLength)%Z -> out = s)
    /\ ((maxLength < Z.of_nat (length s))%Z ->
        out = take (Z.to_nat maxLength) s ++ js "..."
        /\ Z.of_nat (length out) = (maxLength + 3)%Z)
    /\ (Z.of_nat (length out) <= maxLength + 3)%Z
    /\ truncateText (Some s) None = truncateText (Some s) (Some 50%Z).
Proof.
  intros Hpos. unfold truncateText. simpl.
  destruct (Z.leb_spec (Z.of_nat (length s)) maxLength) as [Hle|Hgt].
  - rewrite orb_true_r. exists s. repeat split; auto; lia.
  - destruct s as [|c rest]; [simpl in Hgt; lia|].
    cbn [str_truthy negb orb]. rewrite substring_prefix.
    eexists. split; [reflexivity|].
    assert (Hlen : Z.of_nat (length (take (Z.to_nat maxLength) (c :: rest) ++ js "..."))
                   = (maxLength + 3)%Z).
    { rewrite length_app, length_take. change (length (js "...")) with 3. lia. }
    repeat split; auto; lia.
Qed.

Lemma join_cons_app (sep a x : jsstr) l :
  join sep ((a ++ x) :: l) = a ++ join sep (x :: l).
Proof. destruct l; simpl; [reflexivity|]. now rewrite <- app_assoc. Qed.

Lemma capitalize_cons c seg : capitalize (Some (c :: seg)) = upper_unit c ++ seg.
Proof.
  unfold capitalize, toUpperCase, charAt, slice, slice_index. simpl.
  rewrite app_nil_r, Nat.sub_0_r, drop_0, firstn_all. reflexivity.
Qed.

Lemma snakeToTitle_words s :
  join (js " ") (List.map (fun word => capitalize (Some word)) (split 95 s))
  = title_from true s
  /\ match split 95 s with
     | first :: others =>
         join (js " ") (first :: List.map (fun word => capitalize (Some word)) others)
         = title_from false s
     | [] => False
     end.
Proof.
  induction s as [|c s [IH1 IH2]]; [split; reflexivity|].
  cbn [split title_from]. destruct (N.eqb_spec c 95) as [->|Hc].
  - cbn [List.map]. change (capitalize (Some [])) with (@nil N).
    destruct (split 95 s) as [|first others] eqn:E; [contradiction|].
    rewrite <- IH1. split; reflexivity.
  - destruct (split 95 s) as [|first others] eqn:E; [contradiction|].
    cbn [List.map]. rewrite capitalize_cons, join_cons_app, IH2.
    split; [reflexivity|].
    change (c :: first) with ([c] ++ first). now rewrite join_cons_app, IH2.
Qed.

(** X6: on a text of Latin-1, where the case table is reproduced in
    full, [snakeToTitle] works one code unit at a time: every underscore
    becomes a space, the unit after an underscore and the first unit of
    the text are put in upper case, and every other unit is kept as it
    is (the rest of a word is not lower-cased). For a text of ASCII the
    result has the length of the text. *)
Theorem snakeToTitle_pointwise (s : jsstr) :
  Forall (fun c => (c < 256)%N) s ->
  snakeToTitle (Some s) = title_from true s
  /\ (Forall (fun c => (c < 128)%N) s -> length (snakeToTitle (Some s)) = length s).
Proof.
  intros _.
  assert (Heq : snakeToTitle (Some s) = title_from true s).
  { unfold snakeToTitle. destruct s as [|c rest]; [reflexivity|].
    cbn [str_truthy negb]. apply snakeToTitle_words. }
  split; [exact Heq|]. rewrite Heq. clear Heq. generalize true.
  induction s as [|c s IH]; intros b Hascii; [reflexivity|].
  apply Forall_cons in Hascii as [Hc Hs]. cbn [title_from].
  destruct (c =? 95)%N; [simpl; now rewrite IH|].
  rewrite length_app, IH by assumption.
  assert (Hone : length (upper_unit c) = 1).
  { unfold upper_unit.
    destruct (c =? 223)%N eqn:E; [apply N.eqb_eq in E; lia|].
    repeat match goal with |- context [if ?b then _ else _] => destruct b end;
      reflexivity. }
  destruct b; simpl; lia.
Qed.

End Utilities.

Example isValidEmail_examples :
  List.map Utils.isValidEmail
    [js "asha@upayngo.com"; js "a@b.c"; js "a@b..c"; js "asha@upayngo";
     js "@upayngo.com"; js "asha@.com"; js "asha@upayngo."; js "a b@c.d";
     js "a@b@c.d"; js ""]
  = [true; true; true; false; false; false; false; false; false; false].
Proof. vm_compute. reflexivity. Qed.

Lemma buildImageUrl_one_slash_witness :
  let base := js "http://localhost:8000" in
  let path := js "media/scan.png" in
  path <> [] /\ head path <> Some 47%N /\ last base <> Some 47%N
  /\ Utils.buildImageUrl (Some (js "/" ++ path)) (base ++ js "/")
     = Some (js "http://localhost:8000/media/scan.png")
  /\ ReviewPage.buildImageUrl SessionScenario.expiring (Some path)
     = Some (js "http://localhost:8000/media/scan.png").
Proof.
  intros base path.
  assert (Hne : path <> []) by (vm_compute; discriminate).
  assert (Hhead : head path <> Some 47%N) by (vm_compute; discriminate).
  assert (Hlast : last base <> Some 47%N) by (vm_compute; discriminate).
  split; [exact Hne|]. split; [exact Hhead|]. split; [exact Hlast|].
  destruct (buildImageUrl_one_slash SessionScenario.expiring base path Hne Hhead Hlast)
    as (Hplain & _ & _ & Hboth & _ & _ & Hview).
  split; [exact Hboth|].
  rewrite Hview. exact Hplain.
Defined.

Lemma truncateText_length_witness :
  (0 <= 5)%Z
  /\ Utils.truncateText (Some (js "guardian")) (Some 5%Z) = Some (js "guard...")
  /\ Utils.truncateText (Some (js "guard")) (Some 5%Z) = Some (js "guard")
  /\ Utils.truncateText (Some (js "guards")) (Some 5%Z) = Some (js "guard...").
Proof.
  assert (Hpos : (0 <= 5)%Z) by lia.
  split; [exact Hpos|].
  destruct (truncateText_length (js "guardian") 5 Hpos) as (out & Hrun & _ & Hcut & _).
  destruct (Hcut ltac:(vm_compute; reflexivity)) as [-> _].
  split; [exact Hrun|]. split; reflexivity.
Defined.

Lemma snakeToTitle_pointwise_witness :
  Forall (fun c => (c < 256)%N) (js "guardian_name")
  /\ Forall (fun c => (c < 128)%N) (js "guardian_name")
  /\ Utils.snakeToTitle (Some (js "guardian_name")) = js "Guardian Name"
  /\ length (Utils.snakeToTitle (Some (js "guardian_name"))) = 13.
Proof.
  assert (Hlatin : Forall (fun c => (c < 256)%N) (js "guardian_name")).
  { unfold js. simpl. repeat (constructor; [reflexivity|]). constructor. }
  assert (Hascii : Forall (fun c => (c < 128)%N) (js "guardian_name")).
  { unfold js. simpl. repeat (constructor; [reflexivity|]). constructor. }
  split; [exact Hlatin|]. split; [exact Hascii|].
  destruct (snakeToTitle_pointwise (js "guardian_name") Hlatin) as [Htitle Hlength].
  split; [rewrite Htitle; reflexivity|exact (Hlength Hascii)].
Defined.

(* ===================================================================== *)
(** ** File names and sizes *)
(* ===================================================================== *)

Section Extensions.
Import Constants.

Lemma split_app_sep sep stem rest :
  split sep (stem ++ sep :: rest) = split sep stem ++ split sep rest.
Proof.
  induction stem as [|c stem IH]; simpl.
  - now rewrite N.eqb_refl.
  - rewrite IH. destruct (N.eqb c sep); [reflexivity|].
    destruct (split sep stem) eqn:E; [now apply split_not_nil in E|]. reflexivity.
Qed.

Lemma pop_split_after sep stem rest :
  pop (split sep (stem ++ sep :: rest)) = pop (split sep rest).
Proof.
  unfold pop. rewrite split_app_sep.
  destruct (split sep rest) as [|seg segs] eqn:E using rev_ind;
    [now apply split_not_nil in E|].
  now rewrite app_assoc, !last_snoc.
Qed.

(** X7: The extension of a file is what follows its last dot, in lower
    case, whatever comes before: for a name [stem.ext] with no dot in
    [ext] both validators compute [.ext], so a second extension before
    it ([report.exe.pdf]), an empty stem ([.pdf]) and capitals
    ([SCAN.PDF]) all pass the extension rule, and a name that ends in a
    dot never does. *)
Theorem extension_follows_last_dot (stem ext : jsstr) (file : File) :
  ~ In 46%N ext ->
  name file = stem ++ [46%N] ++ ext ->
  fileExtension (name file) = Normal (js "." ++ toLowerCase ext)
  /\ (In (type file) ALLOWED_FILE_TYPES -> (size file <= MAX_FILE_SIZE)%N ->
      (Utils.validateFile file = Normal {| Utils.isValid := true; Utils.error := None |}
       <-> In (toLowerCase ext) [js "pdf"; js "jpg"; js "jpeg"; js "png"])
      /\ (UploadPage.validateFiles [file] = Normal []
          <-> In (toLowerCase ext) [js "pdf"; js "jpg"; js "jpeg"; js "png"]))
  /\ (ext = [] -> violations file <> []).
Proof.
  intros Hdot Hname.
  assert (Hext : fileExtension (name file) = Normal (js "." ++ toLowerCase ext)).
  { rewrite Hname. unfold fileExtension. simpl app. rewrite pop_split_after.
    rewrite (split_without_sep _ _ Hdot). reflexivity. }
  assert (Hallowed : In (js "." ++ toLowerCase ext) ALLOWED_FILE_EXTENSIONS
                     <-> In (toLowerCase ext) [js "pdf"; js "jpg"; js "jpeg"; js "png"]).
  { rewrite <- includes_In. apply allowed_extension_of_word. }
  split; [exact Hext|]. split.
  - intros Htype Hsize. split.
    + unfold Utils.validateFile. rewrite Hext.
      apply includes_In in Htype. rewrite Htype. cbn [negb].
      apply N.ltb_ge in Hsize. rewrite Hsize. rewrite <- Hallowed, <- includes_In.
      destruct (includes ALLOWED_FILE_EXTENSIONS (js "." ++ toLowerCase ext));
        cbn [negb]; split; intros H; try reflexivity; discriminate H.
    + unfold UploadPage.validateFiles. rewrite validate_loop_violations.
      cbn [flat_map app]. rewrite app_nil_r.
      rewrite <- Hallowed.
      split.
      * intros [= Hnil]. apply violations_nil_iff in Hnil as (_ & (ext' & Heq & Hin) & _).
        rewrite Hext in Heq. injection Heq as <-. exact Hin.
      * intros Hin. f_equal. apply violations_nil_iff. eauto.
  - intros -> Hnil. apply violations_nil_iff in Hnil as (_ & (ext' & Heq & Hin) & _).
    rewrite Hext in Heq. injection Heq as <-.
    apply Hallowed in Hin. vm_compute in Hin.
    repeat (destruct Hin as [Hin|Hin]; [discriminate Hin|]). exact Hin.
Qed.

End Extensions.

Section Sizes.
Import Utils.

Lemma formatFileSize_scale (bytes : N) :
  (0 < bytes)%N ->
  let i := (N.log2 bytes / 10)%N in
  (1024 ^ i <= bytes < 1024 * 1024 ^ i)%N.
Proof.
  intros Hpos i.
  destruct (N.log2_spec bytes Hpos) as [Hlow Hhigh].
  assert (Hi : (10 * i <= N.log2 bytes < 10 * i + 10)%N).
  { subst i. pose proof (N.Div0.mul_div_le (N.log2 bytes) 10).
    pose proof (N.mul_succ_div_gt (N.log2 bytes) 10 ltac:(lia)). lia. }
  assert (Hk : (1024 ^ i = 2 ^ (10 * i))%N).
  { change 1024%N with (2 ^ 10)%N. now rewrite <- N.pow_mul_r. }
  rewrite Hk. split.
  - etransitivity; [|exact Hlow]. apply N.pow_le_mono_r; lia.
  - eapply N.lt_le_trans; [exact Hhigh|].
    change 1024%N with (2 ^ 10)%N. rewrite <- N.pow_add_r.
    apply N.pow_le_mono_r; lia.
Qed.

(** X8: The size shown by [formatFileSize] for a size other than zero is a
    number of hundredths between 1 and 1024 (1024 itself included, just
    below a power of 1024) followed by a unit; the unit is one of
    Bytes, KB, MB and GB for a size under 1024^4 bytes, and reads
    [undefined] from there on. *)
Theorem formatFileSize_units (bytes : N) :
  (0 < bytes)%N ->
  exists h unit,
    formatFileSize bytes = hundredths_text h ++ js " " ++ unit
    /\ (100 <= h <= 102400)%N
    /\ ((bytes < 1024 ^ 4)%N -> In unit [js "Bytes"; js "KB"; js "MB"; js "GB"])
    /\ ((1024 ^ 4 <= bytes)%N -> unit = js "undefined").
Proof.
  intros Hpos. unfold formatFileSize.
  destruct (N.eqb_spec bytes 0) as [->|_]; [lia|].
  pose proof (formatFileSize_scale bytes Hpos) as Hscale. cbv zeta in Hscale |- *.
  set (i := (N.log2 bytes / 10)%N) in *.
  set (K := (1024 ^ i)%N) in *.
  assert (HK : (0 < K)%N) by (subst K; apply N.neq_0_lt_0, N.pow_nonzero; lia).
  eexists _, _. split; [reflexivity|]. split; [|split].
  - split.
    + apply N.div_le_lower_bound; lia.
    + apply N.lt_succ_r. apply N.Div0.div_lt_upper_bound; lia.
  - intros Hsmall.
    assert (Hi : (i < 4)%N).
    { destruct (N.lt_ge_cases i 4) as [H|H]; [exact H|].
      assert (1024 ^ 4 <= K)%N by (subst K; apply N.pow_le_mono_r; lia). lia. }
    assert (Hcases : i = 0%N \/ i = 1%N \/ i = 2%N \/ i = 3%N) by lia.
    destruct Hcases as [H|[H|[H|H]]]; rewrite H; simpl; auto.
  - intros Hlarge.
    assert (Hi : (4 <= i)%N).
    { destruct (N.lt_ge_cases i 4) as [H|H]; [|exact H].
      assert (1024 * K <= 1024 ^ 4)%N.
      { subst K. change (1024 * 1024 ^ i)%N with (1024 ^ 1 * 1024 ^ i)%N.
        rewrite <- N.pow_add_r. apply N.pow_le_mono_r; lia. }
      lia. }
    apply nth_overflow. simpl. lia.
Qed.

End Sizes.

(* ===================================================================== *)
(** ** What the handlers keep and how they settle *)
(* ===================================================================== *)

Section Frames.
Context {S : Type} {X : Type} (obs : S -> X).

Lemma preserves_ret {A} (a : A) : preserves obs (ret a).
Proof. intros s. reflexivity. Qed.

Lemma preserves_throw {A} e : preserves obs (@throw S A e).
Proof. intros s. reflexivity. Qed.

Lemma preserves_lift {A} (c : completion A) : preserves obs (@lift S A c).
Proof. intros s. reflexivity. Qed.

Lemma preserves_gets {A} (f : S -> A) : preserves obs (gets f).
Proof. intros s. reflexivity. Qed.

Lemma preserves_modify (f : S -> S) :
  (forall s, obs (f s) = obs s) -> preserves obs (modify f).
Proof. intros H s. apply H. Qed.

Lemma preserves_bind {A A'} (m : M S A) (k : A -> M S A') :
  preserves obs m -> (forall a, preserves obs (k a)) -> preserves obs (bind m k).
Proof.
  intros Hm Hk s. unfold bind. specialize (Hm s).
  destruct (m s) as [[a|e] s']; simpl in *; [|exact Hm].
  rewrite Hk. exact Hm.
Qed.

Lemma preserves_try_catch {A} (m : M S A) (handler : exn -> M S A) :
  preserves obs m -> (forall e, preserves obs (handler e)) ->
  preserves obs (try_catch m handler).
Proof.
  intros Hm Hh s. unfold try_catch. specialize (Hm s).
  destruct (m s) as [[a|e] s']; simpl in *; [exact Hm|].
  rewrite Hh. exact Hm.
Qed.

Lemma preserves_try_finally {A} (m : M S A) (cleanup : M S unit) :
  preserves obs m -> preserves obs cleanup -> preserves obs (try_finally m cleanup).
Proof.
  intros Hm Hc s. unfold try_finally. specialize (Hm s).
  destruct (m s) as [r s']. specialize (Hc s').
  destruct (cleanup s') as [[u|e] s'']; simpl in *; congruence.
Qed.

End Frames.

Lemma preserves_in_world {B U A X} (obs : World B -> X) (m : M (World B) A) :
  preserves obs m -> preserves (fun p : Page B U => obs (world p)) (in_world m).
Proof.
  intros Hm p. unfold in_world. specialize (Hm (world p)).
  destruct (m (world p)) as [r w']. exact Hm.
Qed.

Lemma preserves_fetch {B X} (env : Env B) (obs : World B -> X) url options :
  (forall w b t, obs {| storage := storage w; backend := b; trace := t;
                        location := location w |} = obs w) ->
  preserves obs (fetch env url options).
Proof.
  intros H w. unfold fetch, served.
  destruct (serve env (backend w) url options) as [[r|e] b']; simpl; apply H.
Qed.

(** Splits a computation along its binds, handlers and conditionals. *)
Ltac frame_step :=
  match goal with
  | |- preserves _ (bind _ _) => apply preserves_bind; [|intros ?]
  | |- preserves _ (try_catch _ _) => apply preserves_try_catch; [|intros ?]
  | |- preserves _ (try_finally _ _) => apply preserves_try_finally
  | |- preserves _ (ret _) => apply preserves_ret
  | |- preserves _ (throw _) => apply preserves_throw
  | |- preserves _ (lift _) => apply preserves_lift
  | |- preserves _ (gets _) => apply preserves_gets
  | |- preserves _ (in_world _) => apply preserves_in_world
  | |- preserves _ (if ?b then _ else _) => destruct b
  | |- preserves _ (match ?x with _ => _ end) => destruct x
  end.

Section SessionFrame.
Context {B : Type} (env : Env B).
Import Auth.

Lemma at_key_setItem key k v :
  key <> k -> preserves (at_key key) (@setItem B k v).
Proof. intros Hne w. unfold at_key. simpl. now rewrite lookup_insert_ne. Qed.

Lemma at_key_removeItem key k :
  key <> k -> preserves (at_key key) (@removeItem B k).
Proof. intros Hne w. unfold at_key. simpl. now rewrite lookup_delete_ne. Qed.

Lemma at_key_fetch key url options : preserves (at_key key) (fetch env url options).
Proof. apply preserves_fetch. reflexivity. Qed.

Lemma at_key_saveTokens key access refresh user :
  other_key key -> preserves (at_key key) (saveTokens env access refresh user).
Proof.
  intros (Ha & Hr & Hu). unfold saveTokens.
  repeat frame_step; auto using at_key_setItem.
Qed.

Lemma at_key_clearTokens key :
  other_key key -> preserves (at_key key) (@clearTokens B).
Proof.
  intros (Ha & Hr & Hu). unfold clearTokens.
  repeat frame_step; auto using at_key_removeItem.
Qed.

Lemma at_key_refreshAccessToken key :
  other_key key -> preserves (at_key key) (refreshAccessToken env).
Proof.
  intros Hkey. unfold refreshAccessToken, getRefreshToken, getItem.
  repeat frame_step;
    auto using at_key_fetch, at_key_saveTokens, at_key_clearTokens.
Qed.

Lemma at_key_set_location key url : preserves (at_key key) (@set_location B url).
Proof. intros w. reflexivity. Qed.

Lemma at_key_fetchWithAuth key url options :
  other_key key -> preserves (at_key key) (fetchWithAuth env url options).
Proof.
  intros Hkey. unfold fetchWithAuth, getAccessToken, getItem.
  repeat frame_step;
    auto using at_key_fetch, at_key_refreshAccessToken, at_key_set_location.
Qed.

Lemma at_key_handleApiResponse key response :
  preserves (at_key key) (@handleApiResponse B response).
Proof. unfold handleApiResponse. repeat frame_step. Qed.

(** X9: The session manager reads and writes [localStorage] under its three
    keys only: what is stored under any other key is the same after
    [saveTokens], [clearTokens], [refreshAccessToken], [fetchWithAuth]
    and [handleApiResponse] as before, however they complete. *)
Theorem session_manager_keeps_other_keys (key : string) (w : World B)
    url options response (access refresh user : jsval) :
  key <> ACCESS_TOKEN_KEY -> key <> REFRESH_TOKEN_KEY -> key <> AUTH_USER_KEY ->
  storage (snd (saveTokens env access refresh user w)) !! key = storage w !! key
  /\ storage (snd (clearTokens w)) !! key = storage w !! key
  /\ storage (snd (refreshAccessToken env w)) !! key = storage w !! key
  /\ storage (snd (fetchWithAuth env url options w)) !! key = storage w !! key
  /\ storage (snd (handleApiResponse response w)) !! key = storage w !! key.
Proof.
  intros Ha Hr Hu. assert (Hkey : other_key key) by (repeat split; assumption).
  repeat split.
  - apply (at_key_saveTokens key access refresh user Hkey w).
  - apply (at_key_clearTokens key Hkey w).
  - apply (at_key_refreshAccessToken key Hkey w).
  - apply (at_key_fetchWithAuth key url options Hkey w).
  - apply (at_key_handleApiResponse key response w).
Qed.



End SessionFrame.

Section Settling.
Context {S : Type}.

Lemma never_throws_ret {A} (a : A) : never_throws (@ret S A a).
Proof. intros s. eexists. reflexivity. Qed.

Lemma never_throws_gets {A} (f : S -> A) : never_throws (gets f).
Proof. intros s. eexists. reflexivity. Qed.

Lemma never_throws_modify (f : S -> S) : never_throws (modify f).
Proof. intros s. eexists. reflexivity. Qed.

Lemma never_throws_bind {A A'} (m : M S A) (k : A -> M S A') :
  never_throws m -> (forall a, never_throws (k a)) -> never_throws (bind m k).
Proof.
  intros Hm Hk s. unfold bind. destruct (Hm s) as [a Ha].
  destruct (m s) as [[a'|e] s']; simpl in Ha; [|discriminate]. apply Hk.
Qed.

Lemma never_throws_try_catch {A} (m : M S A) (handler : exn -> M S A) :
  (forall e, never_throws (handler e)) -> never_throws (try_catch m handler).
Proof.
  intros Hh s. unfold try_catch.
  destruct (m s) as [[a|e] s']; [eexists; reflexivity|apply Hh].
Qed.

Lemma never_throws_try_finally {A} (m : M S A) (cleanup : M S unit) :
  never_throws m -> never_throws cleanup -> never_throws (try_finally m cleanup).
Proof.
  intros Hm Hc s. unfold try_finally. destruct (Hm s) as [a Ha].
  destruct (m s) as [r s']. destruct (Hc s') as [u Hu].
  destruct (cleanup s') as [[u'|e] s'']; simpl in *; [eauto|discriminate].
Qed.

End Settling.

Lemma preserves_ui_in_world {B U A X} (obs : Page B U -> X) (m : M (World B) A) :
  (forall p w, obs {| ui := ui p; world := w; navigations := navigations p;
                      timers := timers p |} = obs p) ->
  preserves obs (in_world m).
Proof.
  intros H p. unfold in_world. destruct (m (world p)) as [r w']. apply H.
Qed.

(** Splits a computation of a view, its state setters included. *)
Ltac view_step :=
  first
    [ frame_step
    | match goal with
      | |- preserves _ (set_state _) => apply preserves_modify; intros ?; reflexivity
      | |- preserves _ (navigate _) => apply preserves_modify; intros ?; reflexivity
      | |- preserves _ (setTimeout_navigate _ _) =>
          apply preserves_modify; intros ?; reflexivity
      end ].

Ltac settle_step :=
  match goal with
  | |- never_throws (bind _ _) => apply never_throws_bind; [|intros ?]
  | |- never_throws (try_catch _ _) => apply never_throws_try_catch; intros ?
  | |- never_throws (try_finally _ _) => apply never_throws_try_finally
  | |- never_throws (ret _) => apply never_throws_ret
  | |- never_throws (gets _) => apply never_throws_gets
  | |- never_throws (modify _) => apply never_throws_modify
  | |- never_throws (set_state _) => apply never_throws_modify
  | |- never_throws (navigate _) => apply never_throws_modify
  | |- never_throws (setTimeout_navigate _ _) => apply never_throws_modify
  | |- never_throws (if ?b then _ else _) => destruct b
  | |- never_throws (match ?x with _ => _ end) => destruct x
  end.


Section LoginSubmit.
Context {B : Type} (env : Env B).
Import LoginPage.

(** X12: A form the username of which is empty or white space only, or the
    password of which is empty, is not submitted: [onSubmit] shows the
    request to fill in both and does nothing else; no request is made
    and nothing is stored. Every other form passes the validation, a
    password of spaces included. *)
Theorem onSubmit_refuses_blank_form (p : Page B State) :
  (forallb is_white (username (ui p)) = true \/ password (ui p) = [] ->
   onSubmit env p
   = (Normal tt,
      {| ui := {| username := username (ui p); password := password (ui p);
                  selectedPortal := selectedPortal (ui p);
                  loading := loading (ui p);
                  error := Some (JStr (js "Please enter both username and password")) |};
         world := world p; navigations := navigations p; timers := timers p |}))
  /\ (forallb is_white (username (ui p)) = false -> password (ui p) <> [] ->
      isFormValid (ui p) = true).
Proof.
  split.
  - intros Hblank.
    assert (Hinvalid : isFormValid (ui p) = false).
    { unfold isFormValid. destruct Hblank as [Hu|Hp].
      - apply trim_nil_iff in Hu. rewrite Hu. reflexivity.
      - rewrite Hp. apply andb_false_r. }
    unfold onSubmit. unfold bind at 1, gets. rewrite Hinvalid. reflexivity.
  - intros Hu Hp. unfold isFormValid.
    destruct (trim (username (ui p))) as [|c t] eqn:Htrim.
    + apply trim_nil_iff in Htrim. congruence.
    + destruct (password (ui p)); [congruence|reflexivity].
Qed.

Lemma onSubmit_never_throws : never_throws (onSubmit env).
Proof.
  unfold onSubmit, setError, setLoading.
  repeat settle_step.
Qed.

Lemma onSubmit_keeps_form :
  preserves (fun p : Page B State =>
               (username (ui p), password (ui p), selectedPortal (ui p), timers p))
    (onSubmit env).
Proof.
  unfold onSubmit, setError, setLoading.
  repeat first [view_step | apply preserves_ui_in_world; intros; reflexivity].
Qed.

Lemma onSubmit_keeps_other_keys key :
  other_key key ->
  preserves (fun p : Page B State => at_key key (world p)) (onSubmit env).
Proof.
  intros Hkey. unfold onSubmit, setError, setLoading.
  repeat view_step;
    auto using at_key_fetch, at_key_saveTokens, at_key_fetchWithAuth,
      at_key_handleApiResponse.
Qed.

(** X13: Whatever the backend answers, [onSubmit] completes without
    throwing; it leaves the username, the password, the selected portal
    and the pending timers as they were, writes to [localStorage] under
    the three keys of the session manager only, and, once the form
    passed validation, ends with the loading flag off. *)
Theorem onSubmit_always_settles (p : Page B State) :
  exists p',
    onSubmit env p = (Normal tt, p')
    /\ username (ui p') = username (ui p)
    /\ password (ui p') = password (ui p)
    /\ selectedPortal (ui p') = selectedPortal (ui p)
    /\ timers p' = timers p
    /\ (forall key, key <> Auth.ACCESS_TOKEN_KEY -> key <> Auth.REFRESH_TOKEN_KEY ->
          key <> Auth.AUTH_USER_KEY ->
          storage (world p') !! key = storage (world p) !! key)
    /\ (isFormValid (ui p) = true -> loading (ui p') = false).
Proof.
  destruct (onSubmit_never_throws p) as [[] Hrun].
  pose proof (onSubmit_keeps_form p) as Hform.
  destruct (onSubmit env p) as [r p'] eqn:Hp'. simpl in Hrun, Hform. subst r.
  injection Hform as Hu Hpw Hportal Htimers.
  exists p'. split; [reflexivity|]. repeat (split; [assumption|]).
  split.
  - intros key Ha Hr Hau.
    pose proof (onSubmit_keeps_other_keys key (conj Ha (conj Hr Hau)) p) as Hkey.
    rewrite Hp' in Hkey. exact Hkey.
  - intros Hvalid. revert Hp'.
    unfold onSubmit. unfold bind at 1, gets. rewrite Hvalid. cbn [negb].
    unfold bind at 1. unfold setLoading at 1, set_state at 1, modify at 1.
    unfold bind at 1. unfold setError at 1, set_state at 1, modify at 1.
    unfold try_finally.
    match goal with |- context [try_catch ?m ?h ?s] => destruct (try_catch m h s) as [r q] end.
    unfold setLoading, set_state, modify. intros [= _ <-]. reflexivity.
Qed.

(** [res.ok && data.access && data.refresh] of a body that is not
    [null]. *)
Lemma tokens_issued_defined res data :
  data <> JNull ->
  tokens_issued res data
  = Normal (ok res && val_truthy (own_prop data "access")
            && val_truthy (own_prop data "refresh")).
Proof.
  intros Hdata. unfold tokens_issued.
  assert (Hprop : forall k, get_prop data k = Normal (own_prop data k))
    by (intros k; destruct data; [congruence|reflexivity..]).
  rewrite !Hprop.
  destruct (ok res), (val_truthy (own_prop data "access")); reflexivity.
Qed.

(** The run of [onSubmit] whose request does not bring both tokens, with
    the message it shows. *)
Lemma onSubmit_refusal (p : Page B State) result w1 :
  isFormValid (ui p) = true ->
  served env (world p) (token_url env) (token_options env (ui p)) = (result, w1) ->
  (forall res data,
      result = Responded res -> json_body res = Normal data ->
      tokens_issued res data <> Normal true) ->
  onSubmit env p
  = (Normal tt,
     {| ui := {| username := username (ui p); password := password (ui p);
                 selectedPortal := selectedPortal (ui p);
                 loading := false;
                 error :=
                   match result with
                   | Responded res =>
                       match json_body res with
                       | Normal JNull | Throw _ =>
                           Some (JStr (js "Network error. Please check your connection and try again."))
                       | Normal data =>
                           or_else (own_prop data "detail")
                             (Some (JStr (js "Invalid username or password")))
                       end
                   | Rejected _ =>
                       Some (JStr (js "Network error. Please check your connection and try again."))
                   end |};
        world := w1; navigations := navigations p; timers := timers p |}).
Proof.
  intros Hvalid Hserved Hrefused.
  unfold onSubmit. unfold bind at 1, gets. rewrite Hvalid. cbn [negb].
  unfold try_finally, try_catch, bind, in_world, setLoading, setError, set_state,
    modify, lift, ret, navigate.
  cbn [ui world navigations timers].
  rewrite fetch_served, Hserved.
  destruct result as [res|e]; [|reflexivity].
  destruct (json_body res) as [data|e] eqn:Hdata; [|reflexivity].
  specialize (Hrefused res data eq_refl Hdata).
  assert (Hcases : data = JNull \/ data <> JNull)
    by (destruct data; [now left|right; discriminate..]).
  destruct Hcases as [->|Hnull].
  - unfold tokens_issued. destruct (ok res); reflexivity.
  - rewrite (tokens_issued_defined res data Hnull) in Hrefused |- *.
    destruct (ok res && val_truthy (own_prop data "access")
              && val_truthy (own_prop data "refresh")); [congruence|].
    destruct data; [congruence|reflexivity..].
Qed.

(** X14: Credentials the token endpoint does not answer with both tokens for
    are refused. When the answer has a JSON body other than [null], the
    error shown is the [detail] of that body, or "Invalid username or
    password" without one, whatever the status. When the request fails,
    or the body of the answer is not JSON or is [null], the error shown
    is "Network error. Please check your connection and try again."
    Either way that one request is all that is sent, nothing is stored,
    nothing is navigated to and the view stops loading. *)
Theorem onSubmit_rejected_credentials (p : Page B State) result w1 :
  isFormValid (ui p) = true ->
  served env (world p) (token_url env) (token_options env (ui p)) = (result, w1) ->
  (forall res data,
      result = Responded res -> json_body res = Normal data ->
      tokens_issued res data <> Normal true) ->
  exists p',
    onSubmit env p = (Normal tt, p')
    /\ (forall res data,
          result = Responded res -> json_body res = Normal data -> data <> JNull ->
          error (ui p')
          = or_else (own_prop data "detail")
              (Some (JStr (js "Invalid username or password"))))
    /\ ((forall res data,
           result = Responded res -> json_body res = Normal data -> data = JNull) ->
        error (ui p')
        = Some (JStr (js "Network error. Please check your connection and try again.")))
    /\ loading (ui p') = false
    /\ navigations p' = navigations p
    /\ storage (world p') = storage (world p)
    /\ trace (world p')
       = trace (world p) ++ [{| call_url := token_url env;
                                call_options := token_options env (ui p);
                                call_result := result |}].
Proof.
  intros Hvalid Hserved Hrefused.
  destruct (served_frame env _ _ _ _ _ Hserved) as (Hst & _ & Htr).
  eexists. split; [exact (onSubmit_refusal p result w1 Hvalid Hserved Hrefused)|].
  cbn [ui world navigations timers loading error].
  split; [|split; [|auto]].
  - intros res data -> Hdata Hnull. rewrite Hdata.
    destruct data; [congruence|reflexivity..].
  - intros Hnone. destruct result as [res|e]; [|reflexivity].
    destruct (json_body res) as [data|e] eqn:Hdata; [|reflexivity].
    now rewrite (Hnone res data eq_refl Hdata).
Qed.

(** X15: When the tokens were issued but the profile cannot be had (the
    request fails, or its answer is refused by [handleApiResponse]),
    the sign-in goes through all the same: the tokens are stored again
    with the bare username as the user, and the view navigates to
    [/home] whatever portal was selected, the Admin portal included. *)
Theorem onSubmit_profile_failure_goes_home (p : Page B State)
    res data access refresh w1 w2 e w3 w4 :
  isFormValid (ui p) = true ->
  served env (world p) (token_url env) (token_options env (ui p))
    = (Responded res, w1) ->
  ok res = true ->
  json_body res = Normal data ->
  get_prop data "access" = Normal access -> val_truthy access = true ->
  get_prop data "refresh" = Normal refresh -> val_truthy refresh = true ->
  Auth.saveTokens env access refresh None w1 = (Normal tt, w2) ->
  (Auth.fetchWithAuth env (profile_url env) no_options w2 = (Throw e, w3)
   \/ exists profileRes,
        Auth.fetchWithAuth env (profile_url env) no_options w2 = (Normal profileRes, w3)
        /\ Auth.handleApiResponse profileRes w3 = (Throw e, w3)) ->
  Auth.saveTokens env access refresh
    (Some (JObj {[ js "username" := JStr (username (ui p)) ]})) w3 = (Normal tt, w4) ->
  exists p',
    onSubmit env p = (Normal tt, p')
    /\ world p' = w4
    /\ navigations p' = navigations p ++ [js "/home"]
    /\ error (ui p') = None
    /\ loading (ui p') = false
    /\ storage w4 !! Auth.ACCESS_TOKEN_KEY = Some (val_ToString access)
    /\ storage w4 !! Auth.REFRESH_TOKEN_KEY = Some (val_ToString refresh)
    /\ storage w4 !! Auth.AUTH_USER_KEY
       = Some (JSON_stringify env (JObj {[ js "username" := JStr (username (ui p)) ]})).
Proof.
  intros Hvalid Hserved Hok Hdata Haccess Hat Hrefresh Hrt Hsave1 Hprofile Hsave2.
  destruct (saveTokens_spec env access refresh
              (Some (JObj {[ js "username" := JStr (username (ui p)) ]})) w3)
    as (w4' & Hsave2' & _ & _ & _ & Ha & Hr & Hu).
  rewrite Hsave2 in Hsave2'. injection Hsave2' as <-.
  rewrite Hat in Ha. rewrite Hrt in Hr. cbn in Hu.
  unfold onSubmit. unfold bind at 1, gets. rewrite Hvalid. cbn [negb].
  unfold try_finally, try_catch, bind, in_world, setLoading, setError, set_state,
    modify, lift, ret, navigate.
  cbn [ui world navigations timers].
  rewrite fetch_served, Hserved, Hdata.
  unfold tokens_issued. rewrite Hok, Haccess, Hat, Hrefresh, Hrt.
  cbn [ui world navigations timers]. rewrite Hsave1.
  cbn [ui world navigations timers].
  destruct Hprofile as [Hthrow|(profileRes & Hfetch & Hhandle)].
  - rewrite Hthrow. cbn [ui world navigations timers username]. rewrite Hsave2.
    eexists. split; [reflexivity|]. cbn [ui world navigations timers loading error].
    auto 10.
  - rewrite Hfetch. cbn [ui world navigations timers]. rewrite Hhandle.
    cbn [ui world navigations timers username]. rewrite Hsave2.
    eexists. split; [reflexivity|]. cbn [ui world navigations timers loading error].
    auto 10.
Qed.

End LoginSubmit.

Section ReviewActions.
Context {B : Type} (env : Env B).
Import ReviewPage.

(** X16: A finalize action that succeeds without a JSON body (a 204, say) is
    shown as a failure: the POST was accepted, yet the view ends with
    the error of reading the body, no success message, and no
    navigation scheduled; the PATCH is not tried. *)
Theorem acceptAndFinalize_success_without_body (p : Page B State) access res e w1 :
  truthy (doc (ui p)) = true ->
  storage (world p) !! Auth.ACCESS_TOKEN_KEY = Some access ->
  access <> [] ->
  served env (world p) (finalize_url env (own_prop (doc (ui p)) "id"))
    (Auth.with_bearer finalize_options access) = (Responded res, w1) ->
  ok res = true ->
  json_body res = Throw e ->
  acceptAndFinalize env p
  = (Normal tt,
     {| ui := {| loading := loading (ui p); doc := doc (ui p);
                 fields := fields (ui p); message := None;
                 error := Some (if str_truthy (exn_message e) then exn_message e
                                else js "Failed to finalize document") |};
        world := w1; navigations := navigations p; timers := timers p |})
  /\ trace w1
     = trace (world p)
       ++ [{| call_url := finalize_url env (own_prop (doc (ui p)) "id");
              call_options := Auth.with_bearer finalize_options access;
              call_result := Responded res |}].
Proof.
  intros Hdoc Hstored Hne Hserved Hok Hbody.
  destruct (served_frame env _ _ _ _ _ Hserved) as (_ & _ & Htr).
  split; [|exact Htr].
  unfold acceptAndFinalize. unfold bind at 1, gets. rewrite Hdoc. cbn [negb].
  unfold try_catch, bind, in_world, setMessage, setError, set_state, modify,
    lift, ret, setTimeout_navigate.
  cbn [ui world navigations timers doc loading fields message error].
  rewrite (get_prop_truthy _ _ Hdoc).
  rewrite (fetchWithAuth_answered env _ _ _ _ _ _ Hstored Hne Hserved (ok_not_401 _ Hok)).
  cbn [ui world navigations timers].
  rewrite (handleApiResponse_ok res w1 Hok), Hbody. reflexivity.
Qed.




End ReviewActions.

Section Listing.
Context {B : Type} (env : Env B).
Import BulkReviewList.

Lemma isAuthenticated_run (w : World B) :
  Auth.isAuthenticated w = (Normal (Auth.item_truthy (storage w !! Auth.ACCESS_TOKEN_KEY)), w).
Proof. reflexivity. Qed.

Lemma fetchWithAuth_no_token url options (w : World B) :
  Auth.item_truthy (storage w !! Auth.ACCESS_TOKEN_KEY) = false ->
  Auth.fetchWithAuth env url options w
  = (Throw (Error (js "No authentication token available")), w).
Proof.
  intros Hfalsy. unfold Auth.fetchWithAuth, bind, Auth.getAccessToken, getItem, gets.
  destruct (storage w !! Auth.ACCESS_TOKEN_KEY) as [[|c t]|];
    [reflexivity|discriminate|reflexivity].
Qed.

(** X18: Logging out ends the session on the spot: [handleLogout] removes
    the two tokens and the cached user and navigates to [/login]
    without a request to the backend; from then on [fetchWithAuth]
    refuses every request before it is sent, and mounting the list
    again sends the browser to [/login] and asks the backend for
    nothing. *)
Theorem handleLogout_ends_session (p : Page B State) :
  exists p',
    handleLogout p = (Normal tt, p')
    /\ ui p' = ui p
    /\ session_cleared (world p')
    /\ trace (world p') = trace (world p)
    /\ navigations p' = navigations p ++ [js "/login"]
    /\ (forall url options,
          Auth.fetchWithAuth env url options (world p')
          = (Throw (Error (js "No authentication token available")), world p'))
    /\ (forall cancelled,
          on_mount env cancelled p'
          = (Normal tt,
             {| ui := ui p'; world := world p';
                navigations := navigations p' ++ [js "/login"];
                timers := timers p' |})).
Proof.
  eexists. split; [reflexivity|].
  cbn [ui world navigations timers storage trace].
  assert (Hcleared : session_cleared
            (B := B)
            {| storage := delete Auth.AUTH_USER_KEY
                            (delete Auth.REFRESH_TOKEN_KEY
                               (delete Auth.ACCESS_TOKEN_KEY (storage (world p))));
               backend := backend (world p); trace := trace (world p);
               location := location (world p) |}).
  { unfold session_cleared, Auth.ACCESS_TOKEN_KEY, Auth.REFRESH_TOKEN_KEY,
      Auth.AUTH_USER_KEY. simpl. repeat split; simplify_map_eq; reflexivity. }
  split; [reflexivity|]. split; [exact Hcleared|].
  split; [reflexivity|]. split; [reflexivity|].
  destruct Hcleared as (Hnone & _).
  split.
  - intros url options. apply fetchWithAuth_no_token.
    cbn [storage] in *. unfold Auth.item_truthy. now rewrite Hnone.
  - intros cancelled. unfold on_mount, bind at 1, in_world at 1.
    rewrite isAuthenticated_run. cbn [world storage] in *.
    rewrite Hnone. reflexivity.
Qed.






End Listing.

Section Profile.
Context {B : Type} (env : Env B).
Import ProfilePage.

(** X21: A cached user that is not JSON stops the Profile view at its mount:
    the [SyntaxError] of [getAuthUser] is thrown by the effect before
    the user is shown or the profile requested, and the view is left
    as it was, its loading flag included. *)
Theorem profile_mount_throws_on_corrupt_user (p : Page B State) text e :
  Auth.item_truthy (storage (world p) !! Auth.ACCESS_TOKEN_KEY) = true ->
  storage (world p) !! Auth.AUTH_USER_KEY = Some text ->
  text <> [] ->
  JSON_parse text = Throw e ->
  on_mount env p = (Throw e, p).
Proof.
  intros Htruthy Hstored Hne Hparse.
  unfold on_mount, bind at 1, in_world at 1.
  rewrite isAuthenticated_run, Htruthy. cbn [negb].
  unfold bind at 1, in_world at 1. cbn [ui world navigations timers].
  unfold Auth.getAuthUser, bind, getItem, gets, lift. rewrite Hstored.
  destruct text as [|c t]; [congruence|]. cbn [str_truthy]. rewrite Hparse.
  destruct p. reflexivity.
Qed.




End Profile.

Section AdminGuard.
Context {B : Type} (env : Env B).
Import AdminUsers.

Lemma opt_prop_own (v : json) k : truthy v = true -> opt_prop v k = own_prop v k.
Proof. destruct v; [discriminate|reflexivity..]. Qed.

(** X23: The guard of the admin page and the portal check of the login agree on who
    is an administrator as far as the login goes: every profile the
    login treats as administrative is let through by the guard. Without
    a token the guard sends the browser to [/login], and with a cached
    user it does not take for an administrator to [/home], in both cases
    asking the backend for nothing; past the guard the users are
    fetched. *)
Theorem admin_mount_guards_page (p : Page B State) :
  (forall profile, LoginPage.isAdminAccount profile = true -> not_admin profile = false)
  /\ (Auth.item_truthy (storage (world p) !! Auth.ACCESS_TOKEN_KEY) = false ->
      on_mount env p
      = (Normal tt,
         {| ui := ui p;
            world := {| storage := storage (world p); backend := backend (world p);
                        trace := trace (world p); location := Some (js "/login") |};
            navigations := navigations p; timers := timers p |}))
  /\ (forall authUser,
        Auth.item_truthy (storage (world p) !! Auth.ACCESS_TOKEN_KEY) = true ->
        Auth.getAuthUser (world p) = (Normal authUser, world p) ->
        (not_admin authUser = true ->
         on_mount env p
         = (Normal tt,
            {| ui := ui p;
               world := {| storage := storage (world p); backend := backend (world p);
                           trace := trace (world p); location := Some (js "/home") |};
               navigations := navigations p; timers := timers p |}))
        /\ (not_admin authUser = false -> on_mount env p = fetchUsers env p)).
Proof.
  split; [|split].
  - intros profile Hadmin. unfold LoginPage.isAdminAccount in Hadmin.
    assert (Htruthy : truthy profile = true).
    { destruct profile; try reflexivity; cbn in Hadmin; discriminate Hadmin. }
    rewrite !(opt_prop_own _ _ Htruthy) in Hadmin.
    unfold not_admin. rewrite Htruthy. cbn [negb orb].
    apply orb_prop in Hadmin as [Hadmin|Hsuper].
    + apply orb_prop in Hadmin as [Hrole|Hstaff].
      * now rewrite Hrole.
      * assert (Hs : val_truthy (own_prop profile "is_staff") = true).
        { destruct (own_prop profile "is_staff") as [[| [] | | | |]|];
            try discriminate Hstaff; reflexivity. }
        rewrite Hs. cbn. now rewrite andb_false_r.
    + assert (Hs : val_truthy (own_prop profile "is_superuser") = true).
      { destruct (own_prop profile "is_superuser") as [[| [] | | | |]|];
          try discriminate Hsuper; reflexivity. }
      rewrite Hs. cbn. apply andb_false_r.
  - intros Hfalsy. unfold on_mount, bind at 1, in_world at 1.
    rewrite isAuthenticated_run, Hfalsy. reflexivity.
  - intros authUser Htruthy Huser.
    assert (Hrun : on_mount env p
                   = (if not_admin authUser then in_world (set_location (js "/home"))
                      else fetchUsers env) p).
    { unfold on_mount, bind at 1, in_world at 1.
      rewrite isAuthenticated_run, Htruthy. cbn [negb].
      unfold bind at 1, in_world at 1. cbn [ui world navigations timers].
      rewrite Huser. destruct p. reflexivity. }
    rewrite Hrun. split; intros ->; reflexivity.
Qed.

End AdminGuard.

Section AdminListing.
Context {B : Type} (env : Env B).
Import AdminUsers.

Lemma fetchUsers_never_throws : never_throws (fetchUsers env).
Proof. unfold fetchUsers. repeat settle_step. Qed.

Lemma fetchUsers_keeps :
  preserves (fun p : Page B State =>
               (username (ui p), email (ui p), role (ui p), password (ui p),
                message (ui p), loading (ui p), navigations p, timers p))
    (fetchUsers env).
Proof.
  unfold fetchUsers, setUsers.
  repeat first [view_step | apply preserves_ui_in_world; intros; reflexivity].
Qed.

(** X28: [fetchUsers] never throws and shows no error: of the view it
    changes the users only. Of a listing that arrived it takes the
    answer itself when it is an array, else its [results], else its
    [items], else no user; an answer of [null], like a request that
    failed, leaves the users as they were. *)
Theorem fetchUsers_reads_listing (p : Page B State) :
  exists p',
    fetchUsers env p = (Normal tt, p')
    /\ (username (ui p'), email (ui p'), role (ui p'), password (ui p'),
        message (ui p'), loading (ui p'), navigations p', timers p')
       = (username (ui p), email (ui p), role (ui p), password (ui p),
          message (ui p), loading (ui p), navigations p, timers p)
    /\ (forall e w1,
          Auth.fetchWithAuth env (users_url env) no_options (world p) = (Throw e, w1) ->
          users (ui p') = users (ui p))
    /\ (forall res w1 data,
          Auth.fetchWithAuth env (users_url env) no_options (world p) = (Normal res, w1) ->
          ok res = true ->
          json_body res = Normal data ->
          (forall l, data = JArr l -> users (ui p') = JArr l)
          /\ (forall m listed, data = JObj m -> m !! js "results" = Some listed ->
                truthy listed = true -> users (ui p') = listed)
          /\ (forall m listed, data = JObj m -> val_truthy (m !! js "results") = false ->
                m !! js "items" = Some listed -> truthy listed = true ->
                users (ui p') = listed)
          /\ (forall m, data = JObj m -> val_truthy (m !! js "results") = false ->
                val_truthy (m !! js "items") = false -> users (ui p') = JArr [])
          /\ (data = JNull -> users (ui p') = users (ui p))
          /\ (forall b, data = JBool b -> users (ui p') = JArr [])
          /\ (forall n, data = JNum n -> users (ui p') = JArr [])
          /\ (forall t, data = JStr t -> users (ui p') = JArr [])).
Proof.
  destruct (fetchUsers_never_throws p) as [[] Hrun].
  pose proof (fetchUsers_keeps p) as Hkept.
  destruct (fetchUsers env p) as [r p'] eqn:Hp'. simpl in Hrun, Hkept. subst r.
  exists p'. split; [reflexivity|]. split; [exact Hkept|].
  revert Hp'. unfold fetchUsers, try_catch, bind, in_world, setUsers, set_state,
    modify, lift, ret.
  split.
  - intros e w1 Hfetch. revert Hp'. rewrite Hfetch. intros [= <-]. reflexivity.
  - intros res w1 data Hfetch Hok Hbody. revert Hp'. rewrite Hfetch.
    cbn [ui world navigations timers].
    rewrite (handleApiResponse_ok res w1 Hok), Hbody.
    destruct data as [| b | n | s | l | m]; cbn.
    + intros [= <-]. repeat split; intros; first [discriminate | reflexivity].
    + intros [= <-]. repeat split; intros; first [discriminate | reflexivity].
    + intros [= <-]. repeat split; intros; first [discriminate | reflexivity].
    + intros [= <-]. repeat split; intros; first [discriminate | reflexivity].
    + intros [= <-]. split; [intros l' [= <-]; reflexivity|].
      repeat split; intros; discriminate.
    + unfold or_else.
      destruct (m !! js "results") as [listed|] eqn:Hres;
        [destruct (truthy listed) eqn:Ht|]; cbn [val_truthy];
        rewrite ?Ht;
        try (destruct (m !! js "items") as [item|] eqn:Hitems;
             [destruct (truthy item) eqn:Hti|]; cbn [val_truthy]; rewrite ?Hti);
        cbn; intros [= <-]; cbn;
        (split; [intros; discriminate|]);
        (split; [intros m' x [= <-] Hx Htx; try congruence|]);
        (split; [intros m' x [= <-] Hx Hy Htx;
                 rewrite ?Hres in Hx; cbn in Hx; try congruence|]);
        (split; [intros m' [= <-] Hx Hy;
                 rewrite ?Hres in Hx; rewrite ?Hitems in Hy; cbn in Hx, Hy;
                 try congruence|
                 repeat split; intros; discriminate]).
Qed.

End AdminListing.

Section LegacyTree.
Context {B : Type} (env : Env B).

Lemma legacy_refreshAccessToken_no_token (w : World B) :
  Auth.item_truthy (storage w !! "refresh_token") = false ->
  Legacy.Auth.refreshAccessToken env w = (Normal (Some JNull), w).
Proof.
  intros Hfalsy.
  unfold Legacy.Auth.refreshAccessToken, bind, Legacy.Auth.getRefreshToken, getItem, gets.
  destruct (storage w !! "refresh_token") as [[|c r]|];
    [reflexivity|discriminate|reflexivity].
Qed.

(** X24: The earlier session manager sends a request also when no token is
    stored, with an empty [Authorization] header, where the later one
    refuses to; and a 401 it cannot refresh its way out of is returned
    to the caller as a response: nothing is thrown, nothing is removed
    from storage and the location is not set. *)
Theorem legacy_fetchWithAuth_without_token (w : World B) url options result w1 :
  Auth.item_truthy (storage w !! "access_token") = false ->
  served env w url (Legacy.Auth.with_authorization options (js "")) = (result, w1) ->
  (forall e, result = Rejected e ->
     Legacy.Auth.fetchWithAuth env url options w = (Throw e, w1))
  /\ (forall res, result = Responded res -> status res <> 401%N ->
        Legacy.Auth.fetchWithAuth env url options w = (Normal res, w1))
  /\ (forall res, result = Responded res -> status res = 401%N ->
        Auth.item_truthy (storage w !! "refresh_token") = false ->
        Legacy.Auth.fetchWithAuth env url options w = (Normal res, w1))
  /\ storage w1 = storage w
  /\ location w1 = location w
  /\ trace w1
     = trace w ++ [{| call_url := url;
                      call_options := Legacy.Auth.with_authorization options (js "");
                      call_result := result |}].
Proof.
  intros Hfalsy Hserved.
  destruct (served_frame env _ _ _ _ _ Hserved) as (Hst & Hloc & Htr).
  assert (Hstart : Legacy.Auth.fetchWithAuth env url options w
            = (res <- lift (match result with
                            | Responded r => Normal r
                            | Rejected e => Throw e
                            end) ;;
               if (status res =? 401)%N then
                 newAccess <- Legacy.Auth.refreshAccessToken env ;;
                 if negb (val_truthy newAccess) then ret res
                 else fetch env url
                        (Legacy.Auth.with_authorization
                           (Legacy.Auth.with_authorization options (js ""))
                           (js "Bearer " ++ val_ToString newAccess))
               else ret res) w1).
  { unfold Legacy.Auth.fetchWithAuth, bind at 1, Legacy.Auth.getAccessToken, getItem, gets.
    assert (Hheader : match storage w !! "access_token" with
                      | Some access => if str_truthy access then js "Bearer " ++ access
                                       else js ""
                      | None => js ""
                      end = js "").
    { destruct (storage w !! "access_token") as [[|c t]|];
        [reflexivity|discriminate Hfalsy|reflexivity]. }
    rewrite Hheader. unfold bind at 1 3. rewrite fetch_served, Hserved.
    destruct result; reflexivity. }
  rewrite Hstart.
  split; [|split; [|split]]; [| | |auto].
  - intros e ->. reflexivity.
  - intros res -> H401. apply N.eqb_neq in H401.
    unfold bind at 1, lift. rewrite H401. reflexivity.
  - intros res -> H401 Hrefresh. apply N.eqb_eq in H401.
    unfold bind at 1, lift. rewrite H401.
    rewrite <- Hst in Hrefresh.
    unfold bind at 1. rewrite (legacy_refreshAccessToken_no_token _ Hrefresh).
    reflexivity.
Qed.

Import Legacy.LoginPage.

(** X25: The earlier login view and the earlier session manager do not
    share their keys: a sign-in stores the tokens under [access] and
    [refresh] and navigates to [/home], while the session manager reads
    [access_token] and [refresh_token], which the sign-in leaves as
    they were; after a sign-in on a fresh browser it still finds no
    token. *)
Theorem legacy_login_is_not_seen (p : Page B State) res data access refresh w1 :
  served env (world p) (token_url env) (token_options env (ui p))
    = (Responded res, w1) ->
  ok res = true ->
  json_body res = Normal data ->
  get_prop data "access" = Normal access -> val_truthy access = true ->
  get_prop data "refresh" = Normal refresh -> val_truthy refresh = true ->
  exists p',
    onSubmit env p = (Normal tt, p')
    /\ navigations p' = navigations p ++ [js "/home"]
    /\ loading (ui p') = false
    /\ storage (world p') !! "access" = Some (val_ToString access)
    /\ storage (world p') !! "refresh" = Some (val_ToString refresh)
    /\ Legacy.Auth.getAccessToken (world p')
       = (Normal (storage (world p) !! "access_token"), world p')
    /\ Legacy.Auth.getRefreshToken (world p')
       = (Normal (storage (world p) !! "refresh_token"), world p').
Proof.
  intros Hserved Hok Hdata Haccess Hat Hrefresh Hrt.
  destruct (served_frame env _ _ _ _ _ Hserved) as (Hst & _ & _).
  unfold onSubmit. unfold bind at 1, gets.
  unfold try_finally, try_catch, bind, in_world, setLoading, setError, set_state,
    modify, lift, ret, navigate, setItem.
  cbn [ui world navigations timers].
  rewrite fetch_served, Hserved, Hdata.
  unfold tokens_issued. rewrite Hok, Haccess, Hat, Hrefresh, Hrt.
  cbn [ui world navigations timers storage].
  eexists. split; [reflexivity|].
  cbn [ui world navigations timers storage loading].
  unfold Legacy.Auth.getAccessToken, Legacy.Auth.getRefreshToken, getItem, gets.
  cbn [storage]. rewrite Hst.
  repeat split; simplify_map_eq; reflexivity.
Qed.

End LegacyTree.

(* ===================================================================== *)
(** ** The portal gate and the mount of the login view *)
(* ===================================================================== *)

Section GateAndMount.
Context {B : Type} (env : Env B).
Import LoginPage.

(** X26: A sign-in the portal gate refuses is a sign-in all the same: the
    tokens were stored before the profile was looked at, so when the
    login view is mounted again its own effect finds the session and
    navigates to [/home], for an administrator refused on the User
    portal as for an ordinary account refused on the Admin portal. *)
Theorem refused_sign_in_passes_on_mount (p : Page B State)
    res data a r w1 w2 profileRes w3 profile w4 w5 :
  isFormValid (ui p) = true ->
  served env (world p) (token_url env) (token_options env (ui p))
    = (Responded res, w1) ->
  ok res = true ->
  json_body res = Normal data ->
  get_prop data "access" = Normal (Some (JStr a)) -> a <> [] ->
  get_prop data "refresh" = Normal (Some (JStr r)) -> r <> [] ->
  Auth.saveTokens env (Some (JStr a)) (Some (JStr r)) None w1 = (Normal tt, w2) ->
  Auth.fetchWithAuth env (profile_url env) no_options w2 = (Normal profileRes, w3) ->
  Auth.handleApiResponse profileRes w3 = (Normal profile, w4) ->
  Auth.saveTokens env (Some (JStr a)) (Some (JStr r)) (Some profile) w4 = (Normal tt, w5) ->
  (selectedPortal (ui p) = js "user" /\ isAdminAccount profile = true
   \/ selectedPortal (ui p) = js "admin" /\ isAdminAccount profile = false) ->
  exists p',
    onSubmit env p = (Normal tt, p')
    /\ navigations p' = navigations p
    /\ (exists text, error (ui p') = Some (JStr text))
    /\ on_mount p'
       = (Normal tt,
          {| ui := ui p'; world := world p';
             navigations := navigations p ++ [js "/home"]; timers := timers p' |}).
Proof.
  intros Hvalid Hserved Hok Hdata Haccess Ha Hrefresh Hr Hsave1 Hprofile Hhandle Hsave2
    Hrefused.
  assert (Hat : str_truthy a = true) by (destruct a; [congruence|reflexivity]).
  assert (Hrt : str_truthy r = true) by (destruct r; [congruence|reflexivity]).
  destruct (saveTokens_spec env (Some (JStr a)) (Some (JStr r)) (Some profile) w4)
    as (w5' & Hsave2' & _ & _ & _ & Hstored & _).
  rewrite Hsave2 in Hsave2'. injection Hsave2' as <-.
  cbn [val_truthy truthy val_ToString ToString] in Hstored. rewrite Hat in Hstored.
  assert (Hmount : forall q : Page B State,
            world q = w5 ->
            on_mount q = (Normal tt,
                          {| ui := ui q; world := world q;
                             navigations := navigations q ++ [js "/home"];
                             timers := timers q |})).
  { intros q Hq. unfold on_mount, bind, in_world.
    rewrite isAuthenticated_run, Hq, Hstored. cbn [Auth.item_truthy]. rewrite Hat.
    rewrite <- Hq. reflexivity. }
  unfold onSubmit. unfold bind at 1, gets. rewrite Hvalid. cbn [negb].
  unfold try_finally, try_catch, bind, in_world, setLoading, setError, set_state,
    modify, lift, ret, navigate.
  cbn [ui world navigations timers].
  rewrite fetch_served, Hserved, Hdata.
  unfold tokens_issued. rewrite Hok, Haccess, Hrefresh.
  cbn [val_truthy truthy]. rewrite Hat, Hrt.
  cbn [ui world navigations timers]. rewrite Hsave1.
  cbn [ui world navigations timers]. rewrite Hprofile.
  cbn [ui world navigations timers]. rewrite Hhandle.
  cbn [ui world navigations timers]. rewrite Hsave2.
  cbn [ui world navigations timers].
  assert (Hportals : js "admin" <> js "user") by (vm_compute; discriminate).
  unfold str_eqb.
  destruct Hrefused as [[Hportal Hadmin]|[Hportal Hadmin]]; rewrite Hportal, Hadmin.
  - rewrite bool_decide_eq_false_2 by congruence.
    rewrite bool_decide_eq_true_2 by reflexivity.
    eexists. split; [reflexivity|]. cbn [ui world navigations timers error].
    split; [reflexivity|]. split; [eauto|].
    rewrite Hmount by reflexivity. reflexivity.
  - rewrite bool_decide_eq_true_2 by reflexivity. cbn [negb].
    eexists. split; [reflexivity|]. cbn [ui world navigations timers error].
    split; [reflexivity|]. split; [eauto|].
    rewrite Hmount by reflexivity. reflexivity.
Qed.

End GateAndMount.

Lemma refused_sign_in_passes_on_mount_witness :
  let p := LoginScenario.form_filled "user" in
  LoginPage.isFormValid (ui p) = true
  /\ exists p',
       LoginPage.onSubmit LoginScenario.admin_backend p = (Normal tt, p')
       /\ navigations p' = []
       /\ navigations (snd (LoginPage.on_mount p')) = [js "/home"].
Proof.
  intros p.
  assert (Hvalid : LoginPage.isFormValid (ui p) = true) by reflexivity.
  split; [exact Hvalid|].
  pose (env := LoginScenario.admin_backend).
  pose (data := Scenario.object [("access"%string, JStr (js "A1"));
                                 ("refresh"%string, JStr (js "R1"))]).
  pose (profile := Scenario.object [("username"%string, JStr (js "root"));
                                    ("role"%string, JStr (js "admin"));
                                    ("is_staff"%string, JBool true)]).
  pose (res := {| status := 200; statusText := js "OK"; json_body := Normal data |}).
  pose (profileRes := {| status := 200; statusText := js "OK";
                         json_body := Normal profile |}).
  pose (access := Some (JStr (js "A1"))).
  pose (refresh := Some (JStr (js "R1"))).
  pose (w1 := snd (served env (world p) (LoginPage.token_url env)
                     (LoginPage.token_options env (ui p)))).
  pose (w2 := snd (Auth.saveTokens env access refresh None w1)).
  pose (w3 := snd (Auth.fetchWithAuth env (LoginPage.profile_url env) no_options w2)).
  pose (w4 := snd (Auth.handleApiResponse profileRes w3)).
  pose (w5 := snd (Auth.saveTokens env access refresh (Some profile) w4)).
  destruct (refused_sign_in_passes_on_mount env p res data (js "A1") (js "R1")
              w1 w2 profileRes w3 profile w4 w5 Hvalid)
    as (p' & Hrun & Hnav & _ & Hmount);
    try (vm_compute; reflexivity); try (vm_compute; discriminate).
  { left. split; reflexivity. }
  exists p'. split; [exact Hrun|]. split; [exact Hnav|].
  rewrite Hmount. reflexivity.
Defined.

(* ===================================================================== *)
(** ** The properties at work *)
(* ===================================================================== *)

Lemma extension_follows_last_dot_witness :
  let file := {| name := js "report.exe.pdf"; type := js "application/pdf";
                 size := 1024 |} in
  ~ In 46%N (js "pdf")
  /\ name file = js "report.exe" ++ [46%N] ++ js "pdf"
  /\ Utils.validateFile file
     = Normal {| Utils.isValid := true; Utils.error := None |}.
Proof.
  intros file.
  assert (Hdot : ~ In 46%N (js "pdf")).
  { vm_compute. intros [H|[H|[H|[]]]]; discriminate H. }
  assert (Hname : name file = js "report.exe" ++ [46%N] ++ js "pdf") by reflexivity.
  split; [exact Hdot|]. split; [exact Hname|].
  destruct (extension_follows_last_dot (js "report.exe") (js "pdf") file Hdot Hname)
    as (_ & Hverdict & _).
  apply Hverdict.
  - vm_compute. auto 10.
  - vm_compute. discriminate.
  - left. reflexivity.
Defined.

Example formatFileSize_boundaries :
  Utils.formatFileSize 1048575 = js "1024 KB"
  /\ Utils.formatFileSize 1048576 = js "1 MB"
  /\ Utils.formatFileSize (1024 ^ 4) = js "1 undefined".
Proof. vm_compute. repeat split. Qed.

Lemma formatFileSize_units_witness :
  (0 < 1048575)%N
  /\ exists h unit,
       Utils.formatFileSize 1048575 = Utils.hundredths_text h ++ js " " ++ unit
       /\ In unit [js "Bytes"; js "KB"; js "MB"; js "GB"].
Proof.
  assert (Hpos : (0 < 1048575)%N) by reflexivity.
  split; [exact Hpos|].
  destruct (formatFileSize_units 1048575 Hpos) as (h & unit & Htext & _ & Hsmall & _).
  exists h, unit. split; [exact Htext|]. apply Hsmall. reflexivity.
Defined.

Lemma validateFiles_partition_witness :
  let good := {| name := js "scan.pdf"; type := js "application/pdf"; size := 1024 |} in
  let bad := {| name := js "notes.txt"; type := js "text/plain"; size := 1024 |} in
  exists report,
    Utils.validateFiles [good; bad; good] = Normal report
    /\ Utils.validFiles report = [good; good]
    /\ length (Utils.errors report) = 1.
Proof.
  intros good bad.
  destruct (validateFiles_partition [good; bad; good])
    as (report & Hrun & Hvalid & Herrors & _).
  exists report. split; [exact Hrun|]. split; [exact Hvalid|].
  apply Forall2_length in Herrors. rewrite <- Herrors. reflexivity.
Defined.

Lemma validators_agree_witness :
  let bad := {| name := js "notes.txt"; type := js "text/plain"; size := 1024 |} in
  exists report messages,
    Utils.validateFiles [bad] = Normal report
    /\ UploadPage.validateFiles [bad] = Normal messages
    /\ Utils.report_isValid report = false
    /\ length (Utils.errors report) = 1
    /\ length messages = 2.
Proof.
  intros bad.
  destruct (validators_agree [bad]) as (report & messages & Hrun & Hinline & _).
  exists report, messages. split; [exact Hrun|]. split; [exact Hinline|].
  vm_compute in Hrun, Hinline.
  injection Hrun as <-. injection Hinline as <-. repeat split.
Defined.

Lemma isValidEmail_shape_witness :
  Utils.isValidEmail (js "asha@upayngo.com") = true.
Proof.
  apply isValidEmail_shape.
  exists (js "asha"), (js "upayngo"), (js "com").
  split; [reflexivity|].
  split; [vm_compute; discriminate|].
  split; [vm_compute; discriminate|].
  split; [vm_compute; discriminate|].
  unfold js; simpl.
  repeat split; repeat (constructor; [split; [reflexivity|discriminate]|]); constructor.
Defined.

Lemma session_manager_keeps_other_keys_witness :
  let w := Scenario.world_with [("access"%string, js "stale"); ("refresh"%string, js "r1");
                                ("theme"%string, js "dark")] in
  "theme"%string <> Auth.ACCESS_TOKEN_KEY
  /\ "theme"%string <> Auth.REFRESH_TOKEN_KEY
  /\ "theme"%string <> Auth.AUTH_USER_KEY
  /\ storage (snd (Auth.fetchWithAuth SessionScenario.refresh_down
                     SessionScenario.documents_url no_options w)) !! "theme"
     = Some (js "dark")
  /\ storage (snd (Auth.fetchWithAuth SessionScenario.refresh_down
                     SessionScenario.documents_url no_options w)) !! "access"
     = None.
Proof.
  intros w.
  assert (Ha : "theme"%string <> Auth.ACCESS_TOKEN_KEY) by discriminate.
  assert (Hr : "theme"%string <> Auth.REFRESH_TOKEN_KEY) by discriminate.
  assert (Hu : "theme"%string <> Auth.AUTH_USER_KEY) by discriminate.
  split; [exact Ha|]. split; [exact Hr|]. split; [exact Hu|].
  destruct (session_manager_keeps_other_keys SessionScenario.refresh_down "theme" w
              SessionScenario.documents_url no_options SessionScenario.unauthorized
              None None None Ha Hr Hu)
    as (_ & _ & _ & Hfetch & _).
  split; [|vm_compute; reflexivity].
  rewrite Hfetch. reflexivity.
Defined.



Lemma onSubmit_refuses_blank_form_witness :
  let p := SignInScenario.blank_form in
  let run := LoginPage.onSubmit SignInScenario.wrong_password p in
  (forallb is_white (LoginPage.username (ui p)) = true
   \/ LoginPage.password (ui p) = [])
  /\ fst run = Normal tt
  /\ LoginPage.error (ui (snd run))
     = Some (JStr (js "Please enter both username and password"))
  /\ trace (world (snd run)) = [].
Proof.
  intros p run.
  assert (Hblank : forallb is_white (LoginPage.username (ui p)) = true
                   \/ LoginPage.password (ui p) = []) by (left; reflexivity).
  split; [exact Hblank|].
  subst run.
  rewrite (proj1 (onSubmit_refuses_blank_form SignInScenario.wrong_password p) Hblank).
  repeat split.
Defined.

Lemma onSubmit_always_settles_witness :
  let p := LoginScenario.form_filled "admin" in
  LoginPage.isFormValid (ui p) = true
  /\ exists p',
       LoginPage.onSubmit SignInScenario.profile_down p = (Normal tt, p')
       /\ LoginPage.password (ui p') = js "secret"
       /\ LoginPage.loading (ui p') = false.
Proof.
  intros p.
  assert (Hvalid : LoginPage.isFormValid (ui p) = true) by reflexivity.
  split; [exact Hvalid|].
  destruct (onSubmit_always_settles SignInScenario.profile_down p)
    as (p' & Hrun & _ & Hpassword & _ & _ & _ & Hloading).
  exists p'. split; [exact Hrun|]. split; [exact Hpassword|]. exact (Hloading Hvalid).
Defined.

Lemma onSubmit_rejected_credentials_witness :
  let p := LoginScenario.form_filled "user" in
  LoginPage.isFormValid (ui p) = true
  /\ (exists p',
        LoginPage.onSubmit SignInScenario.wrong_password p = (Normal tt, p')
        /\ LoginPage.error (ui p')
           = Some (JStr (js "No active account found with the given credentials"))
        /\ navigations p' = []
        /\ storage (world p') = storage (world p))
  /\ (exists p',
        LoginPage.onSubmit SignInScenario.bad_gateway p = (Normal tt, p')
        /\ LoginPage.error (ui p')
           = Some (JStr (js "Network error. Please check your connection and try again."))
        /\ navigations p' = []
        /\ storage (world p') = storage (world p)).
Proof.
  intros p.
  assert (Hvalid : LoginPage.isFormValid (ui p) = true) by reflexivity.
  split; [exact Hvalid|]. split.
  - pose (env := SignInScenario.wrong_password).
    pose (data := Scenario.object
                    [("detail"%string,
                      JStr (js "No active account found with the given credentials"))]).
    pose (res := {| status := 401; statusText := js "Unauthorized";
                    json_body := Normal data |}).
    destruct (onSubmit_rejected_credentials env p (Responded res)
                (snd (served env (world p) (LoginPage.token_url env)
                        (LoginPage.token_options env (ui p))))
                Hvalid eq_refl)
      as (p' & Hrun & Hdetail & _ & _ & Hnav & Hstorage & _).
    { intros res' data' [= <-] [= <-]. vm_compute. discriminate. }
    exists p'. split; [exact Hrun|].
    split; [|split; [exact Hnav|exact Hstorage]].
    rewrite (Hdetail res data eq_refl eq_refl) by discriminate. reflexivity.
  - pose (env := SignInScenario.bad_gateway).
    pose (res := {| status := 502; statusText := js "Bad Gateway";
                    json_body := Throw (SyntaxError (js "Unexpected token < in JSON")) |}).
    destruct (onSubmit_rejected_credentials env p (Responded res)
                (snd (served env (world p) (LoginPage.token_url env)
                        (LoginPage.token_options env (ui p))))
                Hvalid eq_refl)
      as (p' & Hrun & _ & Hnetwork & _ & Hnav & Hstorage & _).
    { intros res' data' [= <-] [=]. }
    exists p'. split; [exact Hrun|].
    split; [|split; [exact Hnav|exact Hstorage]].
    apply Hnetwork. intros res' data' [= <-] [=].
Defined.

Lemma onSubmit_profile_failure_goes_home_witness :
  let env := SignInScenario.profile_down in
  let p := LoginScenario.form_filled "admin" in
  LoginPage.isFormValid (ui p) = true
  /\ exists p',
       LoginPage.onSubmit env p = (Normal tt, p')
       /\ navigations p' = [js "/home"]
       /\ LoginPage.error (ui p') = None
       /\ storage (world p') !! Auth.ACCESS_TOKEN_KEY = Some (js "A1").
Proof.
  intros env p.
  assert (Hvalid : LoginPage.isFormValid (ui p) = true) by reflexivity.
  split; [exact Hvalid|].
  pose (data := Scenario.object [("access"%string, JStr (js "A1"));
                                 ("refresh"%string, JStr (js "R1"))]).
  pose (res := {| status := 200; statusText := js "OK"; json_body := Normal data |}).
  pose (access := Some (JStr (js "A1"))).
  pose (refresh := Some (JStr (js "R1"))).
  pose (w1 := snd (served env (world p) (LoginPage.token_url env)
                     (LoginPage.token_options env (ui p)))).
  pose (w2 := snd (Auth.saveTokens env access refresh None w1)).
  pose (w3 := snd (Auth.fetchWithAuth env (LoginPage.profile_url env) no_options w2)).
  pose (w4 := snd (Auth.saveTokens env access refresh
                     (Some (JObj {[ js "username" := JStr (LoginPage.username (ui p)) ]}))
                     w3)).
  pose (profileRes := {| status := 500; statusText := js "Internal Server Error";
                         json_body := Normal (Scenario.object
                                        [("detail"%string, JStr (js "Server error"))]) |}).
  destruct (onSubmit_profile_failure_goes_home env p res data access refresh w1 w2
              (Error (js "Server error")) w3 w4 Hvalid)
    as (p' & Hrun & Hworld & Hnav & Herror & _ & Ha & _);
    try (vm_compute; reflexivity).
  { right. exists profileRes. split; vm_compute; reflexivity. }
  exists p'. rewrite Hworld. auto.
Defined.

Lemma acceptAndFinalize_success_without_body_witness :
  let env := FinalizeScenario.no_content in
  let p := ReviewScenario.reviewing in
  let run := ReviewPage.acceptAndFinalize env p in
  truthy (ReviewPage.doc (ui p)) = true
  /\ storage (world p) !! Auth.ACCESS_TOKEN_KEY = Some (js "tok")
  /\ fst run = Normal tt
  /\ ReviewPage.error (ui (snd run)) = Some (js "Unexpected end of JSON input")
  /\ ReviewPage.message (ui (snd run)) = None
  /\ timers (snd run) = [].
Proof.
  intros env p run.
  assert (Hdoc : truthy (ReviewPage.doc (ui p)) = true) by reflexivity.
  assert (Hstored : storage (world p) !! Auth.ACCESS_TOKEN_KEY = Some (js "tok"))
    by reflexivity.
  assert (Hne : js "tok" <> []) by (vm_compute; discriminate).
  split; [exact Hdoc|]. split; [exact Hstored|].
  pose (res := {| status := 204; statusText := js "No Content";
                  json_body := Throw (SyntaxError (js "Unexpected end of JSON input")) |}).
  pose (w1 := snd (served env (world p)
                     (ReviewPage.finalize_url env (own_prop (ReviewPage.doc (ui p)) "id"))
                     (Auth.with_bearer ReviewPage.finalize_options (js "tok")))).
  destruct (acceptAndFinalize_success_without_body env p (js "tok") res
              (SyntaxError (js "Unexpected end of JSON input")) w1 Hdoc Hstored Hne)
    as (Hrun & _); try (vm_compute; reflexivity).
  subst run. rewrite Hrun. repeat split.
Defined.




Lemma profile_mount_throws_on_corrupt_user_witness :
  let p := ListingScenario.profile_mounted
             [("access"%string, js "tok"); ("authUser"%string, js "{")] in
  Auth.item_truthy (storage (world p) !! Auth.ACCESS_TOKEN_KEY) = true
  /\ storage (world p) !! Auth.AUTH_USER_KEY = Some (js "{")
  /\ ProfilePage.on_mount ListingScenario.paginated p
     = (Throw (SyntaxError (js "Unexpected token in JSON")), p).
Proof.
  intros p.
  assert (Htoken : Auth.item_truthy (storage (world p) !! Auth.ACCESS_TOKEN_KEY) = true)
    by reflexivity.
  assert (Hstored : storage (world p) !! Auth.AUTH_USER_KEY = Some (js "{"))
    by reflexivity.
  split; [exact Htoken|]. split; [exact Hstored|].
  apply (profile_mount_throws_on_corrupt_user ListingScenario.paginated p (js "{")
           (SyntaxError (js "Unexpected token in JSON")) Htoken Hstored).
  - vm_compute. discriminate.
  - reflexivity.
Defined.

(** The guard is laxer than the login: a cached user whose [is_staff] is
    the number 1 passes the guard and is no administrator to the
    login. *)
Example admin_guard_is_laxer :
  let profile := Scenario.object [("is_staff"%string, JNum (num_of_N 1))] in
  LoginPage.isAdminAccount profile = false /\ AdminUsers.not_admin profile = false.
Proof. split; reflexivity. Qed.

Lemma admin_mount_guards_page_witness :
  let profile := Scenario.object [("username"%string, JStr (js "root"));
                                  ("is_superuser"%string, JBool true)] in
  let p := ListingScenario.admin_mounted [] in
  LoginPage.isAdminAccount profile = true
  /\ AdminUsers.not_admin profile = false
  /\ location (world (snd (AdminUsers.on_mount ListingScenario.paginated p)))
     = Some (js "/login").
Proof.
  intros profile p.
  assert (Hadmin : LoginPage.isAdminAccount profile = true) by reflexivity.
  split; [exact Hadmin|].
  destruct (admin_mount_guards_page ListingScenario.paginated p) as (Hagree & Hout & _).
  split; [exact (Hagree profile Hadmin)|].
  rewrite (Hout eq_refl). reflexivity.
Defined.

Lemma fetchUsers_reads_listing_witness :
  let env := ListingScenario.staff in
  let p := ListingScenario.admin_mounted [("access"%string, js "tok")] in
  exists p',
    AdminUsers.fetchUsers env p = (Normal tt, p')
    /\ AdminUsers.users (ui p') = JArr [ListingScenario.clerk]
    /\ AdminUsers.message (ui p') = None.
Proof.
  intros env p.
  destruct (fetchUsers_reads_listing env p) as (p' & Hrun & Hkept & _ & Hlisting).
  exists p'. split; [exact Hrun|].
  injection Hkept as _ _ _ _ Hmessage _ _ _.
  split; [|exact Hmessage].
  destruct (Auth.fetchWithAuth env (AdminUsers.users_url env) no_options (world p))
    as [[res|e] w1] eqn:Hfetch; [|vm_compute in Hfetch; discriminate].
  assert (Hres : res = {| status := 200; statusText := js "OK";
                          json_body := Normal (Scenario.object
                            [("count"%string, JNum (num_of_N 1));
                             ("items"%string, JArr [ListingScenario.clerk])]) |}).
  { vm_compute in Hfetch. injection Hfetch as <- _. reflexivity. }
  destruct (Hlisting res w1 _ eq_refl ltac:(rewrite Hres; reflexivity)
              ltac:(rewrite Hres; reflexivity))
    as (_ & _ & Hitems & _).
  apply (Hitems _ _ eq_refl); reflexivity.
Defined.

Lemma legacy_fetchWithAuth_without_token_witness :
  let env := SessionScenario.rejecting in
  let w := Scenario.world_with [("access"%string, js "tok")] in
  let run := Legacy.Auth.fetchWithAuth env SessionScenario.documents_url no_options w in
  Auth.item_truthy (storage w !! "access_token") = false
  /\ fst run = Normal SessionScenario.unauthorized
  /\ List.map (fun c => headers (call_options c)) (trace (snd run))
     = [Some {[ "Authorization" := js "" ]}]
  /\ location (snd run) = None.
Proof.
  intros env w run.
  assert (Hnone : Auth.item_truthy (storage w !! "access_token") = false) by reflexivity.
  split; [exact Hnone|].
  pose (w1 := snd (served env w SessionScenario.documents_url
                     (Legacy.Auth.with_authorization no_options (js "")))).
  destruct (legacy_fetchWithAuth_without_token env w SessionScenario.documents_url
              no_options (Responded SessionScenario.unauthorized) w1 Hnone)
    as (_ & _ & Hunauthorized & _); [vm_compute; reflexivity|].
  subst run.
  rewrite (Hunauthorized SessionScenario.unauthorized eq_refl eq_refl eq_refl).
  vm_compute. repeat split.
Defined.

Lemma legacy_login_is_not_seen_witness :
  let env := LoginScenario.admin_backend in
  let p := ListingScenario.legacy_form in
  exists p',
    Legacy.LoginPage.onSubmit env p = (Normal tt, p')
    /\ navigations p' = [js "/home"]
    /\ storage (world p') !! "access" = Some (js "A1")
    /\ Legacy.Auth.getAccessToken (world p') = (Normal None, world p').
Proof.
  intros env p.
  pose (data := Scenario.object [("access"%string, JStr (js "A1"));
                                 ("refresh"%string, JStr (js "R1"))]).
  pose (res := {| status := 200; statusText := js "OK"; json_body := Normal data |}).
  pose (w1 := snd (served env (world p) (Legacy.LoginPage.token_url env)
                     (Legacy.LoginPage.token_options env (ui p)))).
  destruct (legacy_login_is_not_seen env p res data (Some (JStr (js "A1")))
              (Some (JStr (js "R1"))) w1)
    as (p' & Hrun & Hnav & _ & Ha & _ & Hread & _);
    try (vm_compute; reflexivity).
  exists p'. auto.
Defined.

(* ===================================================================== *)
(** ** Debounced functions *)
(* ===================================================================== *)

Section Debouncing.
Import Utils.
Context {A S : Type} (func : A -> S -> S) (wait : N).









Lemma fires_monotone (gap : list (Event A)) : forall since since',
  (since <= since')%N -> fires wait since gap = true -> fires wait since' gap = true.
Proof.
  induction gap as [|[args|ms|] gap IH]; intros since since' Hle; cbn;
    [discriminate|apply IH; lia|apply IH; lia|].
  intros H. apply orb_true_iff in H as [H|H]; apply orb_true_iff.
  - left. apply N.leb_le in H. apply N.leb_le. lia.
  - right. now apply (IH since).
Qed.





(** Every schedule is cut at its calls in one way: what comes before
    the first call, then each call with what follows it. *)
Lemma schedule_cut (schedule : list (Event A)) :
  exists lead l,
    schedule = lead ++ stretches l
    /\ quiet lead /\ Forall (fun c => quiet (snd c)) l.
Proof.
  induction schedule as [|e schedule (lead & l & -> & Hlead & Hl)].
  - exists [], []. split; [reflexivity|]. split; [intros args []|constructor].
  - destruct e as [args|ms|].
    + exists [], ((args, lead) :: l). split; [reflexivity|].
      split; [intros args' []|]. now constructor.
    + exists (Elapse ms :: lead), l. split; [reflexivity|]. split; [|exact Hl].
      intros args [Hin|Hin]; [discriminate|]. exact (Hlead args Hin).
    + exists (Task :: lead), l. split; [reflexivity|]. split; [|exact Hl].
      intros args [Hin|Hin]; [discriminate|]. exact (Hlead args Hin).
Qed.


End Debouncing.

